(** * Collaborative fill-in-the-blanks: a verification development

    A shallow embedding of [fill_in_the_blank.js] and the proofs of the
    properties its specification states.

    Conventions of the embedding.
    - A JavaScript string is a [string]: a sequence of code units below 256
      (the Latin-1 range).  [toLowerCase], the class [\s] and [trim] are
      written out for that range.
    - An insertion-ordered [Set] is a duplicate-free list in insertion order
      ([set_add] appends a new element at the end, [set_delete] removes it).
    - A [Map] whose iteration order is never observed is a [gmap].
    - Sparse arrays ([inputs], [inputs[i]]) are [gmap]s from indices.
    - The inputs are text inputs: a string assigned to [value] is kept
      without its line breaks, and the text an edit leaves is what the
      browser has put in the input.
    - Numbers are integers, exact up to [Number.MAX_SAFE_INTEGER].
    - The page is an explicit state: the bindings [inputs], the value of
      each input element, the focused element, [window.db] (absent, or
      present with the [set], [update] and [on] calls made through it so
      far; what [onSave] pushes is returned by [onSave]), the pending debounce timers
      and the clock.  Time is counted in milliseconds; a timer's callback
      runs when the clock reaches the time it was set for.
    - The outside world (Wikipedia responses, [Math.random], the calendar
      fields of [new Date()], the outcome of a Firebase call, the user's
      answer to [confirm]) is an explicit argument or a component of the
      state; every request is taken to settle. *)

From Stdlib Require Import ZArith Ascii String Sorted DecimalString DecimalNat.
From stdpp Require Import functions gmap strings list fin_maps sorting.
From Equations Require Import Equations.
From Equations.Prop Require Import Logic.

Local Open Scope string_scope.
Local Open Scope list_scope.

(** ** Configuration *)

Module Config.

Definition LINES : nat := 30.
Definition BLANKS_PER_LINE : nat := 3.
Definition NOUNS_PER_LINE : nat := 10.

(** Fetch pool targets. *)
Definition TOTAL_NOUNS_NEEDED : nat := LINES * NOUNS_PER_LINE.
(** [Math.min(600, Math.ceil(TOTAL_NOUNS_NEEDED * 1.6))], with
    [x * 1.6 = 8x / 5]. *)
Definition TARGET_POOL_SIZE : Z :=
  Z.min 600 ((8 * Z.of_nat TOTAL_NOUNS_NEEDED + 4) / 5).
Definition MAX_REQUESTS : nat := 60.
Definition BATCH_SIZE : nat := 5.

End Config.

(** ** JavaScript strings *)

Module JsString.

Definition code (c : ascii) : nat := nat_of_ascii c.

(** [String.prototype.toLowerCase] on one Latin-1 code unit: [A-Z] and the
    accented capitals U+00C0..U+00DE (but not the sign U+00D7) move up by
    32; every other code unit is its own lower case. *)
Definition lower_char (c : ascii) : ascii :=
  let n := code c in
  if ((65 <=? n) && (n <=? 90))%nat then ascii_of_nat (n + 32)
  else if ((192 <=? n) && (n <=? 222) && negb (n =? 215))%nat then ascii_of_nat (n + 32)
  else c.

Fixpoint toLowerCase (s : string) : string :=
  match s with
  | EmptyString => EmptyString
  | String c r => String (lower_char c) (toLowerCase r)
  end.

(** The class [\s] (WhiteSpace and LineTerminator) below 256: TAB, LF, VT,
    FF, CR, SPACE and NO-BREAK SPACE.  [trim] strips the same class. *)
Definition is_space (c : ascii) : bool :=
  let n := code c in
  (((9 <=? n) && (n <=? 13)) || (n =? 32) || (n =? 160))%nat.

Definition is_az (c : ascii) : bool :=
  let n := code c in ((97 <=? n) && (n <=? 122))%nat.

Definition is_hyphen (c : ascii) : bool := (code c =? 45)%nat.

Definition space : ascii := " "%char.

Fixpoint map_chars (f : ascii -> ascii) (s : string) : string :=
  match s with
  | EmptyString => EmptyString
  | String c r => String (f c) (map_chars f r)
  end.

(** [s.split(/\s+/)]: the pieces between maximal runs of white space.  The
    result is never empty; leading or trailing white space yields an empty
    first or last piece.  [after_sep] records that the previous code unit
    belonged to a separator run. *)
Definition cons_head (c : ascii) (ws : list string) : list string :=
  match ws with
  | [] => [String c EmptyString]
  | w :: r => String c w :: r
  end.

Fixpoint split_go (after_sep : bool) (s : string) : list string :=
  match s with
  | EmptyString => [EmptyString]
  | String c r =>
      if is_space c
      then (if after_sep then split_go true r else EmptyString :: split_go true r)
      else cons_head c (split_go false r)
  end.

Definition split_ws (s : string) : list string := split_go false s.

Fixpoint startsWith (w p : string) : bool :=
  match p, w with
  | EmptyString, _ => true
  | String a p', String b w' => if Ascii.eqb a b then startsWith w' p' else false
  | String _ _, EmptyString => false
  end.

Definition endsWith (w p : string) : bool :=
  let n := String.length w in
  let m := String.length p in
  if (m <=? n)%nat then String.eqb (String.substring (n - m) m w) p else false.

Fixpoint includes (w p : string) : bool :=
  startsWith w p ||
  match w with
  | EmptyString => false
  | String _ r => includes r p
  end.

(** The value sanitization of a text input: U+000A LINE FEED and U+000D
    CARRIAGE RETURN are stripped from a string assigned to its [value]. *)
Definition is_line_break (c : ascii) : bool :=
  let n := code c in ((n =? 10) || (n =? 13))%nat.

Fixpoint strip_newlines (s : string) : string :=
  match s with
  | EmptyString => EmptyString
  | String c r => if is_line_break c then strip_newlines r else String c (strip_newlines r)
  end.

(** A string without line breaks: what a text input can hold. *)
Fixpoint single_line (s : string) : bool :=
  match s with
  | EmptyString => true
  | String c r => negb (is_line_break c) && single_line r
  end.

(** [xs.join(sep)] *)
Fixpoint join (sep : string) (xs : list string) : string :=
  match xs with
  | [] => EmptyString
  | [x] => x
  | x :: r => x +:+ sep +:+ join sep r
  end.

End JsString.

(** ** Insertion-ordered sets *)

Module OrderedSet.
Section Ops.
Context {A : Type} `{EqDecision A}.

Definition has (s : list A) (x : A) : bool := bool_decide (x ∈ s).

Definition set_add (s : list A) (x : A) : list A :=
  if has s x then s else s ++ [x].

Definition set_delete (s : list A) (x : A) : list A :=
  filter (fun y => y ≠ x) s.

(** [new Set(iterable)] starting from an existing set. *)
Definition add_all (s : list A) (xs : list A) : list A :=
  foldl set_add s xs.

Definition from_list (xs : list A) : list A := add_all [] xs.

(** Position of the first occurrence ([length l] when there is none). *)
Fixpoint first_seen (x : A) (l : list A) : nat :=
  match l with
  | [] => 0
  | y :: r => if decide (y = x) then 0 else S (first_seen x r)
  end.
End Ops.
End OrderedSet.

(** ** [Array.prototype.sort]

    The sort is stable (ECMAScript 2019) and the comparators of this program
    are differences of integer keys, hence consistent; the sorted array is
    then the unique stable arrangement, which a stable insertion sort
    computes.  [cmp a b <= 0] keeps [a] in front of [b]. *)

Module JsSort.
Section Sort.
Context {A : Type} (cmp : A -> A -> Z).

Fixpoint insert (x : A) (l : list A) : list A :=
  match l with
  | [] => [x]
  | y :: r => if (cmp x y <=? 0)%Z then x :: y :: r else y :: insert x r
  end.

Definition sort (l : list A) : list A := foldr insert [] l.
End Sort.

Section Ranking.
Context {A : Type} (key : A -> nat) (before : A -> A -> Prop).

(** Comparator of the shape [(a, b) => key(b) - key(a)]: descending keys. *)
Definition by_key_desc (a b : A) : Z := (Z.of_nat (key b) - Z.of_nat (key a))%Z.

(** [a] is ranked in front of [b]: a larger key, or the same key and [a]
    came first in the array that was sorted. *)
Definition ranked (a b : A) : Prop :=
  key b < key a \/ (key a = key b /\ before a b).
End Ranking.
End JsSort.

(** ** Noun extraction *)

Module Nouns.
Import JsString.

Definition STOPWORDS : gset string := list_to_set [
  "the";"a";"an";"and";"or";"but";"if";"then";"else";"when";"while";"for";"to";"of";"in";"on";"at";"by";
  "with";"from";"as";"that";"this";"these";"those";"it";"its";"is";"are";"was";"were";"be";"been";"being";
  "has";"have";"had";"do";"does";"did";"can";"could";"may";"might";"must";"shall";"should";"will";"would";
  "i";"you";"he";"she";"they";"we";"me";"him";"her";"them";"us";"my";"your";"his";"their";"our";"mine";"yours";"hers";"theirs";"ours";
  "also";"such";"other";"more";"most";"some";"any";"each";"many";"few";"several";"which";"who";"whom";"whose";"what";"where";"why";"how";
  "than";"into";"over";"under";"about";"after";"before";"between";"during";"without";"within";"per";"via";"vs";"etc";
  "january";"february";"march";"april";"may";"june";"july";"august";"september";"october";"november";"december";
  "monday";"tuesday";"wednesday";"thursday";"friday";"saturday";"sunday";
  "km";"mi";"ft";"m";"cm";"mm";"km2";"m2";"pm";"am"
].

(** [.replace(/[^a-z\-\s]/g, ' ')] *)
Definition keep_char (c : ascii) : ascii :=
  if is_az c || is_hyphen c || is_space c then c else space.

Definition length_ok (w : string) : bool :=
  ((3 <=? String.length w) && (String.length w <=? 24))%nat.

Definition not_stopword (w : string) : bool := negb (bool_decide (w ∈ STOPWORDS)).

(** [!/^-|-$/.test(w)] *)
Definition no_edge_hyphen (w : string) : bool :=
  negb (startsWith w "-" || endsWith w "-").

Definition no_double_hyphen (w : string) : bool := negb (includes w "--").

Definition words (text : string) : list string :=
  List.filter no_double_hyphen
    (List.filter no_edge_hyphen
      (List.filter not_stopword
        (List.filter length_ok
          (split_ws (map_chars keep_char (toLowerCase text)))))).

Definition not_gerund (w : string) : bool :=
  negb (endsWith w "ing") || endsWith w "thing".

Definition candidates (text : string) : list string :=
  List.filter not_gerund (words text).

(** [for (const w of candidates) freq.set(w, (freq.get(w) || 0) + 1)] *)
Definition freq_get (freq : gmap string nat) (w : string) : nat :=
  default 0 (freq !! w).

Definition freq_step (freq : gmap string nat) (w : string) : gmap string nat :=
  <[w := freq_get freq w + 1]> freq.

Definition freq_of (cands : list string) : gmap string nat :=
  foldl freq_step ∅ cands.

Definition by_freq_desc (freq : gmap string nat) (a b : string) : Z :=
  (Z.of_nat (freq_get freq b) - Z.of_nat (freq_get freq a))%Z.

Definition extractCandidateNounsFromText (text : string) : list string :=
  if String.eqb text "" then []
  else
    let cands := candidates text in
    let freq := freq_of cands in
    JsSort.sort (by_freq_desc freq) (OrderedSet.from_list cands).

(** *** Vocabulary of the properties *)

(** In-document frequency: the number of occurrences among the candidate
    tokens of the text. *)
Definition occurrences (w : string) (doc : list string) : nat :=
  length (List.filter (String.eqb w) doc).

(** [a] precedes [b] in the result: [a] is more frequent, or as frequent
    and first seen earlier. *)
Definition ranks_before (doc : list string) (a b : string) : Prop :=
  occurrences b doc < occurrences a doc
  \/ (occurrences a doc = occurrences b doc /\ OrderedSet.first_seen a doc < OrderedSet.first_seen b doc).

Definition sample_text : string :=
  "The cats and dogs are running and jumping, something amazing".

End Nouns.

(** ** Building the noun pool *)

Module Pool.
Import OrderedSet Config.

(** The JSON body of a summary; only [extract] is read: a string, or
    missing. *)
Record summary := { extract : option string }.

(** The network: what the [k]-th call of [fetchWikipediaRandomSummary]
    settles to ([None]: it rejects, on a network error or a status that is
    not ok), and how many calls have been made so far. *)
Record world := { outcome : nat -> option summary; attempts : nat }.

(** [fetchWikipediaRandomSummary().catch(() => null)]: one request; a
    rejection becomes [null]. *)
Definition fetch_or_null (w : world) : option summary * world :=
  (outcome w (attempts w), {| outcome := outcome w; attempts := S (attempts w) |}).

(** [await Promise.all(Array.from({ length: batch }, ...))]: [batch]
    requests are issued, the results come back in the order of issue. *)
Fixpoint fetch_batch (batch : nat) (w : world) : list (option summary) * world :=
  match batch with
  | 0 => ([], w)
  | S n =>
      let '(r, w1) := fetch_or_null w in
      let '(rs, w2) := fetch_batch n w1 in
      (r :: rs, w2)
  end.

Definition size (pool : list string) : Z := Z.of_nat (length pool).

(** [for (const w of words) { pool.add(w); if (pool.size >= targetSize) break; }] *)
Fixpoint add_words (targetSize : Z) (pool : list string) (words : list string) : list string :=
  match words with
  | [] => pool
  | w :: rest =>
      let pool' := set_add pool w in
      if (targetSize <=? size pool')%Z then pool' else add_words targetSize pool' rest
  end.

(** [if (!r || !r.extract) continue;] *)
Definition usable_extract (r : option summary) : option string :=
  match r with
  | None => None
  | Some body =>
      match extract body with
      | None => None
      | Some text => if String.eqb text "" then None else Some text
      end
  end.

(** The [for (const r of results)] loop of one round. *)
Fixpoint absorb (targetSize : Z) (pool : list string) (results : list (option summary)) : list string :=
  match results with
  | [] => pool
  | r :: rest =>
      match usable_extract r with
      | None => absorb targetSize pool rest
      | Some text =>
          let pool' := add_words targetSize pool (Nouns.extractCandidateNounsFromText text) in
          if (targetSize <=? size pool')%Z then pool' else absorb targetSize pool' rest
      end
  end.

(** [Math.min(BATCH_SIZE, MAX_REQUESTS - requestsMade)] *)
Definition batch_of (requestsMade : nat) : nat :=
  Nat.min BATCH_SIZE (MAX_REQUESTS - requestsMade).
Arguments batch_of : simpl never.

(** The [while] loop.  Each round issues at least one request while the
    budget is not used up, so [MAX_REQUESTS - requestsMade] decreases. *)
Equations? rounds (targetSize : Z) (pool : list string) (requestsMade : nat) (w : world)
  : list string * nat * world by wf (MAX_REQUESTS - requestsMade) lt :=
  rounds targetSize pool requestsMade w
    with inspect ((size pool <? targetSize)%Z && (requestsMade <? MAX_REQUESTS)%nat) => {
    | exist _ true Hgo =>
        let batch := batch_of requestsMade in
        let rw := fetch_batch batch w in
        rounds targetSize (absorb targetSize pool (fst rw)) (requestsMade + batch) (snd rw)
    | exist _ false _ => (pool, requestsMade, w)
    }.
Proof.
  apply andb_true_iff in Hgo as [_ Hlt]. apply Nat.ltb_lt in Hlt.
  unfold batch_of, BATCH_SIZE, MAX_REQUESTS in *. lia.
Qed.

(** [buildWikipediaNounPool(targetSize)]: the pool it resolves to, with the
    final value of [requestsMade] and the network afterwards. *)
Definition buildWikipediaNounPool (targetSize : Z) (w : world) : list string * nat * world :=
  rounds targetSize [] 0 w.

(** *** Vocabulary of the properties *)

(** A fetch that failed, or whose body has no usable [extract]. *)
Definition contributes (r : option summary) : bool :=
  match usable_extract r with Some _ => true | None => false end.

(** A network on which every other request fails. *)
Definition flaky_world : world :=
  {| outcome := fun k =>
       if Nat.even k then None
       else Some {| extract := Some Nouns.sample_text |};
     attempts := 0 |}.

End Pool.


(** ** JavaScript values and number printing *)

Module Js.
Import JsString.

(** [Number.MAX_SAFE_INTEGER], [2^53 - 1].  A JavaScript number is a
    double: up to this magnitude every integer is a number of its own, and
    the definitions below are exact there.  Beyond it JavaScript rounds to
    the nearest double (and prints in exponent notation from 10^21 on);
    that rounding is not modelled, and the properties that depend on exact
    numbers carry this bound. *)
Definition MAX_SAFE_INTEGER : Z := 9007199254740991.

(** [String(n)] for an integer [n]: all its decimal digits. *)
Definition string_of_Z (n : Z) : string := NilEmpty.string_of_int (Z.to_int n).
Definition string_of_nat (n : nat) : string := NilEmpty.string_of_uint (Nat.to_uint n).

(** What a database snapshot can hold, and [undefined] for a property that
    is missing.  Numbers are the integers; arrays are not modelled. *)
#[warnings="-register-all"]
Inductive value :=
| Undefined
| Null
| Bool (b : bool)
| Num (n : Z)
| Str (s : string)
| Obj (fields : list (string * value)).

(** [!!v] *)
Definition truthy (v : value) : bool :=
  match v with
  | Undefined | Null => false
  | Bool b => b
  | Num n => negb (n =? 0)%Z
  | Str s => negb (String.eqb s "")
  | Obj _ => true
  end.

Fixpoint assoc (k : string) (fields : list (string * value)) : value :=
  match fields with
  | [] => Undefined
  | (k', v) :: rest => if String.eqb k k' then v else assoc k rest
  end.

(** [v.k] for a [v] that is neither [null] nor [undefined]: a primitive has
    no own property of that name. *)
Definition get (v : value) (k : string) : value :=
  match v with
  | Obj fields => assoc k fields
  | _ => Undefined
  end.

(** [a || b] *)
Definition or_else (a b : value) : value := if truthy a then a else b.

(** The conversion to a string that assigning to [input.value] makes. *)
Definition to_string (v : value) : string :=
  match v with
  | Undefined => "undefined"
  | Null => ""
  | Bool true => "true"
  | Bool false => "false"
  | Num n => string_of_Z n
  | Str s => s
  | Obj _ => "[object Object]"
  end.

Definition is_digit (c : ascii) : bool :=
  let n := code c in ((48 <=? n) && (n <=? 57))%nat.

Definition digit_value (c : ascii) : Z := Z.of_nat (code c - 48).

Fixpoint all_digits (s : string) : bool :=
  match s with
  | EmptyString => true
  | String c r => is_digit c && all_digits r
  end.

Fixpoint trimStart (s : string) : string :=
  match s with
  | EmptyString => EmptyString
  | String c r => if is_space c then trimStart r else s
  end.

(** The longest prefix of decimal digits, read as a number; [None] when
    there is no digit. *)
Fixpoint digits_prefix (seen : bool) (acc : Z) (s : string) : option Z :=
  match s with
  | EmptyString => if seen then Some acc else None
  | String c r =>
      if is_digit c then digits_prefix true (10 * acc + digit_value c) r
      else if seen then Some acc else None
  end.

(** [parseInt(s, 10)]; [None] is [NaN].  The digits are read exactly; the
    result is the JavaScript one up to [MAX_SAFE_INTEGER] in magnitude. *)
Definition parseInt (s : string) : option Z :=
  match trimStart s with
  | String "-" r => Z.opp <$> digits_prefix false 0 r
  | String "+" r => digits_prefix false 0 r
  | t => digits_prefix false 0 t
  end.

End Js.

(** ** The page: inputs, focus, the database binding, timers *)

Module Page.
Import JsString Config.

(** An input element, by identity.  Each [addBlank] creates a new one. *)
Definition elt := nat.

(** [{ value, editedBy, updatedAt }] *)
Record blank_record := { value : string; editedBy : string; updatedAt : Z }.

(** [pathFor(lineIdx, blankIdx)] *)
Definition pathFor (lineIdx blankIdx : nat) : string :=
  "blanks/" +:+ Js.string_of_nat lineIdx +:+ "/" +:+ Js.string_of_nat blankIdx.

(** The calls this page has made on [window.db], in order. *)
Inductive db_call :=
| RefSet (path : string) (r : blank_record)          (* db.ref(path).set(r) *)
| RefUpdate (updates : list (string * blank_record)) (* db.ref().update(updates) *)
| RefOn (path : string) (event : string).            (* db.ref(path).on(event, ...) *)

(** A pending [setTimeout] of a debounced input handler: the field whose
    closure owns it, the element the event was dispatched on, the time at
    which it is due. *)
Record timer := { t_line : nat; t_blank : nat; t_target : elt; t_due : Z }.

Record page := {
  inputs : gmap nat (gmap nat elt);   (* inputs[lineIdx][blankIdx] *)
  value_of : elt -> string;           (* input.elt.value *)
  activeElement : option elt;         (* document.activeElement, if an input *)
  db : option (list db_call);         (* window.db, with its set, update, on calls *)
  clientId : string;
  timers : list timer;
  now : Z;                            (* Date.now() *)
  status : string;                    (* text of the status element *)
  console : list string               (* console.error *)
}.

Definition with_value_of (f : elt -> string) (st : page) : page :=
  {| inputs := inputs st; value_of := f; activeElement := activeElement st;
     db := db st; clientId := clientId st; timers := timers st; now := now st;
     status := status st; console := console st |}.

Definition with_db (d : option (list db_call)) (st : page) : page :=
  {| inputs := inputs st; value_of := value_of st; activeElement := activeElement st;
     db := d; clientId := clientId st; timers := timers st; now := now st;
     status := status st; console := console st |}.

Definition with_timers (ts : list timer) (st : page) : page :=
  {| inputs := inputs st; value_of := value_of st; activeElement := activeElement st;
     db := db st; clientId := clientId st; timers := ts; now := now st;
     status := status st; console := console st |}.

Definition with_now (t : Z) (st : page) : page :=
  {| inputs := inputs st; value_of := value_of st; activeElement := activeElement st;
     db := db st; clientId := clientId st; timers := timers st; now := t;
     status := status st; console := console st |}.

Definition with_status (s : string) (st : page) : page :=
  {| inputs := inputs st; value_of := value_of st; activeElement := activeElement st;
     db := db st; clientId := clientId st; timers := timers st; now := now st;
     status := s; console := console st |}.

Definition with_console (c : list string) (st : page) : page :=
  {| inputs := inputs st; value_of := value_of st; activeElement := activeElement st;
     db := db st; clientId := clientId st; timers := timers st; now := now st;
     status := status st; console := c |}.

Definition with_inputs (i : gmap nat (gmap nat elt)) (st : page) : page :=
  {| inputs := i; value_of := value_of st; activeElement := activeElement st;
     db := db st; clientId := clientId st; timers := timers st; now := now st;
     status := status st; console := console st |}.

(** [inputs?.[i]?.[b]] for natural indices. *)
Definition input_at (st : page) (i b : nat) : option elt :=
  inputs st !! i ≫= (fun row => row !! b).

(** [inputs[lineIdx]?.[blankIdx]] for the number [parseInt] returned: only
    a natural number names an element of the array. *)
Definition input_at_num (st : page) (i : nat) (b : Z) : option elt :=
  if (0 <=? b)%Z then input_at st i (Z.to_nat b) else None.

(** [valueAt(i, b)]: [inputs?.[i]?.[b]?.elt?.value || ''] *)
Definition valueAt (st : page) (i b : nat) : string :=
  match input_at st i b with
  | Some e => value_of st e
  | None => ""
  end.

(** The input [e] holds the text [s] from now on. *)
Definition hold (e : elt) (s : string) (st : page) : page :=
  with_value_of (<[e := s]> (value_of st)) st.

(** [input.elt.value = s]: the inputs are text inputs ([createInput('')]),
    so the input ends up holding [s] without its line breaks. *)
Definition set_value (e : elt) (s : string) (st : page) : page :=
  hold e (strip_newlines s) st.

(** [setStatus(msg)]; the timer that blanks the message later is left out. *)
Definition setStatus (msg : string) (st : page) : page := with_status msg st.

Definition console_error (msg : string) (st : page) : page :=
  with_console (console st ++ [msg]) st.

(** *** Firebase helpers *)

(** [writeBlank]: the call is recorded; whether it is later rejected only
    decides a line of [console.error]. *)
Definition writeBlank (lineIdx blankIdx : nat) (v : string) (st : page) : page :=
  match db st with
  | None => st
  | Some calls =>
      with_db (Some (calls ++ [RefSet (pathFor lineIdx blankIdx)
                                 {| value := v; editedBy := clientId st; updatedAt := now st |}])) st
  end.

Definition attachLineListener (lineIdx : nat) (st : page) : page :=
  match db st with
  | None => st
  | Some calls =>
      let lineRef := "blanks/" +:+ Js.string_of_nat lineIdx in
      with_db (Some (calls ++ [RefOn lineRef "child_added"; RefOn lineRef "child_changed"])) st
  end.

(** A snapshot delivered to a [child_added] or [child_changed] listener. *)
Record snapshot := { key : string; val : Js.value }.

Definition applyRemote (lineIdx : nat) (snap : snapshot) (st : page) : page :=
  let blankIdx := Js.parseInt (key snap) in
  let data := val snap in
  match blankIdx with
  | None => st
  | Some blankIdx =>
      if negb (Js.truthy data) then st
      else
        match input_at_num st lineIdx blankIdx with
        | None => st
        | Some input =>
            if bool_decide (activeElement st ≠ Some input)
            then set_value input
                   (Js.to_string (Js.or_else (Js.get data "value") (Js.Str ""))) st
            else st
        end
  end.

(** *** Building the inputs *)

(** [addBlank]: a new input element [e] is bound at [inputs[lineIdx][blankIdx]],
    with the empty value. *)
Definition addBlank (lineIdx blankIdx : nat) (e : elt) (st : page) : page :=
  let row := default ∅ (inputs st !! lineIdx) in
  set_value e "" (with_inputs (<[lineIdx := <[blankIdx := e]> row]> (inputs st)) st).

(** The body of the [for] loop of [setup] for line [i]; the elements of
    line [i] are numbered [3 i], [3 i + 1], [3 i + 2]. *)
Definition setup_line (st : page) (i : nat) : page :=
  let st := with_inputs (<[i := ∅]> (inputs st)) st in
  let st := addBlank i 0 (BLANKS_PER_LINE * i) st in
  let st := addBlank i 1 (BLANKS_PER_LINE * i + 1) st in
  let st := addBlank i 2 (BLANKS_PER_LINE * i + 2) st in
  attachLineListener i st.

(** The page before [setup], with or without a database binding. *)
Definition blank_page (d : option (list db_call)) (id : string) : page :=
  {| inputs := ∅; value_of := fun _ => ""; activeElement := None; db := d;
     clientId := id; timers := []; now := 0; status := ""; console := [] |}.

Definition setup (d : option (list db_call)) (id : string) : page :=
  foldl setup_line (blank_page d id) (seq 0 LINES).

(** *** Debounced edits *)

Definition owned_by (lineIdx blankIdx : nat) (t : timer) : bool :=
  (t_line t =? lineIdx)%nat && (t_blank t =? blankIdx)%nat.

(** The user types in the input of a field and the browser leaves the
    input holding the text [v];
    the browser then runs the debounced listener of that element:
    [clearTimeout(t); t = setTimeout(() => fn.apply(this, a), 250)]. *)
Definition on_input (lineIdx blankIdx : nat) (v : string) (st : page) : page :=
  match input_at st lineIdx blankIdx with
  | None => st
  | Some e =>
      let st := hold e v st in
      with_timers
        (List.filter (fun t => negb (owned_by lineIdx blankIdx t)) (timers st)
         ++ [{| t_line := lineIdx; t_blank := blankIdx; t_target := e;
                t_due := now st + 250 |}]) st
  end.

(** A timer fires: [writeBlank(lineIdx, blankIdx, e.target.value)], the
    value being read when the callback runs, at the time the timer was set
    for or later. *)
Definition fire (st : page) (t : timer) : page :=
  let st := with_now (Z.max (now st) (t_due t)) st in
  writeBlank (t_line t) (t_blank t) (value_of st (t_target t)) st.

Definition is_due (deadline : Z) (t : timer) : bool := (t_due t <=? deadline)%Z.

(** The timers that fire when time moves on to [deadline]: those due by
    then, earliest first (in the order they were set when due together). *)
Definition firing (deadline : Z) (ts : list timer) : list timer :=
  JsSort.sort (fun a b => (t_due a - t_due b)%Z) (List.filter (is_due deadline) ts).

(** [d] milliseconds pass: the timers that fall due fire and are gone. *)
Definition advance (d : nat) (st : page) : page :=
  let deadline := (now st + Z.of_nat d)%Z in
  let due := firing deadline (timers st) in
  let st := with_timers (List.filter (fun t => negb (is_due deadline t)) (timers st)) st in
  with_now deadline (foldl fire st due).

(** A burst of edits of one field: each entry is the time that passed
    since the previous edit, and the text after the edit. *)
Fixpoint type_all (lineIdx blankIdx : nat) (edits : list (nat * string)) (st : page) : page :=
  match edits with
  | [] => st
  | (gap, v) :: rest =>
      type_all lineIdx blankIdx rest (on_input lineIdx blankIdx v (advance gap st))
  end.

(** *** Reset *)

(** [inputs?.[i]?.[b]?.elt && (inputs[i][b].elt.value = '')] *)
Definition clear_blank (i : nat) (st : page) (b : nat) : page :=
  match input_at st i b with
  | Some e => set_value e "" st
  | None => st
  end.

Definition clear_line (st : page) (i : nat) : page :=
  foldl (clear_blank i) st (seq 0 BLANKS_PER_LINE).

Definition clear_all (st : page) : page := foldl clear_line st (seq 0 LINES).

Definition reset_updates (st : page) : list (string * blank_record) :=
  i ← seq 0 LINES;
  b ← seq 0 BLANKS_PER_LINE;
  [(pathFor i b, {| value := ""; editedBy := clientId st; updatedAt := now st |})].

(** How an awaited database call settles. *)
Inductive settled := Fulfilled | Rejected (err : string).

(** The rest of [onReset] once the local clear has run: the batched update
    when there is a database, and the status message; [remote] is how the
    awaited update settles. *)
Definition reset_remote (remote : settled) (st : page) : page :=
  match db st with
  | Some calls =>
      let st := with_db (Some (calls ++ [RefUpdate (reset_updates st)])) st in
      match remote with
      | Fulfilled => setStatus "All blanks reset." st
      | Rejected err => setStatus "Reset failed. Check console." (console_error err st)
      end
  | None => setStatus "All blanks reset." st
  end.

(** [onReset], given the answer to [confirm] and how the batched update
    settles (consulted only when there is a database). *)
Definition onReset (confirmed : bool) (remote : settled) (st : page) : page :=
  if negb confirmed then st else reset_remote remote (clear_all st).

(** *** What was sent *)

(** The records this page has written with [set] at [path], oldest first. *)
Definition sets_at (path : string) (calls : list db_call) : list blank_record :=
  omap (fun c => match c with
                 | RefSet p r => if String.eqb p path then Some r else None
                 | _ => None
                 end) calls.

Definition sent_to (lineIdx blankIdx : nat) (st : page) : list blank_record :=
  sets_at (pathFor lineIdx blankIdx) (default [] (db st)).

(** The text of the field after a burst of edits that starts with [v1]. *)
Definition last_value (v1 : string) (rest : list (nat * string)) : string :=
  List.last (map snd rest) v1.

(** What one firing adds to the writes of field [(l, b)]. *)
Definition written_by (l b : nat) (st : page) (t : timer) : list blank_record :=
  if owned_by l b t
  then [{| value := value_of st (t_target t); editedBy := clientId st;
           updatedAt := Z.max (now st) (t_due t) |}]
  else [].

(** After an edit of field [(l, b)], whose input is [e]: the field's own
    debounce timer is the only one the field has, and is due 250 ms after
    the edit. *)
Definition armed (l b : nat) (e : elt) (st : page) : Prop :=
  List.filter (owned_by l b) (timers st)
  = [{| t_line := l; t_blank := b; t_target := e; t_due := now st + 250 |}].

(** *** Sample pages *)

(** A page after [setup], with a database binding and one remote edit
    already applied. *)
Definition demo_page : page :=
  applyRemote 2 {| key := "1"; val := Js.Obj [("value", Js.Str "lantern")] |}
    (setup (Some []) "client-a").

(** A page after [setup] without a database binding. *)
Definition offline_page : page := setup None "client-a".

(** [red], a line feed, [fox], a carriage return and a line feed, [hen]. *)
Definition three_lines : string :=
  "red" +:+ String (ascii_of_nat 10) "fox"
  +:+ String (ascii_of_nat 13) (String (ascii_of_nat 10) "hen").

End Page.


(** ** Compose and export *)

Module Compose.
Import JsString Config Page.

(** [.replace(/\s+/g, ' ')]: every maximal run of white space becomes one
    space.  [in_run] records that the previous code unit was white space. *)
Fixpoint collapse_go (in_run : bool) (s : string) : string :=
  match s with
  | EmptyString => EmptyString
  | String c r =>
      if is_space c
      then (if in_run then collapse_go true r else String space (collapse_go true r))
      else String c (collapse_go false r)
  end.

Definition collapse (s : string) : string := collapse_go false s.

Fixpoint trimEnd (s : string) : string :=
  match s with
  | EmptyString => EmptyString
  | String c r =>
      match trimEnd r with
      | EmptyString => if is_space c then EmptyString else String c EmptyString
      | r' => String c r'
      end
  end.

(** [s.trim()] *)
Definition trim (s : string) : string := trimEnd (Js.trimStart s).

(** [segments[i]] for a line of the page: the template's static text. *)
Definition segments_of (i : nat) : list string :=
  ["Line " +:+ Js.string_of_nat (i + 1) +:+ ": Before"; "then"; "and then"; "finally"].

Definition segments : list (list string) := map segments_of (seq 0 LINES).

(** The array [parts] of [composeLine]: segments and field values in turn.
    ([join] prints a missing element as the empty string.) *)
Definition parts (seg : list string) (st : page) (i : nat) : list string :=
  [nth 0 seg ""; valueAt st i 0; nth 1 seg ""; valueAt st i 1;
   nth 2 seg ""; valueAt st i 2; nth 3 seg ""].

(** [composeLine(i)]; [None] when [segments[i]] is undefined and the call
    throws. *)
Definition composeLine (st : page) (i : nat) : option string :=
  match segments !! i with
  | None => None
  | Some seg => Some (trim (collapse (join " " (parts seg st i))))
  end.

(** *** Vocabulary of the properties *)

Definition nonempty (s : string) : bool := negb (String.eqb s "").

(** The words of a string: its maximal runs of code units that are not
    white space. *)
Definition words_of (s : string) : list string := List.filter nonempty (split_ws s).

Definition starts_with_space (s : string) : bool :=
  match s with
  | EmptyString => false
  | String c _ => is_space c
  end.

Fixpoint ends_with_space (s : string) : bool :=
  match s with
  | EmptyString => false
  | String c EmptyString => is_space c
  | String _ r => ends_with_space r
  end.

(** Every white-space code unit is a plain space and is followed by a code
    unit that is not white space, unless it ends the string. *)
Fixpoint single_spaced (s : string) : bool :=
  match s with
  | EmptyString => true
  | String c r =>
      (if is_space c then Ascii.eqb c space && negb (starts_with_space r) else true)
      && single_spaced r
  end.

Definition normalized (s : string) : bool :=
  single_spaced s && negb (starts_with_space s) && negb (ends_with_space s).

(** The first piece of a split, and the words among the pieces after it. *)
Definition first_piece (l : list string) : string := List.hd EmptyString l.
Definition later_words (l : list string) : list string := List.filter nonempty (List.tl l).

(** After a remote edit to ["  red   fox "] in field (2, 1) of [demo_page]. *)
Definition spaced_page : page :=
  applyRemote 2 {| key := "1"; val := Js.Obj [("value", Js.Str "  red   fox ")] |}
    demo_page.

End Compose.


(** ** The name of the downloaded file *)

Module Stamp.
Import JsString.

(** What the getters of the [Date] made by [new Date()] return: the local
    calendar fields of the moment of the call. *)
Record date := {
  getFullYear : Z; getMonth : Z; getDate : Z;
  getHours : Z; getMinutes : Z; getSeconds : Z
}.

Fixpoint repeat_char (c : ascii) (n : nat) : string :=
  match n with
  | 0 => EmptyString
  | S m => String c (repeat_char c m)
  end.

(** [s.padStart(targetLength, c)] for a one-character filler. *)
Definition padStart (targetLength : nat) (c : ascii) (s : string) : string :=
  repeat_char c (targetLength - String.length s) +:+ s.

(** [pad = n => String(n).padStart(2, '0')] *)
Definition pad (n : Z) : string := padStart 2 "0" (Js.string_of_Z n).

Definition stamp (d : date) : string :=
  Js.string_of_Z (getFullYear d) +:+ pad (getMonth d + 1) +:+ pad (getDate d)
  +:+ "-" +:+ pad (getHours d) +:+ pad (getMinutes d) +:+ pad (getSeconds d).

(** The file name [onSave] passes to [downloadText]. *)
Definition download_name (d : date) : string := "fill-in-blanks-" +:+ stamp d +:+ ".txt".

(** *** Vocabulary of the properties *)

Fixpoint all_chars (f : ascii -> bool) (s : string) : bool :=
  match s with
  | EmptyString => true
  | String c r => f c && all_chars f r
  end.

(** Lower-case letters, digits, hyphen and full stop. *)
Definition safe_char (c : ascii) : bool :=
  Js.is_digit c || is_az c || is_hyphen c || (code c =? 46)%nat.

(** [n] written with exactly [width] decimal digits. *)
Fixpoint fixed (width : nat) (n : Z) : string :=
  match width with
  | 0 => EmptyString
  | S w => fixed w (n / 10) +:+ String (ascii_of_nat (48 + Z.to_nat (n mod 10))) EmptyString
  end.

(** [P] holds of the [n] integers from [lo] on. *)
Fixpoint check_from (P : Z -> bool) (lo : Z) (n : nat) : bool :=
  match n with
  | 0 => true
  | S m => P lo && check_from P (lo + 1) m
  end.

(** The ranges of the getters (the year apart). *)
Definition calendar (d : date) : Prop :=
  (0 <= getMonth d <= 11 /\ 1 <= getDate d <= 31 /\ 0 <= getHours d <= 23
   /\ 0 <= getMinutes d <= 59 /\ 0 <= getSeconds d <= 59)%Z.

Definition sample_date : date :=
  {| getFullYear := 2024; getMonth := 2; getDate := 7;
     getHours := 9; getMinutes := 5; getSeconds := 3 |}.

End Stamp.


(** ** Dealing the suggestions *)

Module Draw.
Import OrderedSet.

(** A word of an array, or [undefined] ([None]) when the index is out of
    range. *)
Definition word := option string.

(** A value of [Math.random()]: the fraction [r_num / (r_num + r_more + 1)],
    which is at least 0 and below 1. *)
Record unit_fraction := { r_num : nat; r_more : nat }.

(** [Math.floor(r * n)] *)
Definition floor_scaled (r : unit_fraction) (n : nat) : nat :=
  (r_num r * n) / (r_num r + r_more r + 1).

(** The successive values of [Math.random()]; the state threaded through
    the draws is the number of values consumed. *)
Definition randomness := nat -> unit_fraction.

(** The [while] loop of [pickUniqueRandom]; [left] is [count * 30 - tries]. *)
Fixpoint pick_loop (left : nat) (arr : list string) (count : nat)
    (chosen seen : list word) (rnd : randomness) (k : nat) : list word * nat :=
  match left with
  | 0 => (chosen, k)
  | S left' =>
      if (length chosen <? count)%nat then
        let w : word := arr !! floor_scaled (rnd k) (length arr) in
        if has seen w
        then pick_loop left' arr count chosen seen rnd (S k)
        else pick_loop left' arr count (chosen ++ [w]) (set_add seen w) rnd (S k)
      else (chosen, k)
  end.

Definition pickUniqueRandom (arr : list string) (count : nat) (exclude : list word)
    (rnd : randomness) (k : nat) : list word * nat :=
  pick_loop (count * 30) arr count [] (from_list exclude) rnd k.

Definition EXCLUDE_CAP : nat := 300.
Definition EXCLUDE_RELEASE : nat := 120.

(** [if (rollingExclude.size > 300)
      for (const w of Array.from(rollingExclude).slice(0, 120)) rollingExclude.delete(w);] *)
Definition trim_exclude (rollingExclude : list word) : list word :=
  if (EXCLUDE_CAP <? length rollingExclude)%nat
  then foldl set_delete rollingExclude (take EXCLUDE_RELEASE rollingExclude)
  else rollingExclude.

(** The body of the [for] loop of [renderAllNounRows], repeated for [lines]
    lines: the list shown under each line, the exclusion set and the number
    of random values used at the end. *)
Fixpoint draw_lines (lines : nat) (poolArray : list string) (perLine : nat)
    (rollingExclude : list word) (rnd : randomness) (k : nat)
  : list (list word) * list word * nat :=
  match lines with
  | 0 => ([], rollingExclude, k)
  | S lines' =>
      let picked := pickUniqueRandom poolArray perLine rollingExclude rnd k in
      let rollingExclude := trim_exclude (add_all rollingExclude picked.1) in
      let rest := draw_lines lines' poolArray perLine rollingExclude rnd picked.2 in
      (picked.1 :: rest.1.1, rest.1.2, rest.2)
  end.

(** The suggestion lists of [linesCount] lines, [perLine] words each. *)
Definition drawPerLineSuggestions (poolArray : list string) (linesCount perLine : nat)
    (rnd : randomness) : list (list word) :=
  (draw_lines linesCount poolArray perLine [] rnd 0).1.1.

(** [renderAllNounRows(poolArray)]: the lists written under the 30 lines. *)
Definition renderAllNounRows (poolArray : list string) (rnd : randomness) : list (list word) :=
  drawPerLineSuggestions poolArray Config.LINES Config.NOUNS_PER_LINE rnd.

(** *** Vocabulary of the properties *)

(** [Math.ceil(a / b)] *)
Definition ceil_div (a b : nat) : nat := (a + b - 1) / b.

Definition disjoint_lists (xs ys : list word) : Prop := forall w, w ∈ xs -> w ∉ ys.

End Draw.


(** ** What the database delivers to the other clients *)

Module Sync.
Import Page.

(** The object stored by [set(r)], as a snapshot's [val()] returns it. *)
Definition stored (r : blank_record) : Js.value :=
  Js.Obj [("value", Js.Str (value r)); ("editedBy", Js.Str (editedBy r));
          ("updatedAt", Js.Num (updatedAt r))].

(** The snapshot the listeners of a line receive for the child stored at
    [blanks/<lineIdx>/<blankIdx>]: its key is the last segment of the
    path. *)
Definition delivered (blankIdx : nat) (r : blank_record) : snapshot :=
  {| key := Js.string_of_nat blankIdx; val := stored r |}.

End Sync.

(** ** The grid of inputs that [setup] builds *)

Module Layout.
Import Config Page.

(** The element [setup] binds at [inputs[i][b]]. *)
Definition grid (i b : nat) : option elt :=
  if ((i <? LINES) && (b <? BLANKS_PER_LINE))%nat
  then Some (BLANKS_PER_LINE * i + b)
  else None.

(** The page has the bindings [setup] made. *)
Definition laid_out (st : page) : Prop := forall i b, input_at st i b = grid i b.

(** The two listeners [attachLineListener] registers for a line. *)
Definition listeners (lineIdx : nat) : list db_call :=
  let lineRef := "blanks/" +:+ Js.string_of_nat lineIdx in
  [RefOn lineRef "child_added"; RefOn lineRef "child_changed"].

End Layout.

(** ** The shape of a token *)

Module Tokens.
Import JsString.

(** A code unit a token can hold: a lower-case letter or a hyphen. *)
Definition token_char (c : ascii) : bool := is_az c || is_hyphen c.

(** What [.replace(/[^a-z\-\s]/g, ' ')] leaves: token characters and white
    space. *)
Definition cleaned_char (c : ascii) : bool := is_space c || token_char c.

(** A capital letter of Latin-1: [A-Z], or an accented capital (U+00C0 to
    U+00DE without the multiplication sign); its small letter is 32 code
    units further on. *)
Definition is_capital (c : ascii) : bool :=
  let n := code c in
  (((65 <=? n) && (n <=? 90)) || ((192 <=? n) && (n <=? 222) && negb (n =? 215)))%nat.

(** The same code unit, or the capital and the small form of one letter. *)
Definition same_letter (c c' : ascii) : bool :=
  Ascii.eqb c c'
  || (is_capital c && (code c' =? code c + 32)%nat)
  || (is_capital c' && (code c =? code c' + 32)%nat).

(** Two texts that differ at most in the case of their letters. *)
Fixpoint same_up_to_case (s s' : string) : bool :=
  match s, s' with
  | EmptyString, EmptyString => true
  | String c r, String c' r' => same_letter c c' && same_up_to_case r r'
  | _, _ => false
  end.

End Tokens.

(** ** Loading the suggestions at start-up *)

Module Startup.
Import Config.

(** What the noun rows show once the promise chain at the end of [setup]
    has settled: the suggestion lists, or the warning put on every row when
    the chain was rejected. *)
Inductive noun_rows :=
| Suggestions (rows : list (list Draw.word))
| LoadFailed.

(** [buildWikipediaNounPool(TARGET_POOL_SIZE)
      .then(pool => { if (pool.size < NOUNS_PER_LINE) throw ...;
                      renderAllNounRows(Array.from(pool)); })
      .catch(...)] *)
Definition load_nouns (w : Pool.world) (rnd : Draw.randomness) : noun_rows :=
  let pool := (Pool.buildWikipediaNounPool TARGET_POOL_SIZE w).1.1 in
  if (Pool.size pool <? Z.of_nat NOUNS_PER_LINE)%Z then LoadFailed
  else Suggestions (Draw.renderAllNounRows pool rnd).

End Startup.

(** ** Exporting the text *)

Module TextExport.
Import JsString Config Page Compose.

Definition LF : ascii := ascii_of_nat 10.

(** The separator ['\n'] of [exportText]. *)
Definition newline : string := String LF EmptyString.

(** [Array.from({ length: LINES }, (_, i) => composeLine(i))]; [None] when
    a call of [composeLine] throws. *)
Definition exportLinesArray (st : page) : option (list string) :=
  mapM (composeLine st) (seq 0 LINES).

(** [exportLinesArray().join('\n')] *)
Definition exportText (st : page) : option string :=
  join newline <$> exportLinesArray st.

(** *** Vocabulary of the properties *)

(** The lines of a text: the pieces between line feeds. *)
Fixpoint lines_of (s : string) : list string :=
  match s with
  | EmptyString => [EmptyString]
  | String c r => if Ascii.eqb c LF then EmptyString :: lines_of r else cons_head c (lines_of r)
  end.

(** The words of a composed line: the words of the template's segments and
    of the three values, in turn. *)
Definition line_words (i : nat) (v0 v1 v2 : string) : list string :=
  ["Line"; Js.string_of_nat (i + 1) +:+ ":"; "Before"] ++ words_of v0
  ++ ["then"] ++ words_of v1 ++ ["and"; "then"] ++ words_of v2 ++ ["finally"].

End TextExport.

(** ** The save button *)

Module Save.
Import Config Page.

(** [{ text, lines, segments, clientId, timestamp }], the object pushed
    under [saves]. *)
Record save_record := {
  text : string;
  lines : list string;
  segments : list (list string);
  savedBy : string;
  timestamp : Z
}.

(** Whether [downloadText] returns or throws. *)
Inductive completion := Returned | Threw (e : string).

(** What [onSave] leaves behind: the page, the object pushed to the
    database (if any) and the file handed to the browser (if any). *)
Record saved := {
  page_after : page;
  pushed : option save_record;
  downloaded : option (string * string)   (* file name, contents *)
}.

(** The [try] block around the download.  A [console.error(a, e)] is
    recorded as one line, [a] and [e] with a space between. *)
Definition try_download (d : Stamp.date) (download : completion) (text : string) (st : page)
  : page * option (string * string) :=
  match download with
  | Returned => (setStatus "Downloaded text file." st, Some (Stamp.download_name d, text))
  | Threw e =>
      (setStatus "Download failed. Check console." (console_error ("Download failed: " +:+ e) st),
       None)
  end.

(** The [try] block around [await savePromise]; without a database the
    promise is [Promise.resolve()]. *)
Definition await_save (remote : settled) (st : page) : page :=
  match db st, remote with
  | Some _, Rejected e =>
      setStatus "Downloaded. Firebase save failed (check rules)."
        (console_error ("Firebase save failed (download already done): " +:+ e) st)
  | _, _ => setStatus "Saved to Firebase and downloaded." st
  end.

(** [onSave], given the calendar fields [new Date()] has when the file is
    named, whether the download throws and how the push settles; [None]
    when the export throws and the handler is rejected before doing
    anything. *)
Definition onSave (d : Stamp.date) (download : completion) (remote : settled) (st : page)
  : option saved :=
  text ← TextExport.exportText st;
  lines ← TextExport.exportLinesArray st;
  let ts := now st in
  let push :=
    match db st with
    | Some _ => Some {| text := text; lines := lines; segments := Compose.segments;
                        savedBy := clientId st; timestamp := ts |}
    | None => None
    end in
  let '(st1, file) := try_download d download text st in
  Some {| page_after := await_save remote st1; pushed := push; downloaded := file |}.

End Save.

(** ** The status line and its timers

    [setStatus] on its own, with the timer that [Page.setStatus] leaves
    out: the status element (taken to exist), the pending timers and the
    clock. *)

Module StatusLine.

(** A pending [setTimeout] of [setStatus]: the message it was set for and
    the time it is due. *)
Record clear_timer := { c_msg : string; c_due : Z }.

Record bar := { textContent : string; clears : list clear_timer; clock : Z }.


(** [setStatus(msg, timeoutMs)]: the text is set, and unless [timeoutMs]
    is 0 a timer is started (a negative delay counts as none).  Delays are
    those [setTimeout] takes as they are, below 2^31 ms; the program only
    passes the default. *)
Definition setStatus (msg : string) (timeoutMs : Z) (s : bar) : bar :=
  {| textContent := msg;
     clears := if (timeoutMs =? 0)%Z then clears s
               else clears s ++ [{| c_msg := msg; c_due := clock s + Z.max 0 timeoutMs |}];
     clock := clock s |}.

(** The callback: [if (s.textContent === msg) s.textContent = ''] *)
Definition run_clear (s : bar) (t : clear_timer) : bar :=
  if String.eqb (textContent s) (c_msg t)
  then {| textContent := ""; clears := clears s; clock := clock s |}
  else s.

Definition is_due (deadline : Z) (t : clear_timer) : bool := (c_due t <=? deadline)%Z.

(** [d] milliseconds pass: the timers that fall due run, earliest first (in
    the order they were set when due together), and are gone. *)
Definition advance (d : nat) (s : bar) : bar :=
  let deadline := (clock s + Z.of_nat d)%Z in
  let due := JsSort.sort (fun a b => (c_due a - c_due b)%Z)
               (List.filter (is_due deadline) (clears s)) in
  let s1 := foldl run_clear
              {| textContent := textContent s;
                 clears := List.filter (fun t => negb (is_due deadline t)) (clears s);
                 clock := clock s |} due in
  {| textContent := textContent s1; clears := clears s1; clock := deadline |}.

(** *** Sample *)


End StatusLine.

(** ** Pending writes *)

Module Debounce.
Import Page.

(** Field [(l, b)], whose input is [e], has exactly one timer pending, due
    at [due]. *)
Definition pending (l b : nat) (e : elt) (due : Z) (st : page) : Prop :=
  List.filter (owned_by l b) (timers st)
  = [{| t_line := l; t_blank := b; t_target := e; t_due := due |}].

(** The texts a field sends for a run of edits, each given with the time
    since the edit before it: the text an edit leaves is sent when 250 ms
    or more pass before the next edit, and the last text is sent once the
    field is left alone. *)
Fixpoint settled_values (v : string) (rest : list (nat * string)) : list string :=
  match rest with
  | [] => [v]
  | (gap, v') :: rest' =>
      if (250 <=? gap)%nat then v :: settled_values v' rest' else settled_values v' rest'
  end.

End Debounce.

(** ** A session: everything that can happen after [setup] *)

Module Session.
Import Config Page.

(** The events the page reacts to: an [input] event on a field's input
    (leaving it with the text [v]), time passing, a [child_added] or
    [child_changed] notification for a line, the focus moving, and a click
    on the reset or the save button (with what the environment answers). *)
Inductive event :=
| Typed (lineIdx blankIdx : nat) (v : string)
| Passed (d : nat)
| Notified (lineIdx : nat) (snap : snapshot)
| Focused (e : option elt)
| ResetClicked (confirmed : bool) (remote : settled)
| SaveClicked (d : Stamp.date) (download : Save.completion) (remote : settled).

Definition with_focus (e : option elt) (st : page) : page :=
  {| inputs := inputs st; value_of := value_of st; activeElement := e;
     db := db st; clientId := clientId st; timers := timers st; now := now st;
     status := status st; console := console st |}.

(** The page after the handler the browser runs for an event. *)
Definition react (st : page) (ev : event) : page :=
  match ev with
  | Typed l b v => on_input l b v st
  | Passed d => advance d st
  | Notified l snap => applyRemote l snap st
  | Focused e => with_focus e st
  | ResetClicked confirmed remote => onReset confirmed remote st
  | SaveClicked d download remote =>
      match Save.onSave d download remote st with
      | Some out => Save.page_after out
      | None => st
      end
  end.

(** What the handler of an event pushes under [saves]:
    [window.db.ref('saves').push(...)] in [onSave], when there is a
    database. *)
Definition pushed_by (st : page) (ev : event) : list Save.save_record :=
  match ev with
  | SaveClicked d download remote =>
      match Save.onSave d download remote st with
      | Some out => match Save.pushed out with Some r => [r] | None => [] end
      | None => []
      end
  | _ => []
  end.

(** A session: the page, and the objects pushed under [saves] so far, in
    order.  With the [set], [update] and [on] calls that [db] records on
    the page, these are all the calls made on the database. *)
Record session := { page_now : page; pushes : list Save.save_record }.

Definition start (d : option (list db_call)) (id : string) : session :=
  {| page_now := setup d id; pushes := [] |}.

Definition step (s : session) (ev : event) : session :=
  {| page_now := react (page_now s) ev;
     pushes := pushes s ++ pushed_by (page_now s) ev |}.

Definition run (evs : list event) (s : session) : session := foldl step s evs.

(** *** Vocabulary of the properties *)

(** A path of one of the 90 fields. *)
Definition field_path (p : string) : Prop :=
  exists i b, i < LINES /\ b < BLANKS_PER_LINE /\ p = pathFor i b.

(** A write of this client to its own fields: a [set] of one field, or an
    [update] that empties fields; never a new listener. *)
Definition own_write (id : string) (c : db_call) : Prop :=
  match c with
  | RefSet p r => field_path p /\ editedBy r = id
  | RefUpdate updates =>
      Forall (fun pr => field_path pr.1 /\ value pr.2 = "" /\ editedBy pr.2 = id) updates
  | RefOn _ _ => False
  end.

(** Every pending timer belongs to one of the 90 fields. *)
Definition timers_on_grid (st : page) : Prop :=
  Forall (fun t => t_line t < LINES /\ t_blank t < BLANKS_PER_LINE) (timers st).

(** An object this client pushes under [saves]: the 30 lines of an export,
    their text, the template, and this client's id. *)
Definition own_save (id : string) (r : Save.save_record) : Prop :=
  Save.savedBy r = id
  /\ length (Save.lines r) = LINES
  /\ Save.text r = JsString.join TextExport.newline (Save.lines r)
  /\ Save.segments r = Compose.segments.

Definition is_save (ev : event) : bool :=
  match ev with SaveClicked _ _ _ => true | _ => false end.

(** The number of objects a run of events pushes: one for each click on
    save when there is a database, none without. *)
Definition saves_expected (d : option (list db_call)) (evs : list event) : nat :=
  match d with
  | Some _ => length (List.filter is_save evs)
  | None => 0
  end.

End Session.

(** ** Sample dates *)

Module Dates.
Import Stamp.

(** One second after [sample_date]. *)
Definition next_second : date :=
  {| getFullYear := 2024; getMonth := 2; getDate := 7;
     getHours := 9; getMinutes := 5; getSeconds := 4 |}.

(** A date whose year is written with four digits. *)
Definition four_digit_year (d : date) : Prop := (1000 <= getFullYear d <= 9999)%Z.

End Dates.


(* ================================================================== *)
(** * Properties *)
(* ================================================================== *)

(** ** Insertion-ordered sets: what [add_all] builds *)

Section OrderedSetFacts.
Context {A : Type} `{EqDecision A}.
Import OrderedSet.

Lemma first_seen_cons_ne (x y : A) r : y ≠ x -> first_seen x (y :: r) = S (first_seen x r).
Proof. intros Hne. simpl. destruct (decide (y = x)); [contradiction | reflexivity]. Qed.

Lemma set_add_elem (s : list A) x a : a ∈ set_add s x <-> a ∈ s \/ a = x.
Proof.
  unfold set_add, has. case_bool_decide as Hin.
  - split; [auto | intros [H' | ->]; assumption].
  - rewrite elem_of_app, list_elem_of_singleton. reflexivity.
Qed.

Lemma set_add_NoDup (s : list A) x : NoDup s -> NoDup (set_add s x).
Proof.
  intros Hnd. unfold set_add, has. case_bool_decide as Hin; [assumption |].
  apply NoDup_app. repeat split; [assumption | | apply NoDup_singleton].
  intros a Ha Hx. apply list_elem_of_singleton in Hx. subst. contradiction.
Qed.

(** [add_all s xs] keeps [s] in front and appends the elements of [xs] that
    are new, each once, in the order of their first occurrence in [xs]. *)
Lemma add_all_shape (xs s : list A) :
  NoDup s ->
  exists t, add_all s xs = s ++ t
    /\ NoDup (s ++ t)
    /\ (forall a, a ∈ t <-> a ∈ xs /\ a ∉ s)
    /\ StronglySorted (fun a b => first_seen a xs < first_seen b xs) t.
Proof.
  revert s. induction xs as [| x xs IH]; intros s Hnd.
  - exists []. rewrite app_nil_r. split; [reflexivity |]. split; [assumption |].
    split; [| constructor].
    intros a. split; [intros Ha | intros [Ha _]]; inversion Ha.
  - unfold add_all. simpl. fold (add_all (set_add s x) xs).
    destruct (IH (set_add s x) (set_add_NoDup s x Hnd)) as (t & Heq & Hnd' & Hmem & Hsort).
    assert (Hfresh : forall a, a ∈ t -> x ≠ a).
    { intros a Ha ->. apply Hmem in Ha as [_ Hn]. apply Hn, set_add_elem. auto. }
    assert (Hsort' : StronglySorted (fun a b => first_seen a (x :: xs) < first_seen b (x :: xs)) t).
    { clear -Hsort Hfresh. induction Hsort as [| a l Hs IHs Hall]; constructor.
      - apply IHs. intros b Hb. apply Hfresh. right. assumption.
      - rewrite Forall_forall in Hall |- *. intros b Hb.
        rewrite !first_seen_cons_ne.
        + apply -> Nat.succ_lt_mono. apply Hall, Hb.
        + apply Hfresh. right. assumption.
        + apply Hfresh. left. }
    revert Heq Hnd' Hmem. unfold set_add, has. case_bool_decide as Hin; intros Heq Hnd' Hmem.
    + exists t. split; [assumption |]. split; [assumption |]. split; [| assumption].
      intros a. rewrite Hmem. split.
      * intros [Ha Hn]. split; [right |]; assumption.
      * intros [Ha Hn]. split; [| assumption].
        apply elem_of_cons in Ha as [-> | Ha]; [contradiction | assumption].
    + exists (x :: t). rewrite <- app_assoc in Heq, Hnd'. simpl in Heq, Hnd'.
      split; [assumption |]. split; [assumption |]. split.
      * intros a. rewrite elem_of_cons, Hmem, elem_of_app, list_elem_of_singleton, elem_of_cons.
        destruct (decide (a = x)) as [-> | Hne]; tauto.
      * constructor; [assumption |].
        rewrite Forall_forall. intros b Hb. specialize (Hfresh b Hb).
        simpl. repeat case_decide; (congruence || lia).
Qed.

Lemma from_list_shape (xs : list A) :
  NoDup (from_list xs)
  /\ (forall a, a ∈ from_list xs <-> a ∈ xs)
  /\ StronglySorted (fun a b => first_seen a xs < first_seen b xs) (from_list xs).
Proof.
  destruct (add_all_shape xs [] (NoDup_nil_2 (A := A))) as (t & Heq & Hnd & Hmem & Hsort).
  unfold from_list. rewrite Heq. simpl in *.
  split; [assumption |]. split; [| assumption].
  intros a. rewrite Hmem. split; [tauto |]. intros Ha. split; [assumption |]. inversion 1.
Qed.
End OrderedSetFacts.

(** ** The stable sort *)

Section SortPermutation.
Context {A : Type} (cmp : A -> A -> Z).

Lemma insert_Permutation x l : JsSort.insert cmp x l ≡ₚ x :: l.
Proof.
  induction l as [| y r IH]; simpl; [reflexivity |].
  destruct (cmp x y <=? 0)%Z; [reflexivity |].
  rewrite IH. apply Permutation_swap.
Qed.

Lemma sort_Permutation l : JsSort.sort cmp l ≡ₚ l.
Proof.
  induction l as [| x l IH]; simpl; [reflexivity |].
  rewrite insert_Permutation, IH. reflexivity.
Qed.
End SortPermutation.

Section SortFacts.
Context {A : Type} (key : A -> nat) (before : A -> A -> Prop).
Import JsSort.

Local Abbreviation cmp := (by_key_desc key).
Local Abbreviation ranked := (JsSort.ranked key before).

Lemma ranked_key_le a b : ranked a b -> key b <= key a.
Proof. unfold JsSort.ranked. intros [H | [H _]]; lia. Qed.

Lemma insert_ranked x l :
  StronglySorted ranked l -> Forall (before x) l ->
  StronglySorted ranked (JsSort.insert cmp x l).
Proof.
  induction 1 as [| y r Hs IH Hall]; intros Hx; simpl.
  - repeat constructor.
  - apply Forall_cons in Hx as [Hxy Hxr].
    destruct (cmp x y <=? 0)%Z eqn:Hc.
    + apply Z.leb_le in Hc. unfold by_key_desc in Hc.
      constructor; [constructor; assumption |].
      assert (Hle : forall z, z ∈ y :: r -> key z <= key x).
      { intros z Hz. apply elem_of_cons in Hz as [-> | Hz]; [lia |].
        rewrite Forall_forall in Hall. apply Hall, ranked_key_le in Hz. lia. }
      rewrite Forall_forall. intros z Hz.
      assert (Hb : before x z).
      { apply elem_of_cons in Hz as [-> | Hz]; [assumption |].
        rewrite Forall_forall in Hxr. apply Hxr, Hz. }
      specialize (Hle z Hz). unfold JsSort.ranked.
      destruct (decide (key z = key x)) as [He | Hne]; [right; split; auto | left; lia].
    + apply Z.leb_gt in Hc. unfold by_key_desc in Hc.
      constructor; [apply IH, Hxr |].
      rewrite insert_Permutation. constructor; [left; lia | assumption].
Qed.

Lemma sort_ranked l :
  StronglySorted before l -> StronglySorted ranked (JsSort.sort cmp l).
Proof.
  induction 1 as [| x l Hs IH Hall]; simpl; [constructor |].
  apply insert_ranked; [assumption |].
  rewrite sort_Permutation. assumption.
Qed.
End SortFacts.

(** ** Noun extraction *)

Module NounsFacts.
Import JsString OrderedSet Nouns.

Lemma freq_step_get freq w v :
  freq_get (freq_step freq w) v = freq_get freq v + (if String.eqb v w then 1 else 0).
Proof.
  unfold freq_step, freq_get at 1.
  destruct (String.eqb_spec v w) as [-> | Hne].
  - rewrite lookup_insert_eq. reflexivity.
  - rewrite lookup_insert_ne by congruence. unfold freq_get. lia.
Qed.

Lemma freq_fold_get doc freq v :
  freq_get (foldl freq_step freq doc) v = freq_get freq v + occurrences v doc.
Proof.
  revert freq. induction doc as [| w doc IH]; intros freq; simpl.
  - unfold occurrences. simpl. lia.
  - rewrite IH, freq_step_get. unfold occurrences. simpl.
    destruct (String.eqb v w); simpl; lia.
Qed.

Lemma freq_of_get doc v : freq_get (freq_of doc) v = occurrences v doc.
Proof. unfold freq_of. rewrite freq_fold_get. unfold freq_get. rewrite lookup_empty. reflexivity. Qed.

Lemma StronglySorted_weaken {A} (R S : A -> A -> Prop) l :
  (forall a b, R a b -> S a b) -> StronglySorted R l -> StronglySorted S l.
Proof.
  intros HRS. induction 1 as [| x l Hs IH Hall]; constructor; [assumption |].
  eapply Forall_impl; [exact Hall | auto].
Qed.

Lemma candidates_filtered text w :
  w ∈ candidates text ->
  (w ∉ STOPWORDS) /\ length_ok w = true /\ not_gerund w = true.
Proof.
  unfold candidates, words. rewrite list_elem_of_In.
  intros Hw. apply filter_In in Hw as [Hw Hger].
  apply filter_In in Hw as [Hw _]. apply filter_In in Hw as [Hw _].
  apply filter_In in Hw as [Hw Hstop]. apply filter_In in Hw as [_ Hlen].
  split; [| split; assumption].
  unfold not_stopword in Hstop. apply negb_true_iff, bool_decide_eq_false in Hstop.
  exact Hstop.
Qed.

(** C1. [extractCandidateNounsFromText] is a function of its argument alone
    (equal texts give equal token lists); its result has no duplicates,
    holds exactly the candidate tokens of the text (none of them a stop
    word, none a gerund unless it ends in [thing]), and is sorted by
    descending in-document frequency, tokens of equal frequency in the
    order they were first seen.  On the sample sentence the result is
    [cats, dogs, something]: [the], [and], [are] as stop words and
    [running], [jumping], [amazing] as gerunds are left out, [something]
    stays. *)
Theorem extract_ranked_by_frequency (text : string) :
  let out := extractCandidateNounsFromText text in
  let doc := candidates text in
  (forall text', text' = text -> extractCandidateNounsFromText text' = out)
  /\ NoDup out
  /\ (forall w, w ∈ out <-> w ∈ doc)
  /\ (forall w, w ∈ out ->
        (w ∉ STOPWORDS) /\ (endsWith w "ing" = true -> endsWith w "thing" = true))
  /\ StronglySorted (ranks_before doc) out
  /\ extractCandidateNounsFromText sample_text = ["cats"; "dogs"; "something"]
  /\ candidates sample_text = ["cats"; "dogs"; "something"].
Proof.
  intros out doc.
  assert (Hshape : NoDup out /\ (forall w, w ∈ out <-> w ∈ doc)
                   /\ StronglySorted (ranks_before doc) out).
  { subst out. unfold extractCandidateNounsFromText.
    destruct (String.eqb_spec text "") as [-> | Hne].
    - split; [constructor |]. split; [| constructor].
      subst doc. intros w. vm_compute candidates. reflexivity.
    - fold doc. destruct (from_list_shape doc) as (Hnd & Hmem & Hsort).
      set (key := freq_get (freq_of doc)).
      assert (Hperm : JsSort.sort (by_freq_desc (freq_of doc)) (OrderedSet.from_list doc)
                      ≡ₚ OrderedSet.from_list doc) by apply sort_Permutation.
      split; [rewrite Hperm; assumption |].
      split; [intros w; rewrite Hperm; apply Hmem |].
      apply (StronglySorted_weaken
               (JsSort.ranked key (fun a b => first_seen a doc < first_seen b doc))).
      + intros a b. unfold JsSort.ranked, ranks_before, key. rewrite !freq_of_get. tauto.
      + apply (sort_ranked key). assumption. }
  destruct Hshape as (Hnd & Hmem & Hsort).
  split; [intros text' ->; reflexivity |].
  split; [assumption |]. split; [assumption |].
  split; [| split; [assumption | split; vm_compute; reflexivity]].
  intros w Hw. apply Hmem, candidates_filtered in Hw as (Hstop & _ & Hger).
  split; [assumption |].
  intros Hing. unfold not_gerund in Hger. rewrite Hing in Hger. exact Hger.
Qed.

End NounsFacts.

(** ** Building the noun pool *)

Module PoolFacts.
Import OrderedSet Config Pool.

Lemma fetch_batch_spec n w :
  length (fst (fetch_batch n w)) = n
  /\ attempts (snd (fetch_batch n w)) = attempts w + n
  /\ outcome (snd (fetch_batch n w)) = outcome w.
Proof.
  revert w. induction n as [| n IH]; intros w; simpl.
  - repeat split; lia.
  - specialize (IH {| outcome := outcome w; attempts := S (attempts w) |}).
    destruct (fetch_batch n _) as [rs w2]. simpl in *.
    destruct IH as (Hl & Ha & Ho). repeat split; [lia | lia | assumption].
Qed.

Lemma set_add_size (pool : list string) w :
  (size pool <= size (set_add pool w) <= size pool + 1)%Z.
Proof.
  unfold set_add, size. destruct (has pool w); [lia |].
  rewrite length_app. simpl. lia.
Qed.

Lemma add_words_size t pool ws :
  (size pool < t -> size (add_words t pool ws) <= t)%Z.
Proof.
  revert pool. induction ws as [| w ws IH]; intros pool Hlt; simpl; [lia |].
  pose proof (set_add_size pool w) as Hs.
  destruct (t <=? size (set_add pool w))%Z eqn:Hc.
  - lia.
  - apply IH. apply Z.leb_gt in Hc. exact Hc.
Qed.

Lemma absorb_size t pool rs :
  (size pool < t -> size (absorb t pool rs) <= t)%Z.
Proof.
  revert pool. induction rs as [| r rs IH]; intros pool Hlt; simpl; [lia |].
  destruct (usable_extract r) as [text |]; [| apply IH, Hlt].
  pose proof (add_words_size t pool (Nouns.extractCandidateNounsFromText text) Hlt) as Hs.
  destruct (t <=? size (add_words t pool _))%Z eqn:Hc; [exact Hs |].
  apply IH. apply Z.leb_gt in Hc. exact Hc.
Qed.

Lemma absorb_skips_failures t pool rs :
  absorb t pool rs = absorb t pool (List.filter contributes rs).
Proof.
  revert pool. induction rs as [| r rs IH]; intros pool; simpl; [reflexivity |].
  unfold contributes at 1. destruct (usable_extract r) as [text |] eqn:Hu; simpl.
  - rewrite Hu. destruct (t <=? size _)%Z; [reflexivity | apply IH].
  - apply IH.
Qed.

Lemma absorb_all_failed t pool rs :
  Forall (fun r => r = None) rs -> absorb t pool rs = pool.
Proof.
  induction 1 as [| r rs -> _ IH]; simpl; [reflexivity | exact IH].
Qed.

Lemma fetch_batch_all_failed n w :
  (forall k, outcome w k = None) -> Forall (fun r => r = None) (fst (fetch_batch n w)).
Proof.
  revert w. induction n as [| n IH]; intros w Hw; simpl; [constructor |].
  specialize (IH {| outcome := outcome w; attempts := S (attempts w) |} Hw).
  destruct (fetch_batch n _) as [rs w2]. simpl in *.
  constructor; [apply Hw | exact IH].
Qed.

(** The loop head: entered with the pool at the target, the loop issues no
    request and returns at once. *)
Lemma rounds_at_target t pool made w :
  (t <= size pool)%Z -> rounds t pool made w = (pool, made, w).
Proof.
  intros Hge. funelim (rounds t pool made w); [| reflexivity].
  pose proof (proj1 (andb_true_iff _ _) Hgo) as [Hlt _]. apply Z.ltb_lt in Hlt. lia.
Qed.

Lemma rounds_spec t pool made w :
  made <= MAX_REQUESTS ->
  made <= (rounds t pool made w).1.2 <= MAX_REQUESTS
  /\ attempts (rounds t pool made w).2 = attempts w + ((rounds t pool made w).1.2 - made)
  /\ ((size (rounds t pool made w).1.1 < t)%Z -> (rounds t pool made w).1.2 = MAX_REQUESTS)
  /\ (size (rounds t pool made w).1.1 <= Z.max (size pool) t)%Z.
Proof.
  funelim (rounds t pool made w); intros Hle.
  - clear Heqcall.
    pose proof (proj1 (andb_true_iff _ _) Hgo) as [Hsz Hlt].
    apply Z.ltb_lt in Hsz. apply Nat.ltb_lt in Hlt.
    assert (Hb : 0 < batch_of requestsMade /\ requestsMade + batch_of requestsMade <= MAX_REQUESTS).
    { unfold batch_of, BATCH_SIZE, MAX_REQUESTS in *. lia. }
    destruct (H (proj2 Hb)) as (Hm & Ha & Hshort & Hsize).
    destruct (fetch_batch_spec (batch_of requestsMade) w) as (_ & Hatt & _).
    pose proof (absorb_size targetSize pool (fetch_batch (batch_of requestsMade) w).1 Hsz).
    repeat split; (lia || exact Hshort).
  - simpl. clear Heqcall.
    match goal with e : _ = false |- _ =>
      pose proof (proj1 (andb_false_iff _ _) e) as [Hc | Hc] end.
    + apply Z.ltb_ge in Hc. repeat split; lia.
    + apply Nat.ltb_ge in Hc. repeat split; lia.
Qed.

Lemma rounds_all_failed t pool made w :
  (forall k, outcome w k = None) -> (size pool < t)%Z -> made <= MAX_REQUESTS ->
  (rounds t pool made w).1 = (pool, MAX_REQUESTS).
Proof.
  funelim (rounds t pool made w); intros Hw Hsz Hle.
  - clear Heqcall.
    pose proof (proj1 (andb_true_iff _ _) Hgo) as [_ Hlt]. apply Nat.ltb_lt in Hlt.
    destruct (fetch_batch_spec (batch_of requestsMade) w) as (_ & _ & Hout).
    rewrite (absorb_all_failed _ _ _ (fetch_batch_all_failed _ _ Hw)) in H |- *.
    apply H; [intros k; rewrite Hout; apply Hw | assumption |].
    unfold batch_of, BATCH_SIZE, MAX_REQUESTS in *. lia.
  - simpl. clear Heqcall.
    match goal with e : _ = false |- _ =>
      pose proof (proj1 (andb_false_iff _ _) e) as [Hc | Hc] end.
    + apply Z.ltb_ge in Hc. lia.
    + apply Nat.ltb_ge in Hc. f_equal. lia.
Qed.

(** C2. For every target size and every behaviour of the network,
    [buildWikipediaNounPool] returns, having issued exactly [requestsMade]
    fetch attempts, at most [MAX_REQUESTS]; it stops short of the target
    only with the budget used up, and never holds more than the target.
    A loop head reached with the pool at the target returns without a
    fetch, whatever is left of the budget (on [flaky_world] with target 2
    the build ends after one round of 5 requests).  A fetch that failed, or
    brought no extract, contributes nothing and the build goes on: the
    rounds give the same pool as without those results, and with every
    fetch failing the build still returns, with the empty pool, after
    [MAX_REQUESTS] attempts. *)
Theorem build_pool_budget_and_target (targetSize : Z) (w : world) :
  let pool := (buildWikipediaNounPool targetSize w).1.1 in
  let requestsMade := (buildWikipediaNounPool targetSize w).1.2 in
  let w' := (buildWikipediaNounPool targetSize w).2 in
  attempts w' = attempts w + requestsMade
  /\ requestsMade <= MAX_REQUESTS
  /\ ((size pool < targetSize)%Z -> requestsMade = MAX_REQUESTS)
  /\ (size pool <= Z.max 0 targetSize)%Z
  /\ (forall pool0 made0 w0, (targetSize <= size pool0)%Z ->
        rounds targetSize pool0 made0 w0 = (pool0, made0, w0))
  /\ (buildWikipediaNounPool 2 flaky_world).1 = (["cats"; "dogs"], 5)
  /\ (forall pool0 results,
        absorb targetSize pool0 results
        = absorb targetSize pool0 (List.filter contributes results))
  /\ ((forall k, outcome w k = None) -> (0 < targetSize)%Z ->
        pool = [] /\ requestsMade = MAX_REQUESTS).
Proof.
  intros pool requestsMade w'. subst pool requestsMade w'.
  unfold buildWikipediaNounPool.
  destruct (rounds_spec targetSize [] 0 w (Nat.le_0_l _)) as (Hm & Ha & Hshort & Hsize).
  split; [lia |]. split; [lia |]. split; [exact Hshort |]. split; [exact Hsize |].
  split; [intros; apply rounds_at_target; assumption |].
  split; [vm_compute; reflexivity |].
  split; [intros; apply absorb_skips_failures |].
  intros Hw Hpos.
  rewrite (rounds_all_failed targetSize [] 0 w Hw Hpos (Nat.le_0_l _)). simpl. auto.
Qed.

End PoolFacts.

(** ** The page *)

Module PageFacts.
Import Config Page.

Lemma input_at_num_nat st i b : input_at_num st i (Z.of_nat b) = input_at st i b.
Proof.
  unfold input_at_num. rewrite Nat2Z.id.
  destruct (0 <=? Z.of_nat b)%Z eqn:H; [reflexivity |].
  apply Z.leb_gt in H. lia.
Qed.

Lemma value_of_set_value e v st :
  value_of (set_value e v st) e = JsString.strip_newlines v.
Proof. unfold set_value, hold. cbn [value_of with_value_of]. apply fn_lookup_insert. Qed.

Lemma valueAt_set_value i b e v st :
  input_at st i b = Some e -> valueAt (set_value e v st) i b = JsString.strip_newlines v.
Proof.
  intros Hb. unfold valueAt.
  change (input_at (set_value e v st) i b) with (input_at st i b).
  rewrite Hb. apply value_of_set_value.
Qed.

Lemma strip_single_line (v : string) :
  JsString.single_line v = true -> JsString.strip_newlines v = v.
Proof.
  induction v as [|c v IH]; [reflexivity|]. cbn [JsString.single_line JsString.strip_newlines].
  intros H. apply andb_true_iff in H as [Hc Hv]. apply negb_true_iff in Hc.
  now rewrite Hc, (IH Hv).
Qed.

Lemma strip_is_single_line (v : string) :
  JsString.single_line (JsString.strip_newlines v) = true.
Proof.
  induction v as [|c v IH]; [reflexivity|]. cbn [JsString.strip_newlines].
  destruct (JsString.is_line_break c) eqn:E; [exact IH|].
  cbn [JsString.single_line]. now rewrite E, IH.
Qed.

(** C3. For a field [(lineIdx, blankIdx)] bound to the input [e] and a
    notification whose key reads as [blankIdx]: while [e] is the active
    element, [applyRemote] leaves the whole page as it is, whatever the
    payload; when [e] is not the active element, the input is assigned
    [data.value || ''].  A payload carrying the string [v] as its [value]
    then leaves the input, and the field, with [v] less its line breaks
    (which a text input does not keep): with [v] itself whenever [v] is a
    single line, and never with a line break. *)
Theorem applyRemote_respects_focus (st : page) (lineIdx blankIdx : nat) (e : elt)
    (snap : snapshot) :
  Js.parseInt (key snap) = Some (Z.of_nat blankIdx) ->
  input_at st lineIdx blankIdx = Some e ->
  (activeElement st = Some e -> applyRemote lineIdx snap st = st)
  /\ (activeElement st ≠ Some e -> Js.truthy (val snap) = true ->
      applyRemote lineIdx snap st
      = set_value e (Js.to_string (Js.or_else (Js.get (val snap) "value") (Js.Str ""))) st)
  /\ (activeElement st ≠ Some e ->
      forall v, Js.get (val snap) "value" = Js.Str v ->
        applyRemote lineIdx snap st = set_value e v st
        /\ value_of (applyRemote lineIdx snap st) e = JsString.strip_newlines v
        /\ valueAt (applyRemote lineIdx snap st) lineIdx blankIdx = JsString.strip_newlines v
        /\ JsString.single_line (valueAt (applyRemote lineIdx snap st) lineIdx blankIdx) = true
        /\ (JsString.single_line v = true ->
            valueAt (applyRemote lineIdx snap st) lineIdx blankIdx = v)).
Proof.
  intros Hkey Hin. unfold applyRemote. rewrite Hkey, input_at_num_nat, Hin.
  split; [| split].
  - intros Hfocus. destruct (negb (Js.truthy (val snap))); [reflexivity |].
    rewrite bool_decide_eq_false_2; [reflexivity | auto].
  - intros Hfocus ->. simpl. rewrite bool_decide_eq_true_2 by assumption. reflexivity.
  - intros Hfocus v Hval.
    assert (Hobj : Js.truthy (val snap) = true).
    { destruct (val snap); simpl in Hval; try discriminate. reflexivity. }
    rewrite Hobj. simpl. rewrite bool_decide_eq_true_2 by assumption.
    assert (Hs : Js.to_string (Js.or_else (Js.get (val snap) "value") (Js.Str "")) = v).
    { rewrite Hval. unfold Js.or_else. simpl.
      destruct (String.eqb_spec v ""); simpl; congruence. }
    rewrite Hs. split; [reflexivity |].
    split; [apply value_of_set_value |].
    rewrite (valueAt_set_value _ _ _ v st Hin).
    split; [reflexivity |]. split; [apply strip_is_single_line | apply strip_single_line].
Qed.

Lemma applyRemote_respects_focus_witness :
  let focused := {| inputs := inputs demo_page; value_of := value_of demo_page;
                    activeElement := Some 7; db := db demo_page;
                    clientId := clientId demo_page; timers := timers demo_page;
                    now := now demo_page; status := status demo_page;
                    console := console demo_page |} in
  let snap := {| key := "1"; val := Js.Obj [("value", Js.Str "harbour")] |} in
  valueAt (applyRemote 2 snap focused) 2 1 = "lantern"
  /\ valueAt (applyRemote 2 snap demo_page) 2 1 = "harbour".
Proof.
  intros focused snap. split.
  - rewrite (proj1 (applyRemote_respects_focus focused 2 1 7 snap eq_refl eq_refl) eq_refl).
    vm_compute. reflexivity.
  - apply (proj2 (proj2 (applyRemote_respects_focus demo_page 2 1 7 snap eq_refl eq_refl))
             ltac:(discriminate) "harbour" eq_refl).
    reflexivity.
Defined.

(** A payload of three lines, on [demo_page]: the line breaks (a line feed,
    then a carriage return and a line feed) are not kept. *)
Example applyRemote_strips_line_breaks :
  valueAt (applyRemote 2 {| key := "1"; val := Js.Obj [("value", Js.Str three_lines)] |}
             demo_page) 2 1
  = "redfoxhen".
Proof. vm_compute. reflexivity. Qed.

(** C10. [applyRemote] returns the page unchanged when the key of the
    notification is not a number, when its payload is missing (or otherwise
    falsy), and when no input is bound at the indices named.  For a bound
    input that is not the active element, a payload whose [value] is missing
    or falsy sets the input to the empty string. *)
Theorem applyRemote_ignores_malformed (st : page) (lineIdx : nat) (snap : snapshot) :
  (Js.parseInt (key snap) = None -> applyRemote lineIdx snap st = st)
  /\ (Js.truthy (val snap) = false -> applyRemote lineIdx snap st = st)
  /\ (forall b, Js.parseInt (key snap) = Some b -> input_at_num st lineIdx b = None ->
        applyRemote lineIdx snap st = st)
  /\ (forall b e, Js.parseInt (key snap) = Some b -> input_at_num st lineIdx b = Some e ->
        Js.truthy (val snap) = true -> activeElement st ≠ Some e ->
        Js.truthy (Js.get (val snap) "value") = false ->
        applyRemote lineIdx snap st = set_value e "" st
        /\ value_of (applyRemote lineIdx snap st) e = "").
Proof.
  unfold applyRemote. repeat split.
  - intros ->. reflexivity.
  - intros ->. destruct (Js.parseInt (key snap)); reflexivity.
  - intros b -> ->. destruct (negb (Js.truthy (val snap))); reflexivity.
  - revert H1 H2 H3. rewrite H, H0. intros -> Hf Hv. simpl.
    rewrite bool_decide_eq_true_2 by assumption.
    unfold Js.or_else. rewrite Hv. reflexivity.
  - revert H1 H2 H3. rewrite H, H0. intros -> Hf Hv. simpl.
    rewrite bool_decide_eq_true_2 by assumption.
    unfold Js.or_else. rewrite Hv. simpl. apply fn_lookup_insert.
Qed.

(** Notifications that are dropped, on [demo_page], where field (2, 1) holds
    [lantern]: a key that is no number, a null payload, a blank index with
    no input (3 and -1); then a payload without [value] and one whose
    [value] is 0, which empty the field. *)
Example applyRemote_malformed_cases :
  let field snap := valueAt (applyRemote 2 snap demo_page) 2 1 in
  field {| key := "x1"; val := Js.Obj [("value", Js.Str "a")] |} = "lantern"
  /\ field {| key := "1"; val := Js.Null |} = "lantern"
  /\ field {| key := "3"; val := Js.Obj [("value", Js.Str "a")] |} = "lantern"
  /\ field {| key := "-1"; val := Js.Obj [("value", Js.Str "a")] |} = "lantern"
  /\ field {| key := "1"; val := Js.Obj [("editedBy", Js.Str "b")] |} = ""
  /\ field {| key := "1"; val := Js.Obj [("value", Js.Num 0)] |} = "".
Proof. repeat apply conj; vm_compute; reflexivity. Qed.

(** *** Reset *)

Lemma clear_blank_inputs i st b : inputs (clear_blank i st b) = inputs st.
Proof. unfold clear_blank. destruct (input_at st i b); reflexivity. Qed.

Lemma clear_blank_keeps_empty i st b e :
  value_of st e = "" -> value_of (clear_blank i st b) e = "".
Proof.
  intros He. unfold clear_blank. destruct (input_at st i b) as [e' |]; [| exact He].
  simpl. destruct (decide (e' = e)) as [-> | Hne].
  - apply fn_lookup_insert.
  - rewrite fn_lookup_insert_ne by assumption. exact He.
Qed.

Lemma clear_blank_clears i st b e :
  input_at st i b = Some e -> value_of (clear_blank i st b) e = "".
Proof. intros Hb. unfold clear_blank. rewrite Hb. apply value_of_set_value. Qed.

Lemma clear_blank_frame i st b :
  activeElement (clear_blank i st b) = activeElement st
  /\ db (clear_blank i st b) = db st
  /\ clientId (clear_blank i st b) = clientId st
  /\ timers (clear_blank i st b) = timers st
  /\ now (clear_blank i st b) = now st
  /\ status (clear_blank i st b) = status st
  /\ console (clear_blank i st b) = console st.
Proof. unfold clear_blank. destruct (input_at st i b); repeat split. Qed.

Lemma input_at_inputs st st' i b :
  inputs st' = inputs st -> input_at st' i b = input_at st i b.
Proof. unfold input_at. intros ->. reflexivity. Qed.

(** A loop of [clear_blank] over any list of blanks of a line. *)
Lemma clear_blanks_spec i bs st :
  inputs (foldl (clear_blank i) st bs) = inputs st
  /\ db (foldl (clear_blank i) st bs) = db st
  /\ (forall e, value_of st e = "" -> value_of (foldl (clear_blank i) st bs) e = "")
  /\ (forall b e, b ∈ bs -> input_at st i b = Some e ->
        value_of (foldl (clear_blank i) st bs) e = "").
Proof.
  revert st. induction bs as [| b0 bs IH]; intros st; simpl.
  - repeat split; [auto |]. intros b e Hb. inversion Hb.
  - destruct (IH (clear_blank i st b0)) as (Hin & Hdb & Hkeep & Hclr).
    split; [rewrite Hin; apply clear_blank_inputs |].
    split; [rewrite Hdb; apply clear_blank_frame |].
    split; [intros e He; apply Hkeep, clear_blank_keeps_empty, He |].
    intros b e Hb Hbound. apply elem_of_cons in Hb as [-> | Hb].
    + apply Hkeep, clear_blank_clears, Hbound.
    + apply (Hclr b e Hb). rewrite (input_at_inputs st); [exact Hbound |].
      apply clear_blank_inputs.
Qed.

Lemma clear_lines_spec ls st :
  inputs (foldl clear_line st ls) = inputs st
  /\ db (foldl clear_line st ls) = db st
  /\ (forall e, value_of st e = "" -> value_of (foldl clear_line st ls) e = "")
  /\ (forall i b e, i ∈ ls -> b < BLANKS_PER_LINE -> input_at st i b = Some e ->
        value_of (foldl clear_line st ls) e = "").
Proof.
  revert st. induction ls as [| i0 ls IH]; intros st; simpl.
  - repeat split; [auto |]. intros i b e Hi. inversion Hi.
  - destruct (IH (clear_line st i0)) as (Hin & Hdb & Hkeep & Hclr).
    destruct (clear_blanks_spec i0 (seq 0 BLANKS_PER_LINE) st) as (Hin0 & Hdb0 & Hkeep0 & Hclr0).
    fold (clear_line st i0) in Hin0, Hdb0, Hkeep0, Hclr0.
    split; [congruence |]. split; [congruence |].
    split; [intros e He; apply Hkeep, Hkeep0, He |].
    intros i b e Hi Hb Hbound. apply elem_of_cons in Hi as [-> | Hi].
    + apply Hkeep, (Hclr0 b e); [| exact Hbound].
      apply elem_of_seq. lia.
    + apply (Hclr i b e Hi Hb). rewrite (input_at_inputs st); [exact Hbound | exact Hin0].
Qed.

Lemma clear_blanks_console i bs st : console (foldl (clear_blank i) st bs) = console st.
Proof.
  revert st. induction bs as [| b bs IH]; intros st; simpl; [reflexivity |].
  rewrite IH. apply clear_blank_frame.
Qed.

Lemma clear_lines_console ls st : console (foldl clear_line st ls) = console st.
Proof.
  revert st. induction ls as [| i ls IH]; intros st; simpl; [reflexivity |].
  rewrite IH. apply clear_blanks_console.
Qed.

Lemma clear_all_console st : console (clear_all st) = console st.
Proof. apply clear_lines_console. Qed.

Lemma clear_all_spec st :
  inputs (clear_all st) = inputs st
  /\ db (clear_all st) = db st
  /\ (forall i b, i < LINES -> b < BLANKS_PER_LINE -> valueAt (clear_all st) i b = "").
Proof.
  unfold clear_all.
  destruct (clear_lines_spec (seq 0 LINES) st) as (Hin & Hdb & _ & Hclr).
  split; [exact Hin |]. split; [exact Hdb |].
  intros i b Hi Hb. unfold valueAt. rewrite (input_at_inputs st) by exact Hin.
  destruct (input_at st i b) as [e |] eqn:Hbound; [| reflexivity].
  apply (Hclr i b e); [apply elem_of_seq; lia | exact Hb | exact Hbound].
Qed.

Lemma onReset_unfold remote st :
  onReset true remote st = reset_remote remote (clear_all st).
Proof. reflexivity. Qed.

Lemma reset_remote_local remote c :
  inputs (reset_remote remote c) = inputs c
  /\ value_of (reset_remote remote c) = value_of c.
Proof. unfold reset_remote. destruct (db c); [destruct remote |]; simpl; auto. Qed.

Lemma reset_remote_rejected (c : page) calls err :
  db c = Some calls ->
  status (reset_remote (Rejected err) c) = "Reset failed. Check console."
  /\ console (reset_remote (Rejected err) c) = console c ++ [err].
Proof. intros Hdb. unfold reset_remote. rewrite Hdb. simpl. auto. Qed.

(** C4. Once confirmed, [onReset] leaves every field of the 30 by 3 grid
    with the empty string as its local value, whether there is no database,
    the batched update is fulfilled, or it is rejected; on rejection the
    failure is reported in the status line and the console, and the cleared
    values stay. *)
Theorem onReset_clears_every_field (st : page) (remote : settled) (i b : nat) :
  i < LINES -> b < BLANKS_PER_LINE ->
  valueAt (onReset true remote st) i b = ""
  /\ (forall e, input_at st i b = Some e -> value_of (onReset true remote st) e = "")
  /\ (forall calls err, db st = Some calls -> remote = Rejected err ->
        status (onReset true remote st) = "Reset failed. Check console."
        /\ console (onReset true remote st) = console st ++ [err]).
Proof.
  intros Hi Hb. rewrite onReset_unfold.
  destruct (clear_all_spec st) as (Hin' & Hdb & Hclr). specialize (Hclr i b Hi Hb).
  pose proof (clear_all_console st) as Hcon.
  revert Hin' Hdb Hclr Hcon. generalize (clear_all st). intros c Hin' Hdb Hclr Hcon.
  destruct (reset_remote_local remote c) as (Hin & Hval).
  assert (Hv : valueAt (reset_remote remote c) i b = "").
  { unfold valueAt in *. rewrite (input_at_inputs c) by exact Hin.
    rewrite Hval. exact Hclr. }
  split; [exact Hv |]. split.
  - intros e Hbound. unfold valueAt in Hv.
    rewrite (input_at_inputs st), Hbound in Hv by congruence. exact Hv.
  - intros calls err Hcalls ->. rewrite <- Hcon.
    apply (reset_remote_rejected c calls). congruence.
Qed.

Lemma onReset_clears_every_field_witness :
  valueAt demo_page 2 1 = "lantern"
  /\ valueAt (onReset true (Rejected "PERMISSION_DENIED") demo_page) 2 1 = ""
  /\ valueAt (onReset true Fulfilled demo_page) 29 2 = "".
Proof.
  assert (H2 : 2 < LINES) by (unfold LINES; lia).
  assert (H29 : 29 < LINES) by (unfold LINES; lia).
  assert (B1 : 1 < BLANKS_PER_LINE) by (unfold BLANKS_PER_LINE; lia).
  assert (B2 : 2 < BLANKS_PER_LINE) by (unfold BLANKS_PER_LINE; lia).
  split; [vm_compute; reflexivity |]. split.
  - exact (proj1 (onReset_clears_every_field demo_page (Rejected "PERMISSION_DENIED") 2 1 H2 B1)).
  - exact (proj1 (onReset_clears_every_field demo_page Fulfilled 29 2 H29 B2)).
Defined.

(** *** Paths *)

Lemma string_of_uint_digits u : Js.all_digits (NilEmpty.string_of_uint u) = true.
Proof. induction u; simpl; auto. Qed.

Lemma string_of_uint_inj u u' :
  NilEmpty.string_of_uint u = NilEmpty.string_of_uint u' -> u = u'.
Proof.
  intros H. apply (f_equal NilEmpty.uint_of_string) in H.
  rewrite !NilEmpty.usu in H. congruence.
Qed.

Lemma string_of_nat_inj n n' : Js.string_of_nat n = Js.string_of_nat n' -> n = n'.
Proof. intros H. apply DecimalNat.Unsigned.to_uint_inj, string_of_uint_inj, H. Qed.

Lemma append_slash_inj s s' t t' :
  Js.all_digits s = true -> Js.all_digits s' = true ->
  s +:+ "/" +:+ t = s' +:+ "/" +:+ t' -> s = s' /\ t = t'.
Proof.
  revert s'. induction s as [| c s IH]; intros [| c' s'] Hs Hs' Heq; cbn in *.
  - injection Heq as Heq. auto.
  - injection Heq as Hc _. subst c'. discriminate.
  - injection Heq as Hc _. subst c. discriminate.
  - injection Heq as Hc Heq. subst c'.
    apply andb_true_iff in Hs as [_ Hs]. apply andb_true_iff in Hs' as [_ Hs'].
    destruct (IH s' Hs Hs' Heq) as [-> ->]. auto.
Qed.

Lemma pathFor_inj l b l' b' : pathFor l b = pathFor l' b' -> l = l' /\ b = b'.
Proof.
  unfold pathFor. intros H. simpl in H. injection H as H.
  apply append_slash_inj in H as [Hl Hb]; try apply string_of_uint_digits.
  split; apply string_of_nat_inj; assumption.
Qed.

(** *** Timers *)

Lemma filter_Permutation {A} (f : A -> bool) l l' :
  l ≡ₚ l' -> List.filter f l ≡ₚ List.filter f l'.
Proof.
  induction 1 as [| x l l' _ IH | x y l | l l' l'' _ IH1 _ IH2]; simpl.
  - reflexivity.
  - destruct (f x); [constructor |]; exact IH.
  - destruct (f x), (f y); try reflexivity. apply Permutation_swap.
  - etransitivity; eassumption.
Qed.

Lemma filter_comm {A} (f g : A -> bool) l :
  List.filter f (List.filter g l) = List.filter g (List.filter f l).
Proof.
  induction l as [| x l IH]; simpl; [reflexivity |].
  destruct (f x) eqn:Hf, (g x) eqn:Hg; simpl; rewrite ?Hf, ?Hg, IH; reflexivity.
Qed.

Lemma filter_negb_none {A} (f : A -> bool) l :
  List.filter f (List.filter (fun x => negb (f x)) l) = [].
Proof.
  induction l as [| x l IH]; simpl; [reflexivity |].
  destruct (f x) eqn:Hf; simpl; rewrite ?Hf; exact IH.
Qed.

Lemma firing_owned l b deadline ts :
  List.filter (owned_by l b) (firing deadline ts)
  ≡ₚ List.filter (is_due deadline) (List.filter (owned_by l b) ts).
Proof.
  unfold firing. rewrite (filter_Permutation _ _ _ (sort_Permutation _ _)).
  rewrite filter_comm. reflexivity.
Qed.

Lemma sets_at_app path c1 c2 : sets_at path (c1 ++ c2) = sets_at path c1 ++ sets_at path c2.
Proof. apply omap_app. Qed.

Lemma sets_at_one path q r :
  sets_at path [RefSet q r] = if String.eqb q path then [r] else [].
Proof. unfold sets_at. cbn [omap list_omap]. destruct (String.eqb q path); reflexivity. Qed.

Lemma fire_frame st t :
  inputs (fire st t) = inputs st
  /\ value_of (fire st t) = value_of st
  /\ clientId (fire st t) = clientId st
  /\ timers (fire st t) = timers st.
Proof. unfold fire, writeBlank. simpl. destruct (db st); simpl; auto. Qed.

Lemma fire_sent l b st t calls :
  db st = Some calls ->
  is_Some (db (fire st t))
  /\ sent_to l b (fire st t) = sent_to l b st ++ written_by l b st t.
Proof.
  intros Hdb. unfold sent_to, fire, writeBlank, written_by. cbn [db with_now].
  rewrite Hdb. cbn [db with_db default value_of clientId now with_now].
  split; [eauto |]. unfold id. rewrite sets_at_app, sets_at_one. f_equal.
  unfold owned_by.
  destruct (String.eqb_spec (pathFor (t_line t) (t_blank t)) (pathFor l b)) as [Heq | Hne].
  - apply pathFor_inj in Heq as [-> ->]. rewrite !Nat.eqb_refl. reflexivity.
  - destruct (Nat.eqb_spec (t_line t) l) as [Hl |]; [| reflexivity].
    destruct (Nat.eqb_spec (t_blank t) b) as [Hb |]; [| reflexivity].
    rewrite Hl, Hb in Hne. contradiction.
Qed.

Lemma fire_all_spec l b ts st :
  is_Some (db st) ->
  is_Some (db (foldl fire st ts))
  /\ inputs (foldl fire st ts) = inputs st
  /\ value_of (foldl fire st ts) = value_of st
  /\ clientId (foldl fire st ts) = clientId st
  /\ timers (foldl fire st ts) = timers st
  /\ exists news,
       sent_to l b (foldl fire st ts) = sent_to l b st ++ news
       /\ Forall2 (fun t r => value r = value_of st (t_target t) /\ editedBy r = clientId st)
            (List.filter (owned_by l b) ts) news.
Proof.
  revert st. induction ts as [| t ts IH]; intros st [calls Hdb]; simpl.
  - split; [eauto |]. repeat split. exists []. rewrite app_nil_r. split; constructor.
  - destruct (fire_sent l b st t calls Hdb) as (Hsome & Hsent).
    destruct (fire_frame st t) as (Hi & Hv & Hc & Ht).
    destruct (IH (fire st t) Hsome) as (Hsome' & Hi' & Hv' & Hc' & Ht' & news & Hnews & Hall).
    split; [exact Hsome' |]. split; [congruence |]. split; [congruence |].
    split; [congruence |]. split; [congruence |].
    exists (written_by l b st t ++ news). split.
    + rewrite Hnews, Hsent, app_assoc. reflexivity.
    + rewrite Hv, Hc in Hall. unfold written_by.
      destruct (owned_by l b t); simpl; [constructor; auto | exact Hall].
Qed.

Lemma advance_spec l b d st :
  is_Some (db st) ->
  is_Some (db (advance d st))
  /\ inputs (advance d st) = inputs st
  /\ value_of (advance d st) = value_of st
  /\ clientId (advance d st) = clientId st
  /\ now (advance d st) = (now st + Z.of_nat d)%Z
  /\ timers (advance d st)
     = List.filter (fun t => negb (is_due (now st + Z.of_nat d) t)) (timers st)
  /\ exists news,
       sent_to l b (advance d st) = sent_to l b st ++ news
       /\ Forall2 (fun t r => value r = value_of st (t_target t) /\ editedBy r = clientId st)
            (List.filter (owned_by l b) (firing (now st + Z.of_nat d) (timers st))) news.
Proof.
  intros Hdb. unfold advance.
  set (st0 := with_timers _ st).
  destruct (fire_all_spec l b (firing (now st + Z.of_nat d) (timers st)) st0 Hdb)
    as (Hsome & Hi & Hv & Hc & Ht & news & Hnews & Hall).
  split; [exact Hsome |]. split; [exact Hi |]. split; [exact Hv |].
  split; [exact Hc |]. split; [reflexivity |]. split; [exact Ht |].
  exists news. split; [exact Hnews | exact Hall].
Qed.

(** *** A burst of edits *)

Lemma on_input_spec l b v e st :
  input_at st l b = Some e ->
  inputs (on_input l b v st) = inputs st
  /\ db (on_input l b v st) = db st
  /\ clientId (on_input l b v st) = clientId st
  /\ now (on_input l b v st) = now st
  /\ value_of (on_input l b v st) e = v
  /\ armed l b e (on_input l b v st).
Proof.
  intros Hin. unfold on_input, armed. rewrite Hin. cbn.
  repeat split; [apply fn_lookup_insert |].
  rewrite List.filter_app, filter_negb_none. cbn.
  unfold owned_by. cbn. rewrite !Nat.eqb_refl. reflexivity.
Qed.

Lemma quiet_gap l b e gap st :
  is_Some (db st) -> armed l b e st -> gap < 250 ->
  is_Some (db (advance gap st))
  /\ inputs (advance gap st) = inputs st
  /\ clientId (advance gap st) = clientId st
  /\ sent_to l b (advance gap st) = sent_to l b st.
Proof.
  intros Hdb Harmed Hgap.
  destruct (advance_spec l b gap st Hdb) as (Hsome & Hi & _ & Hc & _ & _ & news & Hnews & Hall).
  split; [exact Hsome |]. split; [exact Hi |]. split; [exact Hc |].
  assert (Hnone : List.filter (owned_by l b) (firing (now st + Z.of_nat gap) (timers st)) = []).
  { apply Permutation_nil_r. rewrite firing_owned, Harmed. cbn.
    unfold is_due. cbn. destruct (Z.leb_spec (now st + 250) (now st + Z.of_nat gap)); [lia |].
    reflexivity. }
  rewrite Hnone in Hall. inversion Hall; subst. rewrite Hnews, app_nil_r. reflexivity.
Qed.

Lemma last_cons_default {A} (l : list A) x d : List.last (x :: l) d = List.last l x.
Proof.
  revert x d. induction l as [| y l IH]; intros x d; [reflexivity |].
  change (List.last (x :: y :: l) d) with (List.last (y :: l) d).
  rewrite (IH y d), (IH y x). reflexivity.
Qed.

Lemma burst_spec l b e rest : forall st v,
  is_Some (db st) -> input_at st l b = Some e -> armed l b e st -> value_of st e = v ->
  Forall (fun gv => gv.1 < 250) rest ->
  is_Some (db (type_all l b rest st))
  /\ armed l b e (type_all l b rest st)
  /\ clientId (type_all l b rest st) = clientId st
  /\ value_of (type_all l b rest st) e = last_value v rest
  /\ sent_to l b (type_all l b rest st) = sent_to l b st.
Proof.
  induction rest as [| [gap v'] rest IH]; intros st v Hdb Hin Harmed Hv Hgaps; simpl.
  - repeat split; assumption.
  - apply Forall_cons in Hgaps as [Hgap Hgaps]. simpl in Hgap.
    destruct (quiet_gap l b e gap st Hdb Harmed Hgap) as (Hsome & Hi & Hc & Hsent).
    assert (Hin' : input_at (advance gap st) l b = Some e).
    { rewrite (input_at_inputs st); assumption. }
    destruct (on_input_spec l b v' e (advance gap st) Hin')
      as (Hi2 & Hdb2 & Hc2 & _ & Hv2 & Harmed2).
    destruct (IH (on_input l b v' (advance gap st)) v') as (H1 & H2 & H3 & H4 & H5).
    + rewrite Hdb2. exact Hsome.
    + rewrite (input_at_inputs (advance gap st)); assumption.
    + exact Harmed2.
    + exact Hv2.
    + exact Hgaps.
    + split; [exact H1 |]. split; [exact H2 |]. split; [congruence |].
      split.
      * rewrite H4. unfold last_value. cbn [map snd]. rewrite last_cons_default. reflexivity.
      * rewrite H5. unfold sent_to. rewrite Hdb2. exact Hsent.
Qed.

Lemma quiescence_fires l b e quiet st :
  is_Some (db st) -> armed l b e st -> 250 <= quiet ->
  List.filter (owned_by l b) (timers (advance quiet st)) = []
  /\ exists r, sent_to l b (advance quiet st) = sent_to l b st ++ [r]
       /\ value r = value_of st e /\ editedBy r = clientId st.
Proof.
  intros Hdb Harmed Hq.
  destruct (advance_spec l b quiet st Hdb) as (_ & _ & _ & _ & _ & Ht & news & Hnews & Hall).
  assert (Hdue : is_due (now st + Z.of_nat quiet)
                   {| t_line := l; t_blank := b; t_target := e; t_due := now st + 250 |} = true).
  { unfold is_due. cbn. apply Z.leb_le. lia. }
  split.
  - rewrite Ht, filter_comm, Harmed. cbn. rewrite Hdue. reflexivity.
  - assert (Hone : List.filter (owned_by l b) (firing (now st + Z.of_nat quiet) (timers st))
                   = [{| t_line := l; t_blank := b; t_target := e; t_due := now st + 250 |}]).
    { apply Permutation_singleton_r. rewrite firing_owned, Harmed. cbn. rewrite Hdue. reflexivity. }
    rewrite Hone in Hall. inversion Hall as [| t r ts rs [Hval Hed] Hrest]; subst.
    inversion Hrest; subst. exists r. rewrite Hnews. auto.
Qed.

(** C5. With a database bound, take a field whose input is [e] and a burst
    of edits of it: a first edit leaving the text [v1], then edits each less
    than 250 ms after the one before.  While the burst lasts no write of the
    field is sent; once 250 ms or more have passed without another edit,
    exactly one write has been added to those sent for the field before the
    burst, it carries the last text of the burst, and no timer of the field
    is left to send another. *)
Theorem debounce_coalesces_burst (st : page) (calls : list db_call) (l b : nat) (e : elt)
    (v1 : string) (rest : list (nat * string)) (quiet : nat) :
  db st = Some calls ->
  input_at st l b = Some e ->
  Forall (fun gv => gv.1 < 250) rest ->
  250 <= quiet ->
  let burst := type_all l b rest (on_input l b v1 st) in
  sent_to l b burst = sent_to l b st
  /\ List.filter (owned_by l b) (timers (advance quiet burst)) = []
  /\ exists r, sent_to l b (advance quiet burst) = sent_to l b st ++ [r]
       /\ value r = last_value v1 rest
       /\ editedBy r = clientId st.
Proof.
  intros Hdb Hin Hgaps Hq burst.
  destruct (on_input_spec l b v1 e st Hin) as (Hi & Hdb1 & Hc & _ & Hv & Harmed).
  destruct (burst_spec l b e rest (on_input l b v1 st) v1) as (Hsome & Harmed' & Hc' & Hv' & Hsent);
    try assumption.
  { rewrite Hdb1, Hdb. eauto. }
  { rewrite (input_at_inputs st); assumption. }
  fold burst in Hsome, Harmed', Hc', Hv', Hsent.
  assert (Hbase : sent_to l b (on_input l b v1 st) = sent_to l b st).
  { unfold sent_to. rewrite Hdb1. reflexivity. }
  split; [congruence |].
  destruct (quiescence_fires l b e quiet burst Hsome Harmed' Hq) as (Hnone & r & Hr & Hval & Hed).
  split; [exact Hnone |].
  exists r. split; [rewrite Hr; congruence |]. split; congruence.
Qed.

Lemma debounce_coalesces_burst_witness :
  let burst := type_all 2 1 [(100, "ab"); (249, "abc")] (on_input 2 1 "a" demo_page) in
  sent_to 2 1 burst = []
  /\ value <$> sent_to 2 1 (advance 250 burst) = ["abc"].
Proof.
  intros burst.
  assert (Hgaps : Forall (fun gv : nat * string => gv.1 < 250) [(100, "ab"); (249, "abc")]).
  { repeat constructor; simpl; lia. }
  destruct (debounce_coalesces_burst demo_page _ 2 1 7 "a" [(100, "ab"); (249, "abc")] 250
              eq_refl eq_refl Hgaps (Nat.le_refl 250)) as (Hquiet & _ & r & Hr & Hval & _).
  fold burst in Hquiet, Hr. split.
  - rewrite Hquiet. vm_compute. reflexivity.
  - rewrite Hr, fmap_app. cbn [fmap list_fmap]. rewrite Hval. vm_compute. reflexivity.
Defined.

(** *** Without a database *)

Lemma fire_all_local ts st :
  db st = None ->
  db (foldl fire st ts) = None
  /\ inputs (foldl fire st ts) = inputs st
  /\ value_of (foldl fire st ts) = value_of st
  /\ status (foldl fire st ts) = status st
  /\ console (foldl fire st ts) = console st.
Proof.
  revert st. induction ts as [| t ts IH]; intros st Hdb; simpl; [repeat apply conj; auto |].
  assert (Hf : fire st t = with_now (Z.max (now st) (t_due t)) st).
  { unfold fire, writeBlank. cbn. rewrite Hdb. reflexivity. }
  destruct (IH (fire st t)) as (H1 & H2 & H3 & H4 & H5); [rewrite Hf; exact Hdb |].
  rewrite Hf in *. repeat apply conj; assumption.
Qed.

Lemma advance_local d st :
  db st = None ->
  db (advance d st) = None
  /\ inputs (advance d st) = inputs st
  /\ value_of (advance d st) = value_of st
  /\ status (advance d st) = status st
  /\ console (advance d st) = console st.
Proof.
  intros Hdb. unfold advance.
  set (st0 := with_timers _ st). set (due := firing _ _).
  destruct (fire_all_local due st0 Hdb) as (H1 & H2 & H3 & H4 & H5).
  repeat apply conj; auto.
Qed.

(** C8. On a page with no database binding, [writeBlank] and
    [attachLineListener] return the page exactly as it was: no call is made,
    nothing is logged, no local value, status text or timer changes.  The
    page keeps working locally: an edit still shows in its field after the
    debounce timer has fired (the write it asks for being a no-op: nothing
    is sent), and a confirmed reset still empties the fields and reports
    success. *)
Theorem local_only_without_database (st : page) :
  db st = None ->
  (forall l b v, writeBlank l b v st = st)
  /\ (forall l, attachLineListener l st = st)
  /\ (forall l b v e d, input_at st l b = Some e ->
        let st' := advance d (on_input l b v st) in
        valueAt st' l b = v /\ db st' = None /\ sent_to l b st' = []
        /\ status st' = status st /\ console st' = console st)
  /\ (forall remote i b, i < LINES -> b < BLANKS_PER_LINE ->
        valueAt (onReset true remote st) i b = ""
        /\ db (onReset true remote st) = None
        /\ status (onReset true remote st) = "All blanks reset.").
Proof.
  intros Hdb.
  split; [intros l b v; unfold writeBlank; rewrite Hdb; reflexivity |].
  split; [intros l; unfold attachLineListener; rewrite Hdb; reflexivity |].
  split.
  - intros l b v e d Hin st'. subst st'.
    destruct (on_input_spec l b v e st Hin) as (Hi & Hdb1 & _ & _ & Hv & _).
    destruct (advance_local d (on_input l b v st)) as (H1 & H2 & H3 & H4 & H5);
      [congruence |].
    split; [| split; [exact H1 | split; [unfold sent_to; rewrite H1; reflexivity | split]]].
    + unfold valueAt. rewrite (input_at_inputs st) by congruence. rewrite Hin, H3. exact Hv.
    + rewrite H4. unfold on_input. rewrite Hin. reflexivity.
    + rewrite H5. unfold on_input. rewrite Hin. reflexivity.
  - intros remote i b Hi Hb. rewrite onReset_unfold.
    destruct (clear_all_spec st) as (Hin' & Hdbc & Hclr). specialize (Hclr i b Hi Hb).
    rewrite Hdb in Hdbc.
    revert Hin' Hdbc Hclr. generalize (clear_all st). intros c Hin' Hdbc Hclr.
    unfold reset_remote. rewrite Hdbc. unfold valueAt in *. cbn. repeat apply conj; auto.
Qed.

Lemma local_only_without_database_witness :
  writeBlank 2 1 "lantern" offline_page = offline_page
  /\ attachLineListener 2 offline_page = offline_page
  /\ valueAt (advance 250 (on_input 2 1 "lantern" offline_page)) 2 1 = "lantern".
Proof.
  pose proof (local_only_without_database offline_page eq_refl) as (Hw & Ha & Hlocal & _).
  split; [apply Hw |]. split; [apply Ha |].
  apply (Hlocal 2 1 "lantern" 7 250). vm_compute. reflexivity.
Defined.

End PageFacts.

(** ** Compose *)

Module ComposeFacts.
Import JsString Config Page Compose.

(** *** Normal form of the output *)

Lemma collapse_open_no_lead s : starts_with_space (collapse_go true s) = false.
Proof.
  induction s as [| c r IH]; simpl; [reflexivity |].
  destruct (is_space c) eqn:Hc; [exact IH | simpl; exact Hc].
Qed.

Lemma space_is_space : is_space space = true.
Proof. reflexivity. Qed.

Lemma collapse_single_spaced b s : single_spaced (collapse_go b s) = true.
Proof.
  revert b. induction s as [| c r IH]; intros b; simpl; [reflexivity |].
  destruct (is_space c) eqn:Hc.
  - destruct b; [apply IH |]. simpl.
    rewrite collapse_open_no_lead, IH. reflexivity.
  - simpl. rewrite Hc, IH. reflexivity.
Qed.

Lemma trimStart_single_spaced s : single_spaced s = true -> single_spaced (Js.trimStart s) = true.
Proof.
  induction s as [| c r IH]; [auto |].
  intros H. cbn [Js.trimStart]. destruct (is_space c); [| exact H].
  simpl in H. apply andb_true_iff in H as [_ H]. apply IH, H.
Qed.

Lemma trimStart_no_lead s : starts_with_space (Js.trimStart s) = false.
Proof.
  induction s as [| c r IH]; simpl; [reflexivity |].
  destruct (is_space c) eqn:Hc; [exact IH | simpl; exact Hc].
Qed.

Lemma trimEnd_cons c r :
  trimEnd (String c r)
  = if String.eqb (trimEnd r) "" && is_space c then EmptyString else String c (trimEnd r).
Proof. simpl. destruct (trimEnd r); simpl; [destruct (is_space c) |]; reflexivity. Qed.

Lemma trimEnd_lead s : starts_with_space s = false -> starts_with_space (trimEnd s) = false.
Proof.
  destruct s as [| c r]; [reflexivity |]. simpl starts_with_space at 1. intros Hc.
  rewrite trimEnd_cons, Hc, andb_false_r. simpl. exact Hc.
Qed.

Lemma trimEnd_lead_le s : starts_with_space (trimEnd s) = true -> starts_with_space s = true.
Proof.
  destruct s as [| c r]; [discriminate |]. rewrite trimEnd_cons.
  destruct (String.eqb (trimEnd r) "" && is_space c); [discriminate | auto].
Qed.

Lemma trimEnd_single_spaced s : single_spaced s = true -> single_spaced (trimEnd s) = true.
Proof.
  induction s as [| c r IH]; [auto |].
  intros H. simpl in H. apply andb_true_iff in H as [Hc Hr].
  rewrite trimEnd_cons. destruct (String.eqb (trimEnd r) "" && is_space c); [reflexivity |].
  simpl. rewrite (IH Hr), andb_true_r.
  destruct (is_space c); [| reflexivity].
  apply andb_true_iff in Hc as [Hsp Hn]. rewrite Hsp. simpl.
  destruct (starts_with_space (trimEnd r)) eqn:Hl; [| reflexivity].
  apply trimEnd_lead_le in Hl. rewrite Hl in Hn. discriminate.
Qed.

Lemma trimEnd_no_trail s : ends_with_space (trimEnd s) = false.
Proof.
  induction s as [| c r IH]; [reflexivity |].
  rewrite trimEnd_cons. destruct (String.eqb_spec (trimEnd r) "") as [He | Hne]; simpl.
  - destruct (is_space c) eqn:Hc; [reflexivity |]. rewrite He. simpl. exact Hc.
  - destruct (trimEnd r) as [| c' r']; [contradiction | exact IH].
Qed.

Lemma trim_collapse_normalized s : normalized (trim (collapse s)) = true.
Proof.
  unfold normalized, trim, collapse.
  rewrite trimEnd_single_spaced
    by (apply trimStart_single_spaced, collapse_single_spaced).
  rewrite trimEnd_lead by apply trimStart_no_lead.
  rewrite trimEnd_no_trail. reflexivity.
Qed.

(** *** The words of the output *)

Lemma split_go_eta b s :
  split_go b s = first_piece (split_go b s) :: List.tl (split_go b s).
Proof.
  revert b. induction s as [| c r IH]; intros b; simpl; [reflexivity |].
  destruct (is_space c).
  - destruct b; [apply IH | reflexivity].
  - rewrite (IH false). reflexivity.
Qed.

Lemma words_by_pieces b s :
  List.filter nonempty (split_go b s)
  = List.filter nonempty [first_piece (split_go b s)] ++ later_words (split_go b s).
Proof.
  rewrite (split_go_eta b s) at 1. unfold later_words. simpl.
  destruct (nonempty (first_piece (split_go b s))); reflexivity.
Qed.

Lemma words_any_flag s : List.filter nonempty (split_go true s) = words_of s.
Proof.
  unfold words_of, split_ws. destruct s as [| c r]; simpl; [reflexivity |].
  destruct (is_space c); reflexivity.
Qed.

Lemma words_cons_space c r : is_space c = true -> words_of (String c r) = words_of r.
Proof.
  intros Hc. unfold words_of, split_ws. simpl. rewrite Hc. simpl. apply words_any_flag.
Qed.

Lemma pieces_cons_char c r :
  is_space c = false ->
  first_piece (split_go false (String c r)) = String c (first_piece (split_go false r))
  /\ later_words (split_go false (String c r)) = later_words (split_go false r).
Proof.
  intros Hc. simpl. rewrite Hc. rewrite (split_go_eta false r). auto.
Qed.

Lemma pieces_cons_space c r :
  is_space c = true ->
  first_piece (split_go false (String c r)) = EmptyString
  /\ later_words (split_go false (String c r)) = words_of r.
Proof.
  intros Hc. simpl. rewrite Hc. split; [reflexivity |].
  unfold later_words. simpl. apply words_any_flag.
Qed.

Lemma words_of_pieces s :
  words_of s
  = List.filter nonempty [first_piece (split_go false s)] ++ later_words (split_go false s).
Proof. apply words_by_pieces. Qed.

Lemma split_collapse b s : split_go b (collapse_go b s) = split_go b s.
Proof.
  revert b. induction s as [| c r IH]; intros b; simpl; [reflexivity |].
  destruct (is_space c) eqn:Hc.
  - destruct b; [apply IH |]. simpl. rewrite IH. reflexivity.
  - simpl. rewrite Hc, IH. reflexivity.
Qed.

Lemma words_trimStart s : words_of (Js.trimStart s) = words_of s.
Proof.
  induction s as [| c r IH]; simpl; [reflexivity |].
  destruct (is_space c) eqn:Hc; [| reflexivity].
  rewrite IH, words_cons_space by exact Hc. reflexivity.
Qed.

Lemma pieces_trimEnd s :
  first_piece (split_go false (trimEnd s)) = first_piece (split_go false s)
  /\ later_words (split_go false (trimEnd s)) = later_words (split_go false s).
Proof.
  induction s as [| c r [IHf IHl]]; [auto |].
  assert (Hw : words_of (trimEnd r) = words_of r).
  { rewrite !words_of_pieces, IHf, IHl. reflexivity. }
  rewrite trimEnd_cons. destruct (is_space c) eqn:Hc.
  - destruct (pieces_cons_space c r Hc) as [Hf Hl]. rewrite Hf, Hl.
    destruct (String.eqb_spec (trimEnd r) "") as [He | Hne]; cbn [andb].
    + rewrite He in Hw. rewrite <- Hw. auto.
    + destruct (pieces_cons_space c (trimEnd r) Hc) as [Hf' Hl']. rewrite Hf', Hl', Hw. auto.
  - rewrite andb_false_r.
    destruct (pieces_cons_char c r Hc) as [Hf Hl].
    destruct (pieces_cons_char c (trimEnd r) Hc) as [Hf' Hl'].
    rewrite Hf, Hl, Hf', Hl', IHf, IHl. auto.
Qed.

Lemma words_trim_collapse s : words_of (trim (collapse s)) = words_of s.
Proof.
  unfold trim, collapse.
  rewrite words_of_pieces. destruct (pieces_trimEnd (Js.trimStart (collapse_go false s))) as [-> ->].
  rewrite <- words_of_pieces, words_trimStart.
  unfold words_of, split_ws. rewrite split_collapse. reflexivity.
Qed.

Lemma pieces_append_space s1 c s2 :
  is_space c = true ->
  first_piece (split_go false (s1 +:+ String c s2)) = first_piece (split_go false s1)
  /\ later_words (split_go false (s1 +:+ String c s2))
     = later_words (split_go false s1) ++ words_of s2.
Proof.
  intros Hc. induction s1 as [| a r [IHf IHl]].
  - change ("" +:+ String c s2) with (String c s2).
    destruct (pieces_cons_space c s2 Hc) as [-> ->]. auto.
  - change (String a r +:+ String c s2) with (String a (r +:+ String c s2)).
    assert (Hw : words_of (r +:+ String c s2) = words_of r ++ words_of s2).
    { rewrite (words_of_pieces (r +:+ String c s2)), (words_of_pieces r), IHf, IHl, app_assoc.
      reflexivity. }
    destruct (is_space a) eqn:Ha.
    + destruct (pieces_cons_space a r Ha) as [-> ->].
      destruct (pieces_cons_space a (r +:+ String c s2) Ha) as [-> ->]. auto.
    + destruct (pieces_cons_char a r Ha) as [-> ->].
      destruct (pieces_cons_char a (r +:+ String c s2) Ha) as [-> ->].
      rewrite IHf, IHl. auto.
Qed.

Lemma words_append_space s1 s2 :
  words_of (s1 +:+ " " +:+ s2) = words_of s1 ++ words_of s2.
Proof.
  destruct (pieces_append_space s1 space s2 space_is_space) as [Hf Hl].
  change (s1 +:+ " " +:+ s2) with (s1 +:+ String space s2).
  rewrite (words_of_pieces (s1 +:+ String space s2)), (words_of_pieces s1), Hf, Hl, app_assoc.
  reflexivity.
Qed.

Lemma words_join ps : words_of (join " " ps) = flat_map words_of ps.
Proof.
  induction ps as [| p ps IH]; [reflexivity |].
  destruct ps as [| q ps].
  - simpl. rewrite app_nil_r. reflexivity.
  - change (join " " (p :: q :: ps)) with (p +:+ " " +:+ join " " (q :: ps)).
    rewrite words_append_space, IH. reflexivity.
Qed.

Lemma segments_lookup i : i < LINES -> segments !! i = Some (segments_of i).
Proof.
  intros Hi. unfold segments. rewrite list_lookup_fmap, lookup_seq_lt by exact Hi.
  reflexivity.
Qed.

(** C9. For a line [i] of the page, [composeLine] returns a string that
    depends on the page only through the three field values of the line
    (so a second call with no edit in between returns the same string).
    The string is the join of the static segments and field values taken
    in turn, white-space normalized: every white-space code unit in it is a
    single space between two words, none leads or trails, and its words are
    the words of the segments and values, in order. *)
Theorem composeLine_pure_normalized (st : page) (i : nat) :
  i < LINES ->
  exists out,
    composeLine st i = Some out
    /\ (forall st', (forall b, valueAt st' i b = valueAt st i b) -> composeLine st' i = Some out)
    /\ out = trim (collapse (join " " (parts (segments_of i) st i)))
    /\ normalized out = true
    /\ words_of out = flat_map words_of (parts (segments_of i) st i).
Proof.
  intros Hi. exists (trim (collapse (join " " (parts (segments_of i) st i)))).
  unfold composeLine. rewrite (segments_lookup i Hi).
  split; [reflexivity |]. split.
  - intros st' Hsame. unfold parts. rewrite !Hsame. reflexivity.
  - split; [reflexivity |]. split; [apply trim_collapse_normalized |].
    rewrite words_trim_collapse. apply words_join.
Qed.

Lemma composeLine_pure_normalized_witness :
  composeLine spaced_page 2 = Some "Line 3: Before then red fox and then finally".
Proof.
  assert (H2 : 2 < LINES) by (unfold LINES; lia).
  destruct (composeLine_pure_normalized spaced_page 2 H2) as (out & Hout & _ & Heq & _).
  rewrite Hout, Heq. vm_compute. reflexivity.
Defined.

End ComposeFacts.

(** ** The name of the downloaded file *)

Module StampFacts.
Import JsString Stamp.

Lemma all_chars_app f s t : all_chars f (s +:+ t) = all_chars f s && all_chars f t.
Proof.
  induction s as [| c r IH]; [reflexivity |].
  change (String c r +:+ t) with (String c (r +:+ t)). simpl. rewrite IH, andb_assoc. reflexivity.
Qed.

Lemma digits_safe s : Js.all_digits s = true -> all_chars safe_char s = true.
Proof.
  induction s as [| c r IH]; simpl; [auto |].
  intros H. apply andb_true_iff in H as [Hc Hr].
  rewrite (IH Hr), andb_true_r. unfold safe_char. rewrite Hc. reflexivity.
Qed.

Lemma string_of_Z_safe n : all_chars safe_char (Js.string_of_Z n) = true.
Proof.
  unfold Js.string_of_Z, NilEmpty.string_of_int.
  destruct (Z.to_int n) as [u | u].
  - apply digits_safe, PageFacts.string_of_uint_digits.
  - simpl. apply digits_safe, PageFacts.string_of_uint_digits.
Qed.

Lemma repeat_zero_safe n : all_chars safe_char (repeat_char "0" n) = true.
Proof. induction n as [| n IH]; simpl; [reflexivity | exact IH]. Qed.

Lemma pad_safe n : all_chars safe_char (pad n) = true.
Proof.
  unfold pad, padStart. rewrite all_chars_app, repeat_zero_safe, string_of_Z_safe. reflexivity.
Qed.

Lemma download_name_safe d : all_chars safe_char (download_name d) = true.
Proof.
  unfold download_name, stamp.
  rewrite !all_chars_app, !pad_safe, string_of_Z_safe. reflexivity.
Qed.

Lemma all_chars_In f s c :
  all_chars f s = true -> In c (list_ascii_of_string s) -> f c = true.
Proof.
  induction s as [| a r IH]; simpl; [intros _ [] |].
  intros H [-> | Hin]; apply andb_true_iff in H as [Ha Hr]; auto.
Qed.

(** Checking a predicate on every integer of a range by running it. *)
Lemma checked_from (P : Z -> bool) (n : nat) : forall lo,
  check_from P lo n = true ->
  forall z, (lo <= z < lo + Z.of_nat n)%Z -> P z = true.
Proof.
  induction n as [| n IH]; intros lo Hall z Hz; [lia |].
  simpl in Hall. apply andb_true_iff in Hall as [Hlo Hrest].
  destruct (Z.eq_dec z lo) as [-> | Hne]; [exact Hlo |].
  apply (IH (lo + 1)%Z Hrest). lia.
Qed.

Lemma pad_two_digits n : (0 <= n <= 99)%Z -> pad n = fixed 2 n.
Proof.
  intros Hn.
  apply String.eqb_eq,
    (checked_from (fun z => String.eqb (pad z) (fixed 2 z)) (Z.to_nat 100) 0);
    [vm_compute; reflexivity | lia].
Qed.

Lemma year_four_digits y : (1000 <= y <= 9999)%Z -> Js.string_of_Z y = fixed 4 y.
Proof.
  intros Hy.
  apply String.eqb_eq,
    (checked_from (fun z => String.eqb (Js.string_of_Z z) (fixed 4 z)) (Z.to_nat 9000) 1000);
    [vm_compute; reflexivity | lia].
Qed.

(** C6. The download name is a function of the date fields read when it is
    made (equal dates give equal names).  For every date it is built from
    lower-case letters, digits, hyphens and full stops only, so it holds no
    colon.  For a calendar date with a four-digit year it is
    [fill-in-blanks-YYYYMMDD-HHMMSS.txt]: the year in four digits, then
    month (counted from 1), day, hour, minute and second in two digits
    each.  7 March 2024, 09:05:03 gives
    [fill-in-blanks-20240307-090503.txt]. *)
Theorem download_name_safe_and_shaped (d : date) :
  (forall d', d' = d -> download_name d' = download_name d)
  /\ all_chars safe_char (download_name d) = true
  /\ ~ In ":"%char (list_ascii_of_string (download_name d))
  /\ (calendar d -> (1000 <= getFullYear d <= 9999)%Z ->
      download_name d
      = "fill-in-blanks-" +:+ fixed 4 (getFullYear d) +:+ fixed 2 (getMonth d + 1)
        +:+ fixed 2 (getDate d) +:+ "-" +:+ fixed 2 (getHours d)
        +:+ fixed 2 (getMinutes d) +:+ fixed 2 (getSeconds d) +:+ ".txt")
  /\ download_name sample_date = "fill-in-blanks-20240307-090503.txt".
Proof.
  split; [intros d' ->; reflexivity |].
  split; [apply download_name_safe |].
  split.
  - intros Hin. apply (all_chars_In _ _ _ (download_name_safe d)) in Hin. discriminate.
  - split; [| vm_compute; reflexivity].
    intros (Hmo & Hda & Hh & Hmi & Hs) Hy. unfold download_name, stamp.
    rewrite (year_four_digits _ Hy).
    rewrite !pad_two_digits by lia. reflexivity.
Qed.

End StampFacts.

(** ** Dealing the suggestions *)

Module DrawFacts.
Import OrderedSet Draw.

Section SetOps.
Context {A : Type} `{EqDecision A}.

Lemma add_all_elem (xs s : list A) a : a ∈ add_all s xs <-> a ∈ s \/ a ∈ xs.
Proof.
  revert s. induction xs as [| x xs IH]; intros s; unfold add_all; simpl.
  - split; [auto | intros [H | H]; [exact H | inversion H]].
  - fold (add_all (set_add s x) xs). rewrite IH, set_add_elem, elem_of_cons. tauto.
Qed.

Lemma add_all_length (xs s : list A) : length (add_all s xs) <= length s + length xs.
Proof.
  revert s. induction xs as [| x xs IH]; intros s; unfold add_all; simpl; [lia |].
  fold (add_all (set_add s x) xs). specialize (IH (set_add s x)).
  assert (length (set_add s x) <= S (length s)).
  { unfold set_add. destruct (has s x); [lia |]. rewrite length_app. simpl. lia. }
  lia.
Qed.

Lemma add_all_NoDup (xs s : list A) : NoDup s -> NoDup (add_all s xs).
Proof.
  revert s. induction xs as [| x xs IH]; intros s Hs; unfold add_all; simpl; [exact Hs |].
  apply IH, set_add_NoDup, Hs.
Qed.

Lemma delete_all (ds l : list A) :
  foldl set_delete l ds = filter (fun y => y ∉ ds) l.
Proof.
  revert l. induction ds as [| d ds IH]; intros l; simpl.
  - induction l as [| y l IHl]; [reflexivity |].
    rewrite filter_cons_True by (intros H; inversion H). rewrite <- IHl. reflexivity.
  - rewrite IH. unfold set_delete. rewrite list_filter_filter.
    apply list_filter_iff. intros y. rewrite not_elem_of_cons. tauto.
Qed.

Lemma delete_prefix (xs ys : list A) :
  NoDup (xs ++ ys) -> filter (fun y => y ∉ xs) (xs ++ ys) = ys.
Proof.
  intros Hnd. apply NoDup_app in Hnd as (_ & Hdis & _).
  rewrite filter_app.
  assert (H1 : forall l : list A, (forall a, a ∈ l -> a ∈ xs) -> filter (fun y => y ∉ xs) l = []).
  { induction l as [| a l IHl]; intros Hl; [reflexivity |].
    rewrite filter_cons_False by (intros Hn; apply Hn, Hl; left).
    apply IHl. intros b Hb. apply Hl. right. exact Hb. }
  assert (H2 : forall l : list A, (forall a, a ∈ l -> a ∉ xs) -> filter (fun y => y ∉ xs) l = l).
  { induction l as [| a l IHl]; intros Hl; [reflexivity |].
    rewrite filter_cons_True by (apply Hl; left).
    f_equal. apply IHl. intros b Hb. apply Hl. right. exact Hb. }
  rewrite H1 by auto. rewrite H2; [reflexivity |].
  intros a Ha Hx. exact (Hdis a Hx Ha).
Qed.
End SetOps.

(** *** The trim of the exclusion set *)

Lemma trim_exclude_releases (excl : list word) :
  NoDup excl -> EXCLUDE_CAP < length excl ->
  trim_exclude excl = drop EXCLUDE_RELEASE excl.
Proof.
  intros Hnd Hbig. unfold trim_exclude.
  destruct (Nat.ltb_spec EXCLUDE_CAP (length excl)) as [_ | Hle]; [| lia].
  rewrite delete_all.
  transitivity (filter (fun y => y ∉ take EXCLUDE_RELEASE excl)
                  (take EXCLUDE_RELEASE excl ++ drop EXCLUDE_RELEASE excl)).
  - rewrite take_drop. reflexivity.
  - apply delete_prefix. rewrite take_drop. exact Hnd.
Qed.

Lemma trim_exclude_small (excl : list word) :
  length excl <= EXCLUDE_CAP -> trim_exclude excl = excl.
Proof.
  intros Hle. unfold trim_exclude.
  destruct (Nat.ltb_spec EXCLUDE_CAP (length excl)); [lia | reflexivity].
Qed.

Lemma trim_exclude_NoDup (excl : list word) : NoDup excl -> NoDup (trim_exclude excl).
Proof.
  intros Hnd. unfold trim_exclude. destruct (EXCLUDE_CAP <? length excl)%nat; [| exact Hnd].
  rewrite delete_all. apply NoDup_filter, Hnd.
Qed.

(** *** One draw *)

Lemma pick_loop_spec arr count rnd left : forall chosen seen k,
  exists extra,
    (pick_loop left arr count chosen seen rnd k).1 = chosen ++ extra
    /\ (forall w, w ∈ extra -> w ∉ seen)
    /\ length (pick_loop left arr count chosen seen rnd k).1 <= Nat.max (length chosen) count.
Proof.
  induction left as [| left IH]; intros chosen seen k; simpl.
  - exists []. rewrite app_nil_r. split; [reflexivity |].
    split; [intros w H; inversion H | simpl; lia].
  - destruct (Nat.ltb_spec (length chosen) count) as [Hlt | Hge].
    + set (w := arr !! floor_scaled (rnd k) (length arr)).
      unfold has. case_bool_decide as Hseen.
      * apply IH.
      * destruct (IH (chosen ++ [w]) (set_add seen w) (S k)) as (extra & Heq & Hnew & Hlen).
        exists (w :: extra). split; [etransitivity; [exact Heq | rewrite <- app_assoc; reflexivity] |]. split.
        -- intros w' Hw'. apply elem_of_cons in Hw' as [-> | Hw']; [exact Hseen |].
           intros Hin. apply (Hnew w' Hw'), set_add_elem. left. exact Hin.
        -- etransitivity; [exact Hlen |]. rewrite length_app. simpl. lia.
    + exists []. rewrite app_nil_r. split; [reflexivity |].
      split; [intros w H; inversion H | simpl; lia].
Qed.

Lemma pickUniqueRandom_spec arr count exclude rnd k :
  (forall w, w ∈ (pickUniqueRandom arr count exclude rnd k).1 -> w ∉ exclude)
  /\ length (pickUniqueRandom arr count exclude rnd k).1 <= count.
Proof.
  unfold pickUniqueRandom.
  destruct (pick_loop_spec arr count rnd (count * 30) [] (from_list exclude) k)
    as (extra & Heq & Hnew & Hlen).
  rewrite Heq in *. simpl in *. split; [| lia].
  intros w Hw Hex. apply (Hnew w Hw). apply from_list_shape. exact Hex.
Qed.

(** *** The lines in turn *)

Lemma draw_lines_length lines pool perLine rnd : forall excl k,
  length (draw_lines lines pool perLine excl rnd k).1.1 = lines.
Proof.
  induction lines as [| n IH]; intros excl k; simpl; [reflexivity |].
  rewrite IH. reflexivity.
Qed.

Lemma draw_lines_NoDup lines pool perLine rnd : forall excl k,
  NoDup excl -> NoDup (draw_lines lines pool perLine excl rnd k).1.2.
Proof.
  induction lines as [| n IH]; intros excl k Hnd; simpl; [exact Hnd |].
  apply IH, trim_exclude_NoDup, add_all_NoDup, Hnd.
Qed.

(** Lines drawn while [perLine] times the number of lines dealt so far stays
    within the cap: each avoids the exclusion set it started from and every
    earlier line.  [dealt] bounds the lines behind the exclusion set. *)
Lemma draw_lines_disjoint lines pool perLine rnd : forall excl k dealt,
  length excl <= perLine * dealt ->
  forall j rj,
    (draw_lines lines pool perLine excl rnd k).1.1 !! j = Some rj ->
    perLine * (dealt + j) <= EXCLUDE_CAP ->
    (forall w, w ∈ rj -> w ∉ excl)
    /\ (forall i ri, i < j ->
          (draw_lines lines pool perLine excl rnd k).1.1 !! i = Some ri ->
          disjoint_lists ri rj).
Proof.
  induction lines as [| n IH]; intros excl k dealt Hlen j rj Hj Hcap; simpl in *.
  - rewrite lookup_nil in Hj. discriminate.
  - set (picked := pickUniqueRandom pool perLine excl rnd k) in *.
    destruct (pickUniqueRandom_spec pool perLine excl rnd k) as (Hfresh & Hcount).
    fold picked in Hfresh, Hcount.
    destruct j as [| j]; simpl in Hj.
    + injection Hj as <-. split; [exact Hfresh |]. intros i ri Hi. lia.
    + pose proof (add_all_length picked.1 excl) as Hadd.
      assert (Hsmall : length (add_all excl picked.1) <= perLine * S dealt) by lia.
      rewrite trim_exclude_small in Hj |- * by lia.
      destruct (IH (add_all excl picked.1) picked.2 (S dealt) Hsmall j rj Hj) as (Hex & Hrows);
        [replace (S dealt + j) with (dealt + S j) by lia; exact Hcap |].
      split.
      * intros w Hw Hin. apply (Hex w Hw), add_all_elem. left. exact Hin.
      * intros i ri Hi Hri. destruct i as [| i]; simpl in Hri.
        -- injection Hri as <-. intros w Hw Hrj.
           apply (Hex w Hrj), add_all_elem. right. exact Hw.
        -- apply (Hrows i ri); [lia | exact Hri].
Qed.

Lemma below_ceil_div cap perLine j : j < ceil_div cap perLine -> perLine * j <= cap.
Proof.
  unfold ceil_div. intros Hj. destruct perLine as [| p]; [simpl in Hj; lia |].
  pose proof (Nat.Div0.mul_div_le (cap + S p - 1) (S p)) as Hq. nia.
Qed.

Lemma ceil_div_lines : ceil_div EXCLUDE_CAP Config.NOUNS_PER_LINE = Config.LINES.
Proof. reflexivity. Qed.

(** C7. Among the lists dealt to the first [ceil(300 / perLine)] lines, any
    two are disjoint, for every pool, every number of lines and every
    behaviour of [Math.random]; for [renderAllNounRows] (30 lines of 10)
    these are all the lines.  The exclusion set never holds a word twice;
    when it holds more than 300 words the trim leaves it without its first
    120 words in insertion order, and with all the others in their order;
    at 300 words or fewer the trim changes nothing. *)
Theorem draws_disjoint_until_cap (poolArray : list string) (linesCount perLine : nat)
    (rnd : randomness) :
  (forall i j ri rj, i < j -> j < ceil_div EXCLUDE_CAP perLine ->
     drawPerLineSuggestions poolArray linesCount perLine rnd !! i = Some ri ->
     drawPerLineSuggestions poolArray linesCount perLine rnd !! j = Some rj ->
     disjoint_lists ri rj)
  /\ (forall i j ri rj, i < j ->
       renderAllNounRows poolArray rnd !! i = Some ri ->
       renderAllNounRows poolArray rnd !! j = Some rj ->
       disjoint_lists ri rj)
  /\ NoDup (draw_lines linesCount poolArray perLine [] rnd 0).1.2
  /\ (forall excl : list word, NoDup excl -> EXCLUDE_CAP < length excl ->
       trim_exclude excl = drop EXCLUDE_RELEASE excl
       /\ length (trim_exclude excl) = length excl - EXCLUDE_RELEASE
       /\ (forall w, w ∈ take EXCLUDE_RELEASE excl -> w ∉ trim_exclude excl))
  /\ (forall excl : list word, length excl <= EXCLUDE_CAP -> trim_exclude excl = excl).
Proof.
  assert (Hgen : forall lines per i j ri rj, i < j -> j < ceil_div EXCLUDE_CAP per ->
            drawPerLineSuggestions poolArray lines per rnd !! i = Some ri ->
            drawPerLineSuggestions poolArray lines per rnd !! j = Some rj ->
            disjoint_lists ri rj).
  { intros lines per i j ri rj Hij Hj Hri Hrj. unfold drawPerLineSuggestions in *.
    apply below_ceil_div in Hj.
    destruct (draw_lines_disjoint lines poolArray per rnd [] 0 0 ltac:(simpl; lia) j rj Hrj Hj)
      as (_ & Hrows).
    apply (Hrows i ri Hij Hri). }
  split; [apply Hgen |]. split.
  - unfold renderAllNounRows. pose proof ceil_div_lines as Hc. revert Hc.
    generalize Config.NOUNS_PER_LINE, Config.LINES. intros per lines Hc i j ri rj Hij Hri Hrj.
    apply (Hgen lines per i j ri rj Hij); [| exact Hri | exact Hrj].
    rewrite Hc. apply lookup_lt_Some in Hrj.
    unfold drawPerLineSuggestions in Hrj. rewrite draw_lines_length in Hrj. exact Hrj.
  - split; [apply draw_lines_NoDup; constructor |]. split; [| apply trim_exclude_small].
    intros excl Hnd Hbig. rewrite (trim_exclude_releases excl Hnd Hbig).
    split; [reflexivity |]. split; [apply length_drop |].
    intros w Hw Hin.
    rewrite <- (take_drop EXCLUDE_RELEASE excl) in Hnd.
    apply NoDup_app in Hnd as (_ & Hdis & _). exact (Hdis w Hw Hin).
Qed.

(** The draw on a pool of seven words, two per line, with a fixed sequence
    of random values. *)
Example draw_seven :
  drawPerLineSuggestions ["a"; "b"; "c"; "d"; "e"; "f"; "g"] 4 2
    (fun k => {| r_num := (k * 7) mod 13; r_more := 12 - (k * 7) mod 13 |})
  = [[Some "a"; Some "d"]; [Some "e"; Some "b"]; [Some "f"; Some "c"]; [Some "g"]].
Proof. vm_compute. reflexivity. Qed.

(** The trim on the exclusion set of the 301 words [0], ..., [300]. *)
Example trim_301 :
  let excl := map (fun n => Some (Js.string_of_nat n)) (seq 0 301) in
  length (trim_exclude excl) = 181 /\ hd None (trim_exclude excl) = Some "120".
Proof. split; vm_compute; reflexivity. Qed.

End DrawFacts.
(** ** Paths, keys and the round trip of an edit *)

Module SyncFacts.
Import JsString Config Page Sync.

Lemma digits_prefix_uint (u : Decimal.uint) (a : nat) :
  Js.digits_prefix true (Z.of_nat a) (NilEmpty.string_of_uint u)
  = Some (Z.of_nat (Nat.of_uint_acc u a)).
Proof.
  revert a; induction u; intros a;
    cbn [NilEmpty.string_of_uint Js.digits_prefix Nat.of_uint_acc];
    [reflexivity | ..];
    match goal with
    | |- context [Js.is_digit ?c] => change (Js.is_digit c) with true
    end; cbn iota; rewrite Nat.tail_mul_spec;
    match goal with
    | |- Js.digits_prefix true ?z _ = Some (Z.of_nat (Nat.of_uint_acc _ ?m)) =>
        replace z with (Z.of_nat m); [apply IHu |]
    end; unfold Js.digit_value;
    match goal with
    | |- context [Z.of_nat (code ?c - 48)] =>
        let v := eval vm_compute in (Z.of_nat (code c - 48)) in
        change (Z.of_nat (code c - 48)) with v
    end; lia.
Qed.

Lemma digits_prefix_first (u : Decimal.uint) :
  u <> Decimal.Nil ->
  Js.parseInt (NilEmpty.string_of_uint u) = Some (Z.of_nat (Nat.of_uint u)).
Proof.
  intros Hu. unfold Nat.of_uint.
  destruct u; [congruence | ..];
    cbn [NilEmpty.string_of_uint Nat.of_uint_acc]; unfold Js.parseInt;
    cbn [Js.trimStart];
    match goal with
    | |- context [is_space ?c] => change (is_space c) with false
    end; cbn iota; cbn [Js.digits_prefix];
    match goal with
    | |- context [Js.is_digit ?c] => change (Js.is_digit c) with true
    end; cbn iota; rewrite Nat.tail_mul_spec;
    match goal with
    | |- Js.digits_prefix true ?z _ = Some (Z.of_nat (Nat.of_uint_acc _ ?m)) =>
        replace z with (Z.of_nat m); [apply digits_prefix_uint |]
    end; unfold Js.digit_value;
    match goal with
    | |- context [Z.of_nat (code ?c - 48)] =>
        let v := eval vm_compute in (Z.of_nat (code c - 48)) in
        change (Z.of_nat (code c - 48)) with v
    end; lia.
Qed.

Lemma to_uint_not_nil (n : nat) : Nat.to_uint n <> Decimal.Nil.
Proof.
  intros E. pose proof (DecimalNat.Unsigned.of_to n) as H.
  rewrite E in H. cbn in H. subst n. discriminate E.
Qed.

Lemma parseInt_string_of_nat (n : nat) :
  Js.parseInt (Js.string_of_nat n) = Some (Z.of_nat n).
Proof.
  unfold Js.string_of_nat.
  rewrite (digits_prefix_first _ (to_uint_not_nil n)).
  now rewrite DecimalNat.Unsigned.of_to.
Qed.

(** X1. [parseInt(String(n), 10)] is [n] for every natural number up to
    [Number.MAX_SAFE_INTEGER] (where a JavaScript number is exact and is
    printed with all its digits): the key under which a blank is stored
    reads back as its index, and two such indices with the same key are the
    same. *)
Theorem parseInt_reads_back_index (n : nat) :
  (Z.of_nat n <= Js.MAX_SAFE_INTEGER)%Z ->
  Js.parseInt (Js.string_of_nat n) = Some (Z.of_nat n)
  /\ (forall m, (Z.of_nat m <= Js.MAX_SAFE_INTEGER)%Z ->
        Js.string_of_nat m = Js.string_of_nat n -> m = n).
Proof.
  intros _. split; [apply parseInt_string_of_nat|].
  intros m _ E. apply (f_equal Js.parseInt) in E.
  rewrite !parseInt_string_of_nat in E. injection E. lia.
Qed.

Lemma parseInt_reads_back_index_witness :
  Js.parseInt (Js.string_of_nat 2) = Some 2%Z.
Proof.
  exact (proj1 (parseInt_reads_back_index 2 ltac:(unfold Js.MAX_SAFE_INTEGER; lia))).
Defined.

(** X2. Two fields are stored under the same database path only if they
    are the same field: [pathFor] maps distinct (line, blank) pairs to
    distinct paths. *)
Theorem pathFor_separates_fields (l b l' b' : nat) :
  pathFor l b = pathFor l' b' <-> l = l' /\ b = b'.
Proof.
  split.
  - apply PageFacts.pathFor_inj.
  - now intros [-> ->].
Qed.

Lemma stored_value (r : blank_record) :
  Js.truthy (stored r) = true /\ Js.get (stored r) "value" = Js.Str (value r).
Proof. split; reflexivity. Qed.

Lemma applyRemote_unfocused (st : page) (l b : nat) (e : elt) (r : blank_record) :
  input_at st l b = Some e -> activeElement st ≠ Some e ->
  applyRemote l (delivered b r) st = set_value e (value r) st.
Proof.
  intros He Hf. unfold applyRemote, delivered. cbn [key val].
  rewrite parseInt_string_of_nat, PageFacts.input_at_num_nat, He.
  cbn [Js.truthy stored negb].
  rewrite bool_decide_eq_true_2 by exact Hf.
  cbn [Js.get stored Js.assoc String.eqb Ascii.eqb Bool.eqb].
  unfold Js.or_else. cbn [Js.truthy].
  destruct (String.eqb (value r) "") eqn:E; cbn [negb Js.to_string].
  - apply String.eqb_eq in E. now rewrite E.
  - reflexivity.
Qed.

(** X3. An edit travels from one client to another: the record that
    [writeBlank] stores for field [(l, b)], delivered to a page's listener of
    line [l] under the last segment of its path as key, is assigned to the
    input of that page's field [(l, b)] when the input is not focused, and
    leaves a focused input as it is.  The field then shows the text less
    its line breaks, that is, the text itself whenever it is a single line
    (as every text read from a text input is). *)
Theorem remote_edit_round_trip (sender receiver : page) (calls : list db_call)
    (l b : nat) (v : string) (e : elt) :
  db sender = Some calls ->
  input_at receiver l b = Some e ->
  exists r,
    db (writeBlank l b v sender) = Some (calls ++ [RefSet (pathFor l b) r])
    /\ value r = v /\ editedBy r = clientId sender /\ updatedAt r = now sender
    /\ (activeElement receiver ≠ Some e ->
          valueAt (applyRemote l (delivered b r) receiver) l b = strip_newlines v
          /\ value_of (applyRemote l (delivered b r) receiver) e = strip_newlines v
          /\ (single_line v = true ->
                valueAt (applyRemote l (delivered b r) receiver) l b = v))
    /\ (activeElement receiver = Some e ->
          applyRemote l (delivered b r) receiver = receiver).
Proof.
  intros Hdb He.
  exists {| value := v; editedBy := clientId sender; updatedAt := now sender |}.
  repeat apply conj; try reflexivity.
  - unfold writeBlank. now rewrite Hdb.
  - intros Hf. rewrite (applyRemote_unfocused _ _ _ _ _ He Hf). cbn [value].
    rewrite (PageFacts.valueAt_set_value _ _ _ v receiver He).
    split; [reflexivity|]. split; [apply PageFacts.value_of_set_value|].
    apply PageFacts.strip_single_line.
  - intros Hf. unfold applyRemote, delivered. cbn [key val].
    rewrite parseInt_string_of_nat, PageFacts.input_at_num_nat, He.
    cbn [Js.truthy stored negb].
    rewrite bool_decide_eq_false_2; [reflexivity | intros H; now apply H].
Qed.

Lemma remote_edit_round_trip_witness :
  exists r,
    db (writeBlank 2 1 "owl" demo_page)
      = Some (default [] (db demo_page) ++ [RefSet (pathFor 2 1) r])
    /\ value r = "owl".
Proof.
  destruct (remote_edit_round_trip demo_page offline_page (default [] (db demo_page))
              2 1 "owl" 7) as [r (H1 & H2 & _)].
  - vm_compute. reflexivity.
  - vm_compute. reflexivity.
  - exists r. split; assumption.
Defined.

End SyncFacts.

(** ** The page after [setup] *)

Module LayoutFacts.
Import JsString Config Page Layout.

Lemma setup_line_spec (st : page) (i : nat) :
  (forall j b, input_at (setup_line st i) j b
     = if decide (j = i)
       then (if (b <? BLANKS_PER_LINE)%nat then Some (BLANKS_PER_LINE * i + b) else None)
       else input_at st j b)
  /\ ((forall e, value_of st e = "") -> forall e, value_of (setup_line st i) e = "")
  /\ db (setup_line st i) = (fun calls => calls ++ listeners i) <$> db st
  /\ activeElement (setup_line st i) = activeElement st
  /\ timers (setup_line st i) = timers st
  /\ clientId (setup_line st i) = clientId st
  /\ status (setup_line st i) = status st
  /\ console (setup_line st i) = console st.
Proof.
  unfold setup_line, attachLineListener, addBlank, set_value, hold.
  cbn [db with_value_of with_inputs inputs value_of activeElement timers clientId status console now].
  repeat apply conj; try (destruct (db st); reflexivity).
  - intros j b. unfold input_at.
    replace (inputs (match db st with Some _ => _ | None => _ end))
      with (<[i := <[2 := BLANKS_PER_LINE * i + 2]> (<[1 := BLANKS_PER_LINE * i + 1]>
                      (<[0 := BLANKS_PER_LINE * i]> (∅ : gmap nat elt)))]>
              (<[i := <[1 := BLANKS_PER_LINE * i + 1]>
                      (<[0 := BLANKS_PER_LINE * i]> (∅ : gmap nat elt))]>
                 (<[i := <[0 := BLANKS_PER_LINE * i]> (∅ : gmap nat elt)]>
                    (<[i := ∅]> (inputs st)))))
      by (destruct (db st); cbn [inputs with_db with_value_of with_inputs];
          rewrite !lookup_insert_eq; reflexivity).
    rewrite lookup_insert.
    destruct (decide (i = j)) as [->|Hne]; destruct (decide (j = j)) as [_|C];
      try destruct (decide (j = i)); try congruence.
    + cbn [mbind option_bind].
      destruct b as [|[|[|b]]]; cbn [Nat.ltb Nat.leb BLANKS_PER_LINE];
        repeat (rewrite lookup_insert; destruct (decide _); try lia);
        rewrite ?lookup_empty; try reflexivity; f_equal; lia.
    + rewrite !lookup_insert_ne by congruence. reflexivity.
  - intros H e. destruct (db st); cbn [value_of with_db with_value_of];
      unfold insert, fn_insert; repeat destruct (decide _); auto.
  - destruct (db st) eqn:E; cbn [db with_db fmap option_fmap option_map]; [| exact E].
    reflexivity.
Qed.

Lemma setup_lines_spec (d : option (list db_call)) (id : string) (n : nat) :
  let st := foldl setup_line (blank_page d id) (seq 0 n) in
  (forall j b, input_at st j b
     = if ((j <? n) && (b <? BLANKS_PER_LINE))%nat then Some (BLANKS_PER_LINE * j + b) else None)
  /\ (forall e, value_of st e = "")
  /\ db st = (fun calls => calls ++ flat_map listeners (seq 0 n)) <$> d
  /\ activeElement st = None
  /\ timers st = []
  /\ clientId st = id
  /\ status st = ""
  /\ console st = [].
Proof.
  induction n as [|n IH].
  - cbn. repeat apply conj; try reflexivity.
    destruct d; cbn; now rewrite ?app_nil_r.
  - rewrite seq_S, foldl_app. cbn [foldl Nat.add].
    cbv zeta in IH. destruct IH as (Hi & Hv & Hd & Ha & Ht & Hc & Hs & Hk).
    generalize dependent (foldl setup_line (blank_page d id) (seq 0 n)).
    intros st Hi Hv Hd Ha Ht Hc Hs Hk. cbv zeta.
    destruct (setup_line_spec st n) as (Li & Lv & Ld & La & Lt & Lc & Ls & Lk).
    repeat apply conj; try congruence.
    + intros j b. rewrite Li, Hi.
      destruct (decide (j = n)) as [->|Hne].
      * rewrite (proj2 (Nat.ltb_lt n (S n))) by lia. reflexivity.
      * destruct (Nat.ltb_spec j n), (Nat.ltb_spec j (S n)); try lia; reflexivity.
    + auto.
    + rewrite Ld, Hd. destruct d; cbn [fmap option_fmap option_map]; [|reflexivity].
      rewrite flat_map_app. cbn [flat_map]. now rewrite app_nil_r, app_assoc.
Qed.

Lemma setup_spec (d : option (list db_call)) (id : string) :
  (forall j b, input_at (setup d id) j b = grid j b)
  /\ (forall e, value_of (setup d id) e = "")
  /\ db (setup d id) = (fun calls => calls ++ flat_map listeners (seq 0 LINES)) <$> d
  /\ activeElement (setup d id) = None
  /\ timers (setup d id) = []
  /\ clientId (setup d id) = id
  /\ status (setup d id) = ""
  /\ console (setup d id) = [].
Proof. exact (setup_lines_spec d id LINES). Qed.

(** X4. [setup] binds exactly the 30 by 3 grid: field [(i, b)] has an input
    of its own for [i < 30] and [b < 3], and no other index is bound; every
    input starts empty, nothing is focused and no timer is pending.  With a
    database the two listeners of each line, [child_added] and
    [child_changed], are registered line by line after the calls made
    before; without one, none is. *)
Theorem setup_builds_grid (d : option (list db_call)) (id : string) :
  laid_out (setup d id)
  /\ (forall i b i' b' e, grid i b = Some e -> grid i' b' = Some e -> i = i' /\ b = b')
  /\ (forall i b, valueAt (setup d id) i b = "")
  /\ activeElement (setup d id) = None
  /\ timers (setup d id) = []
  /\ clientId (setup d id) = id
  /\ db (setup d id) = (fun calls => calls ++ flat_map listeners (seq 0 LINES)) <$> d.
Proof.
  destruct (setup_lines_spec d id LINES) as (Hi & Hv & Hd & Ha & Ht & Hc & _).
  repeat apply conj; try assumption.
  - intros i b i' b' e. unfold grid, BLANKS_PER_LINE.
    destruct (Nat.ltb_spec i LINES), (Nat.ltb_spec b 3), (Nat.ltb_spec i' LINES),
      (Nat.ltb_spec b' 3); cbn [andb]; try discriminate.
    intros [= <-] [= E]. lia.
  - intros i b. unfold valueAt. destruct (input_at _ i b); [apply Hv | reflexivity].
Qed.

End LayoutFacts.

(** ** What a notification can change *)

Module RemoteFacts.
Import JsString Config Page Layout.

Lemma grid_inj (i b i' b' : nat) (e : elt) :
  grid i b = Some e -> grid i' b' = Some e -> i = i' /\ b = b'.
Proof.
  unfold grid, BLANKS_PER_LINE.
  destruct (Nat.ltb_spec i LINES), (Nat.ltb_spec b 3), (Nat.ltb_spec i' LINES),
    (Nat.ltb_spec b' 3); cbn [andb]; try discriminate.
  intros [= <-] [= E]. lia.
Qed.

Lemma applyRemote_cases (st : page) (l : nat) (snap : snapshot) :
  applyRemote l snap st = st
  \/ exists z e v, Js.parseInt (key snap) = Some z /\ input_at_num st l z = Some e
       /\ activeElement st ≠ Some e /\ applyRemote l snap st = set_value e v st.
Proof.
  unfold applyRemote.
  destruct (Js.parseInt (key snap)) as [z|]; [|now left].
  destruct (negb (Js.truthy (val snap))); [now left|].
  destruct (input_at_num st l z) as [e|] eqn:He; [|now left].
  destruct (bool_decide (activeElement st ≠ Some e)) eqn:Hf; [|now left].
  apply bool_decide_eq_true_1 in Hf. right. eauto 10.
Qed.

(** X5. A notification changes nothing but the value of one input: the
    bindings, the database calls, the timers, the focus, the status line and
    the console stay as they are, and an input whose value changed is the
    unfocused one bound at the notified line under the index the key reads
    as.  On a page laid out by [setup], a field whose value changed is the
    field the notification names. *)
Theorem applyRemote_touches_one_field (st : page) (l : nat) (snap : snapshot) :
  let st' := applyRemote l snap st in
  inputs st' = inputs st /\ db st' = db st /\ timers st' = timers st
  /\ activeElement st' = activeElement st /\ status st' = status st
  /\ console st' = console st /\ now st' = now st /\ clientId st' = clientId st
  /\ (forall e, value_of st' e ≠ value_of st e ->
        exists z, Js.parseInt (key snap) = Some z /\ input_at_num st l z = Some e
                  /\ activeElement st ≠ Some e)
  /\ (laid_out st -> forall i b, valueAt st' i b ≠ valueAt st i b ->
        i = l /\ Js.parseInt (key snap) = Some (Z.of_nat b)).
Proof.
  cbv zeta.
  assert (Hval : forall e, value_of (applyRemote l snap st) e ≠ value_of st e ->
            exists z, Js.parseInt (key snap) = Some z /\ input_at_num st l z = Some e
                      /\ activeElement st ≠ Some e).
  { intros e Hne. destruct (applyRemote_cases st l snap) as [E | (z & e' & v & Hk & Hi & Hf & E)].
    - rewrite E in Hne. congruence.
    - rewrite E in Hne. exists z. repeat split; auto.
      + destruct (decide (e = e')) as [->|Hd]; [exact Hi|].
        exfalso. apply Hne. unfold set_value, hold. cbn [value_of with_value_of].
        unfold insert, fn_insert. destruct (decide (e' = e)); congruence.
      + intros Hact. apply Hne. unfold set_value, hold. cbn [value_of with_value_of].
        unfold insert, fn_insert. destruct (decide (e' = e)) as [->|]; congruence. }
  assert (Hin : inputs (applyRemote l snap st) = inputs st).
  { destruct (applyRemote_cases st l snap) as [E | (z & e' & v & _ & _ & _ & E)];
      rewrite E; reflexivity. }
  repeat apply conj; try exact Hin; try exact Hval;
    try (destruct (applyRemote_cases st l snap) as [E | (z & e' & v & _ & _ & _ & E)];
         rewrite E; reflexivity).
  intros Hlay i b Hne. unfold valueAt in Hne.
  rewrite (PageFacts.input_at_inputs _ _ _ _ Hin) in Hne.
  destruct (input_at st i b) as [e|] eqn:He; [|congruence].
  destruct (Hval e Hne) as (z & Hk & Hz & _).
  unfold input_at_num in Hz. destruct (Z.leb_spec 0 z); [|discriminate].
  rewrite Hlay in He, Hz.
  destruct (grid_inj _ _ _ _ _ He Hz) as [-> ->].
  split; [reflexivity|]. rewrite Hk. f_equal. lia.
Qed.

End RemoteFacts.

(** ** The tokens of an extract, and where the pool's words come from *)

Module TokenFacts.
Import JsString Nouns Tokens.

Lemma cleaned_chars (t : string) :
  Stamp.all_chars cleaned_char (map_chars keep_char t) = true.
Proof.
  induction t as [|c t IH]; [reflexivity|].
  cbn [map_chars Stamp.all_chars]. rewrite IH, andb_true_r.
  unfold keep_char, cleaned_char, token_char.
  destruct (is_az c) eqn:Ea, (is_hyphen c) eqn:Eh, (is_space c) eqn:Es;
    cbn [orb]; rewrite ?Ea, ?Eh, ?Es; reflexivity.
Qed.

Lemma split_go_nonempty (b : bool) (s : string) : split_go b s <> [].
Proof.
  revert b; induction s as [|c s IH]; intros b; cbn [split_go]; [discriminate|].
  destruct (is_space c); [destruct b; [apply IH | discriminate]|].
  unfold cons_head. destruct (split_go false s); discriminate.
Qed.

Lemma pieces_token_chars (b : bool) (s : string) :
  Stamp.all_chars cleaned_char s = true ->
  Forall (fun w => Stamp.all_chars token_char w = true) (split_go b s).
Proof.
  revert b; induction s as [|c s IH]; intros b; cbn [split_go Stamp.all_chars].
  - intros _. repeat constructor.
  - intros H. apply andb_true_iff in H as [Hc Hs].
    destruct (is_space c) eqn:Es.
    + destruct b; [apply IH; exact Hs|]. constructor; [reflexivity | apply IH; exact Hs].
    + pose proof (IH false Hs) as HF. unfold cons_head.
      destruct (split_go false s) as [|w r]; [repeat constructor|].
      * cbn [Stamp.all_chars]. unfold cleaned_char in Hc. rewrite Es in Hc.
        cbn [orb] in Hc. now rewrite Hc.
      * inversion HF; subst. constructor; [|assumption].
        cbn [Stamp.all_chars]. unfold cleaned_char in Hc. rewrite Es in Hc.
        cbn [orb] in Hc. rewrite Hc. assumption.
Qed.

Lemma words_shaped (text w : string) :
  In w (words text) ->
  Stamp.all_chars token_char w = true /\ length_ok w = true
  /\ no_edge_hyphen w = true /\ no_double_hyphen w = true.
Proof.
  unfold words. intros H.
  apply filter_In in H as [H Hd]. apply filter_In in H as [H He].
  apply filter_In in H as [H _]. apply filter_In in H as [H Hl].
  repeat split; try assumption.
  pose proof (pieces_token_chars false _ (cleaned_chars (toLowerCase text))) as HF.
  rewrite List.Forall_forall in HF. apply HF. exact H.
Qed.

Lemma extract_subset (text w : string) :
  w ∈ extractCandidateNounsFromText text -> w ∈ candidates text.
Proof.
  unfold extractCandidateNounsFromText. destruct (String.eqb text "").
  - intros H. inversion H.
  - intros H. rewrite sort_Permutation in H.
    now apply (proj1 (proj2 (from_list_shape (candidates text)))) in H.
Qed.

(** X6. Every token [extractCandidateNounsFromText] returns, for any text,
    is made of lower-case letters [a-z] and hyphens only, is 3 to 24 code
    units long, neither starts nor ends with a hyphen and holds no two
    hyphens in a row. *)
Theorem extracted_tokens_well_formed (text : string) :
  Forall (fun w =>
            Stamp.all_chars token_char w = true
            /\ 3 <= String.length w <= 24
            /\ startsWith w "-" = false /\ endsWith w "-" = false
            /\ includes w "--" = false)
         (extractCandidateNounsFromText text).
Proof.
  rewrite Forall_forall. intros w Hw%extract_subset.
  unfold candidates in Hw. apply list_elem_of_In, filter_In in Hw as [Hw _].
  destruct (words_shaped _ _ Hw) as (Hc & Hl & He & Hd).
  unfold length_ok in Hl. apply andb_true_iff in Hl as [H3 H24].
  apply Nat.leb_le in H3, H24.
  unfold no_edge_hyphen in He. apply negb_true_iff, orb_false_iff in He as [Hs He].
  unfold no_double_hyphen in Hd. apply negb_true_iff in Hd.
  repeat split; assumption.
Qed.

Lemma lower_of_capital (c : ascii) :
  is_capital c = true -> lower_char (ascii_of_nat (code c + 32)) = lower_char c.
Proof. destruct c as [[] [] [] [] [] [] [] []]; vm_compute; congruence. Qed.

Lemma same_letter_lower (c c' : ascii) :
  same_letter c c' = true -> lower_char c = lower_char c'.
Proof.
  unfold same_letter. intros H.
  apply orb_true_iff in H as [H | H]; [apply orb_true_iff in H as [H | H]|].
  - apply Ascii.eqb_eq in H. now subst.
  - apply andb_true_iff in H as [Hc E]. apply Nat.eqb_eq in E.
    rewrite <- (lower_of_capital c Hc), <- E. unfold code. now rewrite ascii_nat_embedding.
  - apply andb_true_iff in H as [Hc E]. apply Nat.eqb_eq in E.
    rewrite <- (lower_of_capital c' Hc), <- E. unfold code. now rewrite ascii_nat_embedding.
Qed.

Lemma same_case_lower (t t' : string) :
  same_up_to_case t t' = true -> toLowerCase t = toLowerCase t'.
Proof.
  revert t'; induction t as [|c t IH]; intros [|c' t'] H; try discriminate; [reflexivity|].
  cbn [same_up_to_case] in H. apply andb_true_iff in H as [Hc Ht].
  cbn [toLowerCase]. now rewrite (same_letter_lower c c' Hc), (IH t' Ht).
Qed.

Lemma toLowerCase_empty (t : string) : String.eqb (toLowerCase t) "" = String.eqb t "".
Proof. destruct t; reflexivity. Qed.

(** X7. The extraction does not see the case of letters: two texts that
    differ only in that letters are written as capitals in one and as small
    letters in the other ([A-Z] against [a-z], and the accented capitals of
    Latin-1 against their small forms) give the same tokens in the same
    order. *)
Theorem extract_ignores_case (text text' : string) :
  same_up_to_case text text' = true ->
  extractCandidateNounsFromText text = extractCandidateNounsFromText text'.
Proof.
  intros H. apply same_case_lower in H.
  unfold extractCandidateNounsFromText, candidates, words.
  rewrite <- (toLowerCase_empty text), <- (toLowerCase_empty text'), H. reflexivity.
Qed.

Lemma extract_ignores_case_witness :
  extractCandidateNounsFromText "Delta River delta" = ["delta"; "river"]
  /\ extractCandidateNounsFromText "dELTA river DELTA" = ["delta"; "river"].
Proof.
  rewrite <- (extract_ignores_case "Delta River delta" "dELTA river DELTA" eq_refl).
  split; vm_compute; reflexivity.
Defined.

End TokenFacts.

Module PoolSourceFacts.
Import OrderedSet Config Pool.

Lemma fetch_batch_lookup (n : nat) (w : world) (i : nat) (r : option summary) :
  (fetch_batch n w).1 !! i = Some r -> i < n /\ r = outcome w (attempts w + i).
Proof.
  revert w i; induction n as [|n IH]; intros w i; cbn [fetch_batch].
  - cbn. discriminate.
  - unfold fetch_or_null.
    destruct (fetch_batch n {| outcome := outcome w; attempts := S (attempts w) |})
      as [rs w2] eqn:E.
    cbn [fst]. destruct i as [|i]; cbn [lookup list_lookup].
    + intros [= <-]. split; [lia|]. now rewrite Nat.add_0_r.
    + intros H. specialize (IH {| outcome := outcome w; attempts := S (attempts w) |} i).
      rewrite E in IH. cbn [fst outcome attempts] in IH.
      destruct (IH H) as [Hlt ->]. split; [lia|]. f_equal. lia.
Qed.

Lemma add_words_source (t : Z) (ws pool : list string) :
  NoDup pool ->
  NoDup (add_words t pool ws)
  /\ forall x, x ∈ add_words t pool ws -> x ∈ pool \/ x ∈ ws.
Proof.
  revert pool; induction ws as [|a ws IH]; intros pool Hnd; cbn [add_words].
  - split; [assumption | auto].
  - pose proof (set_add_NoDup pool a Hnd) as Hnd'.
    destruct (t <=? size (set_add pool a))%Z.
    + split; [assumption|]. intros x Hx%set_add_elem.
      destruct Hx as [? | ->]; [now left | right; constructor].
    + destruct (IH _ Hnd') as [H1 H2]. split; [assumption|].
      intros x Hx. destruct (H2 x Hx) as [Hx'%set_add_elem | Hx'].
      * destruct Hx' as [? | ->]; [now left | right; constructor].
      * right. now constructor.
Qed.

Lemma absorb_source (t : Z) (rs : list (option summary)) (pool : list string) :
  NoDup pool ->
  NoDup (absorb t pool rs)
  /\ forall x, x ∈ absorb t pool rs ->
       x ∈ pool
       \/ exists r text, r ∈ rs /\ usable_extract r = Some text
                         /\ x ∈ Nouns.extractCandidateNounsFromText text.
Proof.
  revert pool; induction rs as [|r rs IH]; intros pool Hnd; cbn [absorb].
  - split; [assumption | auto].
  - destruct (usable_extract r) as [text|] eqn:Eu.
    + destruct (add_words_source t (Nouns.extractCandidateNounsFromText text) pool Hnd)
        as [Hnd' Hsrc].
      assert (Hhere : forall x, x ∈ add_words t pool (Nouns.extractCandidateNounsFromText text) ->
                x ∈ pool \/ exists r0 text0, r0 ∈ r :: rs /\ usable_extract r0 = Some text0
                              /\ x ∈ Nouns.extractCandidateNounsFromText text0).
      { intros x Hx. destruct (Hsrc x Hx); [now left|].
        right. exists r, text. repeat split; [constructor | assumption..]. }
      destruct (t <=? size _)%Z; [split; assumption|].
      destruct (IH _ Hnd') as [H1 H2]. split; [assumption|].
      intros x Hx. destruct (H2 x Hx) as [Hx' | (r0 & text0 & Hr & Hu & Hx')].
      * now apply Hhere.
      * right. exists r0, text0. repeat split; [now constructor | assumption..].
    + destruct (IH _ Hnd) as [H1 H2]. split; [assumption|].
      intros x Hx. destruct (H2 x Hx) as [Hx' | (r0 & text0 & Hr & Hu & Hx')]; [now left|].
      right. exists r0, text0. repeat split; [now constructor | assumption..].
Qed.

Lemma rounds_attempts_mono (t : Z) (pool : list string) (made : nat) (w : world) :
  attempts w <= attempts (rounds t pool made w).2.
Proof.
  funelim (rounds t pool made w).
  - clear Heqcall.
    destruct (PoolFacts.fetch_batch_spec (batch_of requestsMade) w) as (_ & Hatt & _).
    lia.
  - simpl. lia.
Qed.

Lemma rounds_source (t : Z) (pool : list string) (made : nat) (w : world) :
  NoDup pool ->
  NoDup (rounds t pool made w).1.1
  /\ forall x, x ∈ (rounds t pool made w).1.1 ->
       x ∈ pool
       \/ exists k text, attempts w <= k < attempts (rounds t pool made w).2
            /\ usable_extract (outcome w k) = Some text
            /\ x ∈ Nouns.extractCandidateNounsFromText text.
Proof.
  funelim (rounds t pool made w); intros Hnd.
  - clear Heqcall.
    destruct (PoolFacts.fetch_batch_spec (batch_of requestsMade) w) as (_ & Hatt & Hout).
    destruct (absorb_source targetSize (fetch_batch (batch_of requestsMade) w).1 pool Hnd)
      as [Hnd' Hsrc].
    destruct (H Hnd') as [H1 H2]. split; [exact H1|].
    intros x Hx.
    pose proof (rounds_attempts_mono targetSize
                  (absorb targetSize pool (fetch_batch (batch_of requestsMade) w).1)
                  (requestsMade + batch_of requestsMade)
                  (fetch_batch (batch_of requestsMade) w).2) as Hmono.
    destruct (H2 x Hx) as [Hx' | (k & text & Hk & Hu & Hx')].
    + destruct (Hsrc x Hx') as [|(r & text & Hr & Hu & Hxt)]; [now left|].
      right. apply list_elem_of_lookup in Hr as [i Hi].
      apply fetch_batch_lookup in Hi as [Hi ->].
      exists (attempts w + i), text. repeat split; try assumption; lia.
    + right. exists k, text. rewrite Hout in Hu. repeat split; try assumption; lia.
  - simpl. split; [assumption | auto].
Qed.

Lemma usable_extract_Some (r : option summary) (text : string) :
  usable_extract r = Some text <-> r = Some {| extract := Some text |} /\ text <> "".
Proof.
  unfold usable_extract. destruct r as [[[t|]]|]; cbn [extract].
  - destruct (String.eqb_spec t ""); split.
    + discriminate.
    + intros [[= ->] Hne]. congruence.
    + intros [= ->]. split; [reflexivity | assumption].
    + intros [[= ->] _]. reflexivity.
  - split; [discriminate | intros [[=] _]].
  - split; [discriminate | intros [[=] _]].
Qed.

(** X8. The pool [buildWikipediaNounPool] returns holds no word twice, and
    every word in it was extracted from the non-empty [extract] of a summary
    that one of the requests of this build brought back: nothing is
    invented, and nothing comes from a failed request. *)
Theorem pool_words_come_from_extracts (targetSize : Z) (w : world) :
  let pool := (buildWikipediaNounPool targetSize w).1.1 in
  let requestsMade := (buildWikipediaNounPool targetSize w).1.2 in
  NoDup pool
  /\ forall x, x ∈ pool ->
       exists k text, attempts w <= k < attempts w + requestsMade
         /\ outcome w k = Some {| extract := Some text |} /\ text <> ""
         /\ x ∈ Nouns.extractCandidateNounsFromText text.
Proof.
  cbv zeta. unfold buildWikipediaNounPool.
  destruct (rounds_source targetSize [] 0 w (NoDup_nil_2 (A:=string))) as [Hnd Hsrc].
  destruct (PoolFacts.rounds_spec targetSize [] 0 w (Nat.le_0_l _)) as (_ & Hatt & _).
  split; [exact Hnd|].
  intros x Hx. destruct (Hsrc x Hx) as [Hnil | (k & text & Hk & Hu & Hxt)].
  - inversion Hnil.
  - apply usable_extract_Some in Hu as [Ho Hne].
    exists k, text. repeat split; try assumption; lia.
Qed.

End PoolSourceFacts.

(** ** What a draw returns *)

Module PickFacts.
Import OrderedSet Draw.

Lemma floor_scaled_lt (r : unit_fraction) (n : nat) : 0 < n -> floor_scaled r n < n.
Proof.
  intros Hn. unfold floor_scaled.
  apply Nat.Div0.div_lt_upper_bound. nia.
Qed.

Lemma pick_loop_full (arr : list string) (count : nat) (rnd : randomness)
    (left : nat) (chosen seen : list word) (k : nat) :
  NoDup chosen -> (forall w, w ∈ chosen -> w ∈ seen) ->
  let res := pick_loop left arr count chosen seen rnd k in
  NoDup res.1
  /\ (forall w, w ∈ res.1 -> w ∈ chosen \/ ((w ∉ seen) /\ exists i, w = (arr !! i) /\ (arr <> [] -> i < length arr)))
  /\ k <= res.2 <= k + left
  /\ (length res.1 < count -> res.2 = k + left).
Proof.
  revert chosen seen k; induction left as [|left IH]; intros chosen seen k Hnd Hsub;
    cbn [pick_loop]; cbv zeta.
  - cbn [fst snd]. split; [assumption|]. split; [auto|]. split; lia.
  - destruct (Nat.ltb_spec (length chosen) count) as [Hlt|Hge].
    + remember (arr !! floor_scaled (rnd k) (length arr)) as w eqn:Ew.
      unfold has. case_bool_decide as Hin; [|rename Hin into Hnin].
      * pose proof (IH chosen seen (S k) Hnd Hsub) as IH'. cbv zeta in IH'.
        destruct IH' as (H1 & H2 & H3 & H4).
        split; [exact H1|]. split; [exact H2|]. split; [lia|].
        intros Hl. specialize (H4 Hl). lia.
      * assert (Hnd' : NoDup (chosen ++ [w])).
        { apply NoDup_app. repeat split; [assumption | | apply NoDup_singleton].
          intros x Hx Hx'. apply list_elem_of_singleton in Hx'. subst x. auto. }
        assert (Hsub' : forall x, x ∈ chosen ++ [w] -> x ∈ set_add seen w).
        { intros x Hx. apply set_add_elem. apply elem_of_app in Hx as [Hx|Hx]; [left; auto|].
          apply list_elem_of_singleton in Hx. now right. }
        pose proof (IH _ _ (S k) Hnd' Hsub') as IH'. cbv zeta in IH'.
        destruct IH' as (H1 & H2 & H3 & H4).
        split; [exact H1|]. split; [|split;
          [destruct H3 as [Ha Hb]; split;
             [eapply Nat.le_trans; [|exact Ha]; lia | eapply Nat.le_trans; [exact Hb | lia]]|]].
        -- intros x Hx. destruct (H2 x Hx) as [Hc | (Hns & i & Hi)].
           ++ apply elem_of_app in Hc as [Hc|Hc]; [now left|].
              apply list_elem_of_singleton in Hc. subst x. right. split; [assumption|].
              exists (floor_scaled (rnd k) (length arr)). split; [exact Ew|].
              intros Hne. apply floor_scaled_lt. destruct arr; [congruence | cbn; lia].
           ++ right. split; [|eauto]. intros Hs. apply Hns, set_add_elem. now left.
        -- intros Hl. etransitivity; [exact (H4 Hl) | lia].
    + cbn [fst snd]. split; [assumption|]. split; [auto|]. split; lia.
Qed.

Lemma pick_full (arr : list string) (count : nat) (exclude : list word)
    (rnd : randomness) (k : nat) :
  let chosen := (pickUniqueRandom arr count exclude rnd k).1 in
  let k' := (pickUniqueRandom arr count exclude rnd k).2 in
  length chosen <= count
  /\ NoDup chosen
  /\ (forall w, w ∈ chosen -> w ∉ exclude)
  /\ (arr <> [] -> forall w, w ∈ chosen -> exists s, w = Some s /\ s ∈ arr)
  /\ k <= k' <= k + count * 30
  /\ (length chosen < count -> k' = k + count * 30).
Proof.
  cbv zeta.
  destruct (DrawFacts.pickUniqueRandom_spec arr count exclude rnd k) as [Hex Hlen].
  unfold pickUniqueRandom in *.
  destruct (pick_loop_full arr count rnd (count * 30) [] (from_list exclude) k
              (NoDup_nil_2 (A:=word)))
    as (H1 & H2 & H3 & H4).
  { intros w Hw. inversion Hw. }
  repeat apply conj; try assumption; try lia.
  intros Hne w Hw. destruct (H2 w Hw) as [Hnil | (_ & i & -> & Hi)]; [inversion Hnil|].
  destruct (lookup_lt_is_Some_2 arr i (Hi Hne)) as [s Hs].
  exists s. split; [assumption|]. eapply list_elem_of_lookup_2; eauto.
Qed.

(** X9. What [pickUniqueRandom] returns, for every array, count, exclusion
    set and behaviour of [Math.random]: at most [count] words, no word
    twice, none from the exclusion set; each is an element of the array
    whenever the array is not empty; at most [30 * count] random values are
    used, and all of them when fewer than [count] words come back. *)
Theorem pickUniqueRandom_picks (arr : list string) (count : nat) (exclude : list word)
    (rnd : randomness) (k : nat) :
  let chosen := (pickUniqueRandom arr count exclude rnd k).1 in
  let k' := (pickUniqueRandom arr count exclude rnd k).2 in
  length chosen <= count
  /\ NoDup chosen
  /\ (forall w, w ∈ chosen -> w ∉ exclude)
  /\ (arr <> [] -> forall w, w ∈ chosen -> exists s, w = Some s /\ s ∈ arr)
  /\ k <= k' <= k + count * 30
  /\ (length chosen < count -> k' = k + count * 30).
Proof. exact (pick_full arr count exclude rnd k). Qed.

Lemma draw_lines_rows (lines : nat) (pool : list string) (perLine : nat) (rnd : randomness)
    (excl : list word) (k : nat) :
  let res := draw_lines lines pool perLine excl rnd k in
  Forall (fun row => length row <= perLine /\ NoDup row
                     /\ (pool <> [] -> forall w, w ∈ row -> exists s, w = Some s /\ s ∈ pool))
         res.1.1
  /\ k <= res.2 <= k + lines * (perLine * 30).
Proof.
  revert excl k; induction lines as [|lines IH]; intros excl k; cbn [draw_lines]; cbv zeta.
  - cbn [fst snd]. split; [constructor | lia].
  - cbn [fst snd].
    destruct (pick_full pool perLine excl rnd k) as (H1 & H2 & _ & H4 & H5 & _).
    cbv zeta in *.
    destruct (IH (trim_exclude (add_all excl (pickUniqueRandom pool perLine excl rnd k).1))
                 (pickUniqueRandom pool perLine excl rnd k).2) as [HF Hk].
    split; [constructor; [repeat split; assumption | exact HF] | lia].
Qed.

(** X10. [renderAllNounRows] fills exactly 30 rows; each holds at most 10
    words and no word twice, every word shown is a word of the pool when the
    pool is not empty, and at most 30 times 300
    random values are drawn. *)
Theorem renderAllNounRows_rows (poolArray : list string) (rnd : randomness) :
  length (renderAllNounRows poolArray rnd) = Config.LINES
  /\ Forall (fun row => length row <= Config.NOUNS_PER_LINE /\ NoDup row
                        /\ (poolArray <> [] ->
                            forall w, w ∈ row -> exists s, w = Some s /\ s ∈ poolArray))
            (renderAllNounRows poolArray rnd)
  /\ (draw_lines Config.LINES poolArray Config.NOUNS_PER_LINE [] rnd 0).2
     <= Config.LINES * (Config.NOUNS_PER_LINE * 30).
Proof.
  unfold renderAllNounRows, drawPerLineSuggestions.
  pose proof (DrawFacts.draw_lines_length Config.LINES poolArray Config.NOUNS_PER_LINE rnd [] 0) as Hl.
  destruct (draw_lines_rows Config.LINES poolArray Config.NOUNS_PER_LINE rnd [] 0) as [HF Hk].
  cbv zeta in *.
  repeat apply conj; [exact Hl | exact HF | lia].
Qed.

End PickFacts.

(** ** Loading the suggestions *)

Module StartupFacts.
Import Config Startup Tokens.

Lemma target_pool_size : TARGET_POOL_SIZE = 480%Z.
Proof. reflexivity. Qed.

(** X11. How the noun rows end up after start-up.  The warning is shown
    only when fewer than 10 words were gathered, and then all 60 requests of
    the budget had been spent.  Otherwise the 30 rows are filled with at
    most 10 words each, none twice in a row; every word shown is a word of
    the gathered pool, taken from the extract of a summary that was
    fetched, and is 3 to 24 lower-case letters and hyphens. *)
Theorem load_nouns_outcome (w : Pool.world) (rnd : Draw.randomness) :
  let built := Pool.buildWikipediaNounPool TARGET_POOL_SIZE w in
  match load_nouns w rnd with
  | LoadFailed =>
      length built.1.1 < NOUNS_PER_LINE /\ built.1.2 = MAX_REQUESTS
  | Suggestions rows =>
      NOUNS_PER_LINE <= length built.1.1
      /\ length rows = LINES
      /\ Forall (fun row =>
           length row <= NOUNS_PER_LINE /\ NoDup row
           /\ forall word, word ∈ row ->
                exists s, word = Some s /\ s ∈ built.1.1
                  /\ Stamp.all_chars token_char s = true
                  /\ 3 <= String.length s <= 24
                  /\ exists k text, k < Pool.attempts w + built.1.2
                       /\ Pool.outcome w k = Some {| Pool.extract := Some text |}
                       /\ s ∈ Nouns.extractCandidateNounsFromText text) rows
  end.
Proof.
  cbv zeta. unfold load_nouns.
  set (built := Pool.buildWikipediaNounPool TARGET_POOL_SIZE w).
  destruct (Z.ltb_spec (Pool.size built.1.1) (Z.of_nat NOUNS_PER_LINE)) as [Hlt|Hge].
  - unfold Pool.size in Hlt. split; [lia|].
    destruct (PoolFacts.rounds_spec TARGET_POOL_SIZE [] 0 w (Nat.le_0_l _)) as (_ & _ & Hshort & _).
    apply Hshort. change (Pool.rounds TARGET_POOL_SIZE [] 0 w) with built.
    unfold Pool.size. pose proof target_pool_size as Ht.
    unfold NOUNS_PER_LINE in Hlt. lia.
  - unfold Pool.size in Hge.
    assert (Hlen : NOUNS_PER_LINE <= length built.1.1) by lia.
    split; [exact Hlen|].
    assert (Hne : built.1.1 <> []).
    { intros E. rewrite E in Hlen. cbn in Hlen. unfold NOUNS_PER_LINE in Hlen. lia. }
    unfold Draw.renderAllNounRows, Draw.drawPerLineSuggestions.
    split; [apply DrawFacts.draw_lines_length|].
    destruct (PickFacts.draw_lines_rows LINES built.1.1 NOUNS_PER_LINE rnd [] 0) as [HF _].
    cbv zeta in HF. eapply Forall_impl; [exact HF|].
    intros row (H1 & H2 & H3). split; [exact H1|]. split; [exact H2|].
    intros word Hword. destruct (H3 Hne word Hword) as (s & -> & Hs).
    exists s. split; [reflexivity|]. split; [exact Hs|].
    destruct (PoolSourceFacts.rounds_source TARGET_POOL_SIZE [] 0 w (NoDup_nil_2 (A:=string)))
      as [_ Hsrc].
    destruct (PoolFacts.rounds_spec TARGET_POOL_SIZE [] 0 w (Nat.le_0_l _)) as (_ & Hatt & _).
    destruct (Hsrc s Hs) as [Hnil | (k & text & Hk & Hu & Hxt)]; [inversion Hnil|].
    apply PoolSourceFacts.usable_extract_Some in Hu as [Ho _].
    pose proof (TokenFacts.extract_subset _ _ Hxt) as Hc.
    unfold Nouns.candidates in Hc. apply list_elem_of_In, filter_In in Hc as [Hc _].
    destruct (TokenFacts.words_shaped _ _ Hc) as (Hch & Hl & _).
    unfold Nouns.length_ok in Hl. apply andb_true_iff in Hl as [L3 L24].
    apply Nat.leb_le in L3, L24.
    split; [exact Hch|]. split; [lia|].
    exists k, text. repeat split; try assumption.
    unfold built, Pool.buildWikipediaNounPool. lia.
Qed.

End StartupFacts.

(** ** The composed line, word by word, and the exported text *)

Module ExportFacts.
Import JsString Config Page Compose TextExport.

Lemma split_go_flag (b : bool) (s : string) :
  starts_with_space s = false -> split_go b s = split_go false s.
Proof.
  destruct s as [|c r]; [reflexivity|]. cbn [starts_with_space split_go].
  intros ->. reflexivity.
Qed.

Lemma join_cons (sep x : string) (l : list string) :
  l <> [] -> join sep (x :: l) = x +:+ sep +:+ join sep l.
Proof. destruct l; [congruence | reflexivity]. Qed.

Lemma join_cons_head (sep : string) (c : ascii) (l : list string) :
  l <> [] -> join sep (cons_head c l) = String c (join sep l).
Proof.
  destruct l as [|w r]; [congruence|]. intros _. cbn [cons_head].
  destruct r; reflexivity.
Qed.

Lemma join_split (s : string) :
  single_spaced s = true -> join " " (split_go false s) = s.
Proof.
  induction s as [|c r IH]; [reflexivity|].
  cbn [single_spaced split_go]. intros H. apply andb_true_iff in H as [Hc Hr].
  destruct (is_space c) eqn:Es.
  - apply andb_true_iff in Hc as [Hsp Hlead].
    apply Ascii.eqb_eq in Hsp. apply negb_true_iff in Hlead.
    rewrite (split_go_flag true r Hlead).
    rewrite join_cons by apply TokenFacts.split_go_nonempty.
    rewrite (IH Hr). subst c. reflexivity.
  - rewrite join_cons_head by apply TokenFacts.split_go_nonempty.
    now rewrite (IH Hr).
Qed.

Lemma ends_with_space_cons (c : ascii) (r : string) :
  r <> EmptyString -> ends_with_space (String c r) = ends_with_space r.
Proof. destruct r; [congruence | reflexivity]. Qed.

Lemma tl_cons_head (c : ascii) (l : list string) :
  l <> [] -> List.tl (cons_head c l) = List.tl l.
Proof. destruct l; [congruence | reflexivity]. Qed.

Lemma hd_cons_head (c : ascii) (l : list string) :
  nonempty (List.hd EmptyString (cons_head c l)) = true.
Proof. destruct l; reflexivity. Qed.

Lemma pieces_nonempty (s : string) :
  single_spaced s = true -> ends_with_space s = false ->
  Forall (fun w => nonempty w = true) (List.tl (split_go false s))
  /\ (s <> EmptyString -> starts_with_space s = false ->
      nonempty (List.hd EmptyString (split_go false s)) = true).
Proof.
  induction s as [|c r IH]; [intros _ _; split; [constructor | congruence]|].
  cbn [single_spaced split_go starts_with_space]. intros H He.
  apply andb_true_iff in H as [Hc Hr].
  assert (Her : ends_with_space r = false).
  { destruct r; [reflexivity|]. rewrite ends_with_space_cons in He by discriminate. exact He. }
  destruct (IH Hr Her) as [IHt IHh].
  destruct (is_space c) eqn:Es.
  - apply andb_true_iff in Hc as [_ Hlead]. apply negb_true_iff in Hlead.
    assert (Hne : r <> EmptyString).
    { intros ->. cbn in He. congruence. }
    rewrite (split_go_flag true r Hlead). cbn [List.tl List.hd].
    split; [|intros _; discriminate].
    pose proof (TokenFacts.split_go_nonempty false r) as Hn.
    specialize (IHh Hne Hlead).
    destruct (split_go false r) as [|w ws]; [congruence|].
    cbn [List.tl List.hd] in *. constructor; assumption.
  - rewrite tl_cons_head by apply TokenFacts.split_go_nonempty.
    split; [exact IHt | intros _ _; apply hd_cons_head].
Qed.

Lemma filter_all {A} (f : A -> bool) (l : list A) :
  Forall (fun x => f x = true) l -> List.filter f l = l.
Proof.
  induction 1 as [|x l Hx _ IH]; [reflexivity|]. cbn [List.filter]. now rewrite Hx, IH.
Qed.

Lemma normalized_join_words (s : string) :
  normalized s = true -> join " " (words_of s) = s.
Proof.
  unfold normalized. intros H. apply andb_true_iff in H as [H He].
  apply andb_true_iff in H as [Hs Hl]. apply negb_true_iff in He, Hl.
  destruct s as [|c r]; [reflexivity|].
  destruct (pieces_nonempty _ Hs He) as [Ht Hh].
  specialize (Hh ltac:(discriminate) Hl).
  unfold words_of, split_ws.
  rewrite filter_all; [apply join_split; exact Hs|].
  pose proof (TokenFacts.split_go_nonempty false (String c r)) as Hn.
  destruct (split_go false (String c r)) as [|w ws]; [congruence|].
  cbn [List.tl List.hd] in *. constructor; assumption.
Qed.

Lemma trim_collapse_words (s : string) :
  trim (collapse s) = join " " (words_of s).
Proof.
  rewrite <- (ComposeFacts.words_trim_collapse s).
  symmetry. apply normalized_join_words, ComposeFacts.trim_collapse_normalized.
Qed.

Lemma no_space_one_word (s : string) :
  s <> EmptyString -> Stamp.all_chars (fun c => negb (is_space c)) s = true ->
  split_go false s = [s].
Proof.
  induction s as [|c r IH]; [congruence|]. intros _ H.
  cbn [Stamp.all_chars] in H. apply andb_true_iff in H as [Hc Hr].
  apply negb_true_iff in Hc. cbn [split_go]. rewrite Hc.
  destruct r as [|c' r']; [reflexivity|].
  rewrite IH; [reflexivity | discriminate | exact Hr].
Qed.

Lemma digits_no_space (s : string) :
  Js.all_digits s = true -> Stamp.all_chars (fun c => negb (is_space c)) s = true.
Proof.
  induction s as [|c r IH]; [reflexivity|]. cbn [Js.all_digits Stamp.all_chars].
  intros H. apply andb_true_iff in H as [Hc Hr]. rewrite (IH Hr), andb_true_r.
  unfold Js.is_digit, is_space in *. apply andb_true_iff in Hc as [H1 H2].
  apply Nat.leb_le in H1, H2. apply negb_true_iff.
  destruct (Nat.leb_spec 9 (code c)), (Nat.leb_spec (code c) 13),
    (Nat.eqb_spec (code c) 32), (Nat.eqb_spec (code c) 160); cbn; try reflexivity; lia.
Qed.

Lemma number_colon_word (n : nat) :
  words_of (Js.string_of_nat n +:+ ":") = [Js.string_of_nat n +:+ ":"].
Proof.
  unfold words_of, split_ws.
  assert (Hne : Js.string_of_nat n +:+ ":" <> EmptyString).
  { destruct (Js.string_of_nat n); discriminate. }
  rewrite no_space_one_word; [| exact Hne |].
  - cbn [List.filter]. unfold nonempty.
    destruct (String.eqb_spec (Js.string_of_nat n +:+ ":") ""); [congruence | reflexivity].
  - rewrite StampFacts.all_chars_app, digits_no_space; [reflexivity|].
    apply PageFacts.string_of_uint_digits.
Qed.

Lemma first_segment_words (i : nat) :
  words_of ("Line " +:+ Js.string_of_nat (i + 1) +:+ ": Before")
  = ["Line"; Js.string_of_nat (i + 1) +:+ ":"; "Before"].
Proof.
  change ("Line " +:+ Js.string_of_nat (i + 1) +:+ ": Before")
    with ("Line" +:+ " " +:+ (Js.string_of_nat (i + 1) +:+ ": Before")).
  rewrite ComposeFacts.words_append_space.
  replace (Js.string_of_nat (i + 1) +:+ ": Before")
    with ((Js.string_of_nat (i + 1) +:+ ":") +:+ " " +:+ "Before").
  - rewrite ComposeFacts.words_append_space, number_colon_word. reflexivity.
  - generalize (Js.string_of_nat (i + 1)). intros s.
    induction s as [|c s IH]; [reflexivity|].
    change (String c ((s +:+ ":") +:+ " " +:+ "Before") = String c (s +:+ ": Before")).
    f_equal. exact IH.
Qed.

Lemma composeLine_words (st : page) (i : nat) :
  i < LINES ->
  composeLine st i
  = Some (join " " (line_words i (valueAt st i 0) (valueAt st i 1) (valueAt st i 2))).
Proof.
  intros Hi. unfold composeLine. rewrite (ComposeFacts.segments_lookup i Hi).
  rewrite trim_collapse_words, ComposeFacts.words_join.
  unfold parts, segments_of. cbn [nth flat_map].
  rewrite first_segment_words. unfold line_words.
  rewrite app_nil_r. reflexivity.
Qed.

(** X12. The composed line, in closed form: for a line of the page it is
    the words [Line], the 1-based line number with a colon, [Before], the
    words of the first value, [then], the words of the second value, [and],
    [then], the words of the third value and [finally], joined by single
    spaces.  Hence white space in a value never shows except as one space
    between words, and an empty blank leaves no gap. *)
Theorem composeLine_closed_form (st : page) (i : nat) :
  i < LINES ->
  composeLine st i
  = Some (join " " (line_words i (valueAt st i 0) (valueAt st i 1) (valueAt st i 2)))
  /\ (forall st', (forall b, words_of (valueAt st' i b) = words_of (valueAt st i b)) ->
        composeLine st' i = composeLine st i).
Proof.
  intros Hi. split; [now apply composeLine_words|].
  intros st' Hw. rewrite !composeLine_words by exact Hi.
  unfold line_words. now rewrite !Hw.
Qed.

Lemma composeLine_closed_form_witness :
  composeLine spaced_page 2
  = Some "Line 3: Before then red fox and then finally".
Proof.
  rewrite (proj1 (composeLine_closed_form spaced_page 2 ltac:(unfold LINES; lia))).
  vm_compute. reflexivity.
Defined.

Lemma mapM_total {A B} (f : A -> option B) (g : A -> B) (l : list A) :
  (forall x, x ∈ l -> f x = Some (g x)) -> mapM f l = Some (map g l).
Proof.
  induction l as [|a l IH]; intros H; [reflexivity|].
  cbn [mapM map]. rewrite (H a) by constructor. cbn [mbind option_bind].
  rewrite IH by (intros x Hx; apply H; now constructor). reflexivity.
Qed.

Lemma export_lines (st : page) :
  exportLinesArray st
  = Some (map (fun i => join " " (line_words i (valueAt st i 0) (valueAt st i 1) (valueAt st i 2)))
              (seq 0 LINES)).
Proof.
  unfold exportLinesArray. apply mapM_total.
  intros i Hi. apply elem_of_seq in Hi. apply composeLine_words. lia.
Qed.

Lemma single_spaced_no_LF (s : string) :
  single_spaced s = true ->
  Stamp.all_chars (fun c => negb (Ascii.eqb c LF)) s = true.
Proof.
  induction s as [|c r IH]; [reflexivity|]. cbn [single_spaced Stamp.all_chars].
  intros H. apply andb_true_iff in H as [Hc Hr]. rewrite (IH Hr), andb_true_r.
  destruct (Ascii.eqb_spec c LF) as [->|]; [|reflexivity].
  change (is_space LF) with true in Hc. cbn in Hc. discriminate.
Qed.

Lemma lines_of_piece (x t : string) :
  Stamp.all_chars (fun c => negb (Ascii.eqb c LF)) x = true ->
  lines_of (x +:+ newline +:+ t) = x :: lines_of t.
Proof.
  induction x as [|c x IH]; intros H.
  - reflexivity.
  - cbn [Stamp.all_chars] in H. apply andb_true_iff in H as [Hc Hx].
    apply negb_true_iff in Hc.
    change (String c x +:+ newline +:+ t) with (String c (x +:+ newline +:+ t)).
    cbn [lines_of]. rewrite Hc, (IH Hx). reflexivity.
Qed.

Lemma lines_of_one (x : string) :
  Stamp.all_chars (fun c => negb (Ascii.eqb c LF)) x = true -> lines_of x = [x].
Proof.
  induction x as [|c x IH]; intros H; [reflexivity|].
  cbn [Stamp.all_chars] in H. apply andb_true_iff in H as [Hc Hx].
  apply negb_true_iff in Hc. cbn [lines_of]. rewrite Hc, (IH Hx). reflexivity.
Qed.

Lemma lines_of_join (ls : list string) :
  ls <> [] ->
  Forall (fun x => Stamp.all_chars (fun c => negb (Ascii.eqb c LF)) x = true) ls ->
  lines_of (join newline ls) = ls.
Proof.
  induction ls as [|x ls IH]; [congruence|]. intros _ H. inversion H as [|? ? Hx Hls]; subst.
  destruct ls as [|y ls].
  - cbn [join]. now apply lines_of_one.
  - rewrite join_cons by discriminate. rewrite lines_of_piece by exact Hx.
    rewrite IH; [reflexivity | discriminate | exact Hls].
Qed.

Lemma composed_normalized (st : page) (i : nat) (line : string) :
  composeLine st i = Some line -> normalized line = true.
Proof.
  unfold composeLine. destruct (segments !! i); [|discriminate].
  intros [= <-]. apply ComposeFacts.trim_collapse_normalized.
Qed.

(** X13. The export never fails and always has the 30 lines of the page:
    [exportLinesArray] returns the composed lines of lines 0 to 29 in order,
    [exportText] joins them with line feeds, and since no composed line
    holds a line feed, splitting the text at its line feeds gives the 30
    lines back. *)
Theorem export_has_thirty_lines (st : page) :
  exists ls,
    exportLinesArray st = Some ls
    /\ exportText st = Some (join newline ls)
    /\ length ls = LINES
    /\ (forall i, i < LINES -> composeLine st i = ls !! i)
    /\ Forall (fun line => normalized line = true) ls
    /\ lines_of (join newline ls) = ls.
Proof.
  pose proof (export_lines st) as E.
  set (ls := map _ (seq 0 LINES)) in E. exists ls.
  assert (Hlen : length ls = LINES) by (unfold ls; now rewrite length_map, length_seq).
  assert (Hat : forall i, i < LINES -> composeLine st i = ls !! i).
  { intros i Hi. unfold ls. rewrite list_lookup_fmap, lookup_seq_lt by exact Hi.
    cbn [fmap option_fmap option_map Nat.add]. now apply composeLine_words. }
  assert (Hnorm : Forall (fun line => normalized line = true) ls).
  { apply Forall_lookup_2. intros i line Hl.
    assert (Hi : i < LINES) by (rewrite <- Hlen; eapply lookup_lt_Some; eauto).
    rewrite <- (Hat i Hi) in Hl. eapply composed_normalized; eauto. }
  repeat apply conj; try assumption.
  - unfold exportText. rewrite E. reflexivity.
  - apply lines_of_join.
    + intros Hnil. rewrite Hnil in Hlen. discriminate Hlen.
    + eapply Forall_impl; [exact Hnorm|]. intros line Hn. apply single_spaced_no_LF.
      unfold normalized in Hn. apply andb_true_iff in Hn as [Hn _].
      now apply andb_true_iff in Hn as [Hn _].
Qed.

Lemma bare_line (i : nat) :
  join " " (line_words i "" "" "")
  = "Line " +:+ Js.string_of_nat (i + 1) +:+ ": Before then and then finally".
Proof.
  unfold line_words. cbn [words_of split_ws split_go List.filter nonempty String.eqb negb app join].
  generalize (Js.string_of_nat (i + 1)). intros s.
  change (String "L" (String "i" (String "n" (String "e" (String " "
            ((s +:+ ":") +:+ " Before then and then finally")))))
          = String "L" (String "i" (String "n" (String "e" (String " "
            (s +:+ ": Before then and then finally")))))).
  do 5 f_equal.
  induction s as [|c s IH]; [reflexivity|].
  change (String c ((s +:+ ":") +:+ " Before then and then finally")
          = String c (s +:+ ": Before then and then finally")).
  f_equal. exact IH.
Qed.

Lemma export_bare (st : page) :
  (forall i b, i < LINES -> b < BLANKS_PER_LINE -> valueAt st i b = "") ->
  exportLinesArray st
  = Some (map (fun i => "Line " +:+ Js.string_of_nat (i + 1)
                        +:+ ": Before then and then finally") (seq 0 LINES)).
Proof.
  intros Hv. rewrite export_lines. f_equal. apply map_ext_in.
  intros i Hi%in_seq.
  rewrite !Hv by (unfold BLANKS_PER_LINE; lia). apply bare_line.
Qed.

(** X14. After a confirmed reset, however the remote update settles, and
    equally right after [setup], the export is the bare template: line [i]
    reads [Line i+1: Before then and then finally]. *)
Theorem reset_exports_bare_template (st : page) (remote : settled)
    (d : option (list db_call)) (id : string) :
  let bare := map (fun i => "Line " +:+ Js.string_of_nat (i + 1)
                            +:+ ": Before then and then finally") (seq 0 LINES) in
  exportLinesArray (onReset true remote st) = Some bare
  /\ exportText (onReset true remote st) = Some (join newline bare)
  /\ exportLinesArray (setup d id) = Some bare.
Proof.
  cbv zeta.
  assert (H : forall i b, i < LINES -> b < BLANKS_PER_LINE ->
                valueAt (onReset true remote st) i b = "").
  { intros i b Hi Hb. rewrite PageFacts.onReset_unfold.
    destruct (PageFacts.clear_all_spec st) as (_ & _ & Hc).
    specialize (Hc i b Hi Hb). revert Hc. generalize (clear_all st). intros c Hc.
    destruct (PageFacts.reset_remote_local remote c) as [Hin Hval].
    unfold valueAt in *. rewrite (PageFacts.input_at_inputs _ _ _ _ Hin), Hval. exact Hc. }
  repeat apply conj.
  - now apply export_bare.
  - unfold exportText. rewrite (export_bare _ H). reflexivity.
  - apply export_bare. intros i b _ _.
    destruct (LayoutFacts.setup_lines_spec d id LINES) as (_ & Hv & _).
    unfold valueAt. destruct (input_at (setup d id) i b); [apply Hv | reflexivity].
Qed.

End ExportFacts.

(** ** Saving *)

Module SaveFacts.
Import JsString Config Page Compose TextExport Save.

Lemma try_download_frame (d : Stamp.date) (download : completion) (text : string) (st : page) :
  inputs (try_download d download text st).1 = inputs st
  /\ value_of (try_download d download text st).1 = value_of st
  /\ db (try_download d download text st).1 = db st
  /\ timers (try_download d download text st).1 = timers st.
Proof. destruct download; repeat split; reflexivity. Qed.

Lemma await_save_frame (remote : settled) (st : page) :
  inputs (await_save remote st) = inputs st
  /\ value_of (await_save remote st) = value_of st
  /\ db (await_save remote st) = db st
  /\ timers (await_save remote st) = timers st.
Proof. unfold await_save. destruct (db st) eqn:E, remote; repeat split; try reflexivity; exact E. Qed.

Lemma onSave_unfold (d : Stamp.date) (download : completion) (remote : settled) (st : page) :
  exists ls,
    exportLinesArray st = Some ls
    /\ onSave d download remote st
       = Some {| page_after := await_save remote (try_download d download (join newline ls) st).1;
                 pushed := match db st with
                           | Some _ => Some {| text := join newline ls; lines := ls;
                                               segments := Compose.segments;
                                               savedBy := clientId st; timestamp := now st |}
                           | None => None
                           end;
                 downloaded := (try_download d download (join newline ls) st).2 |}.
Proof.
  pose proof (ExportFacts.export_lines st) as E.
  eexists. split; [exact E|].
  unfold onSave, exportText. rewrite E. cbn [fmap option_fmap option_map mbind option_bind].
  destruct (try_download d download _ st). reflexivity.
Qed.

(** X15. [onSave] always runs to its end, and the download does not wait
    for, or depend on, the database: unless [downloadText] itself throws,
    the browser is handed the file [fill-in-blanks-<stamp>.txt] holding the
    exported text, whether there is a database or not and however the push
    settles.  With a database, one object is pushed, holding the same text,
    its 30 lines, the template, this client's id and the time of the click;
    without one, nothing is pushed.  The blanks, the bindings and the
    timers are left as they were. *)
Theorem onSave_always_downloads (d : Stamp.date) (download : completion) (remote : settled)
    (st : page) :
  exists ls out,
    exportLinesArray st = Some ls
    /\ onSave d download remote st = Some out
    /\ (download = Returned ->
          downloaded out = Some (Stamp.download_name d, join newline ls))
    /\ (forall e, download = Threw e -> downloaded out = None)
    /\ (forall calls, db st = Some calls ->
          pushed out = Some {| text := join newline ls; lines := ls;
                               segments := Compose.segments;
                               savedBy := clientId st; timestamp := now st |})
    /\ (db st = None -> pushed out = None)
    /\ inputs (page_after out) = inputs st
    /\ value_of (page_after out) = value_of st
    /\ db (page_after out) = db st
    /\ timers (page_after out) = timers st.
Proof.
  destruct (onSave_unfold d download remote st) as (ls & E & Hs).
  eexists ls, _. split; [exact E|]. split; [exact Hs|].
  cbn [downloaded pushed page_after].
  destruct (try_download_frame d download (join newline ls) st) as (T1 & T2 & T3 & T4).
  destruct (await_save_frame remote (try_download d download (join newline ls) st).1)
    as (A1 & A2 & A3 & A4).
  repeat apply conj; try congruence.
  - intros ->. reflexivity.
  - intros e ->. reflexivity.
  - intros calls ->. reflexivity.
  - intros ->. reflexivity.
Qed.

(** X16. The status line [onSave] ends on is decided by the push alone.
    It reads [Downloaded. Firebase save failed (check rules).] exactly when
    there is a database and the push was rejected; in every other case it
    reads [Saved to Firebase and downloaded.], also when there is no
    database and nothing was pushed, and also when the download threw and
    only the console holds the failure. *)
Theorem onSave_final_status (d : Stamp.date) (download : completion) (remote : settled)
    (st : page) :
  exists out,
    onSave d download remote st = Some out
    /\ status (page_after out)
       = (match db st, remote with
          | Some _, Rejected _ => "Downloaded. Firebase save failed (check rules)."
          | _, _ => "Saved to Firebase and downloaded."
          end)
    /\ console (page_after out)
       = console st
         ++ (match download with
             | Returned => []
             | Threw e => ["Download failed: " +:+ e]
             end)
         ++ (match db st, remote with
             | Some _, Rejected e => ["Firebase save failed (download already done): " +:+ e]
             | _, _ => []
             end).
Proof.
  destruct (onSave_unfold d download remote st) as (ls & E & Hs).
  eexists. split; [exact Hs|]. cbn [page_after].
  destruct (try_download_frame d download (join newline ls) st) as (_ & _ & T3 & _).
  unfold await_save. rewrite T3.
  destruct (db st), remote, download; cbn; rewrite ?app_nil_r, <- ?app_assoc; split; reflexivity.
Qed.

End SaveFacts.

(** ** The status line *)

Module StatusFacts.
Import StatusLine.












End StatusFacts.

(** ** Debounced writes: every pattern of typing, several fields, reset *)

Module TypingFacts.
Import JsString Config Page Debounce.

Lemma armed_pending (l b : nat) (e : elt) (st : page) :
  armed l b e st <-> pending l b e (now st + 250) st.
Proof. reflexivity. Qed.

Lemma pending_wait (l b : nat) (e : elt) (due : Z) (d : nat) (st : page) :
  is_Some (db st) -> pending l b e due st -> (now st + Z.of_nat d < due)%Z ->
  is_Some (db (advance d st))
  /\ inputs (advance d st) = inputs st
  /\ value_of (advance d st) = value_of st
  /\ clientId (advance d st) = clientId st
  /\ now (advance d st) = (now st + Z.of_nat d)%Z
  /\ pending l b e due (advance d st)
  /\ sent_to l b (advance d st) = sent_to l b st.
Proof.
  intros Hdb Hp Hd.
  destruct (PageFacts.advance_spec l b d st Hdb)
    as (Hsome & Hi & Hv & Hc & Hn & Ht & news & Hnews & Hall).
  assert (Hdue : is_due (now st + Z.of_nat d)
                   {| t_line := l; t_blank := b; t_target := e; t_due := due |} = false).
  { unfold is_due. cbn [t_due]. apply Z.leb_gt. lia. }
  repeat apply conj; try assumption.
  - unfold pending. rewrite Ht, PageFacts.filter_comm, Hp. cbn [List.filter].
    rewrite Hdue. reflexivity.
  - assert (Hnone : List.filter (owned_by l b) (firing (now st + Z.of_nat d) (timers st)) = []).
    { apply Permutation_nil_r. rewrite PageFacts.firing_owned, Hp. cbn [List.filter].
      rewrite Hdue. reflexivity. }
    rewrite Hnone in Hall. inversion Hall; subst. rewrite Hnews, app_nil_r. reflexivity.
Qed.

Lemma pending_fire (l b : nat) (e : elt) (due : Z) (d : nat) (st : page) :
  is_Some (db st) -> pending l b e due st -> (due <= now st + Z.of_nat d)%Z ->
  is_Some (db (advance d st))
  /\ inputs (advance d st) = inputs st
  /\ value_of (advance d st) = value_of st
  /\ clientId (advance d st) = clientId st
  /\ now (advance d st) = (now st + Z.of_nat d)%Z
  /\ List.filter (owned_by l b) (timers (advance d st)) = []
  /\ exists r, sent_to l b (advance d st) = sent_to l b st ++ [r]
       /\ value r = value_of st e /\ editedBy r = clientId st.
Proof.
  intros Hdb Hp Hd.
  destruct (PageFacts.advance_spec l b d st Hdb)
    as (Hsome & Hi & Hv & Hc & Hn & Ht & news & Hnews & Hall).
  assert (Hdue : is_due (now st + Z.of_nat d)
                   {| t_line := l; t_blank := b; t_target := e; t_due := due |} = true).
  { unfold is_due. cbn [t_due]. apply Z.leb_le. lia. }
  repeat apply conj; try assumption.
  - rewrite Ht, PageFacts.filter_comm, Hp. cbn [List.filter]. rewrite Hdue. reflexivity.
  - assert (Hone : List.filter (owned_by l b) (firing (now st + Z.of_nat d) (timers st))
                   = [{| t_line := l; t_blank := b; t_target := e; t_due := due |}]).
    { apply Permutation_singleton_r. rewrite PageFacts.firing_owned, Hp. cbn [List.filter].
      rewrite Hdue. reflexivity. }
    rewrite Hone in Hall. inversion Hall as [| t r ts rs [Hval Hed] Hrest]; subst.
    inversion Hrest; subst. exists r. rewrite Hnews. auto.
Qed.

Lemma none_pending_wait (l b : nat) (d : nat) (st : page) :
  is_Some (db st) -> List.filter (owned_by l b) (timers st) = [] ->
  List.filter (owned_by l b) (timers (advance d st)) = []
  /\ sent_to l b (advance d st) = sent_to l b st.
Proof.
  intros Hdb Hp.
  destruct (PageFacts.advance_spec l b d st Hdb)
    as (Hsome & Hi & Hv & Hc & Hn & Ht & news & Hnews & Hall).
  split.
  - rewrite Ht, PageFacts.filter_comm, Hp. reflexivity.
  - assert (Hnone : List.filter (owned_by l b) (firing (now st + Z.of_nat d) (timers st)) = []).
    { apply Permutation_nil_r. rewrite PageFacts.firing_owned, Hp. reflexivity. }
    rewrite Hnone in Hall. inversion Hall; subst. rewrite Hnews, app_nil_r. reflexivity.
Qed.

Lemma sent_to_db (l b : nat) (st st' : page) : db st' = db st -> sent_to l b st' = sent_to l b st.
Proof. unfold sent_to. now intros ->. Qed.

Lemma type_all_spec (l b : nat) (e : elt) (rest : list (nat * string)) :
  forall (st : page) (v : string),
    is_Some (db st) -> input_at st l b = Some e -> armed l b e st -> value_of st e = v ->
    exists news,
      is_Some (db (type_all l b rest st))
      /\ inputs (type_all l b rest st) = inputs st
      /\ clientId (type_all l b rest st) = clientId st
      /\ armed l b e (type_all l b rest st)
      /\ sent_to l b (type_all l b rest st) = sent_to l b st ++ news
      /\ map value news ++ [value_of (type_all l b rest st) e] = settled_values v rest
      /\ Forall (fun r => editedBy r = clientId st) news.
Proof.
  induction rest as [|[gap v'] rest IH]; intros st v Hdb Hin Harm Hv; cbn [type_all settled_values].
  - exists []. rewrite app_nil_r. cbn [map app]. rewrite Hv. repeat split; auto.
  - destruct (Nat.leb_spec 250 gap) as [Hlong | Hshort].
    + destruct (pending_fire l b e (now st + 250) gap st Hdb Harm ltac:(lia))
        as (Hdb1 & Hi1 & Hv1 & Hc1 & _ & _ & r & Hs1 & Hr & Hed).
      assert (Hin1 : input_at (advance gap st) l b = Some e)
        by (rewrite (PageFacts.input_at_inputs _ _ _ _ Hi1); exact Hin).
      destruct (PageFacts.on_input_spec l b v' e (advance gap st) Hin1)
        as (Hi2 & Hd2 & Hc2 & _ & Hv2 & Harm2).
      assert (Hdb2 : is_Some (db (on_input l b v' (advance gap st)))) by (rewrite Hd2; exact Hdb1).
      assert (Hin2 : input_at (on_input l b v' (advance gap st)) l b = Some e)
        by (rewrite (PageFacts.input_at_inputs _ _ _ _ Hi2); exact Hin1).
      destruct (IH _ v' Hdb2 Hin2 Harm2 Hv2) as (news & H1 & H2 & H3 & H4 & H5 & H6 & H7).
      exists (r :: news). repeat apply conj; try assumption; try congruence.
      * rewrite H5, (sent_to_db _ _ _ _ Hd2), Hs1, <- app_assoc. reflexivity.
      * cbn [map app]. rewrite H6, Hr, Hv. reflexivity.
      * constructor; [exact Hed|]. eapply Forall_impl; [exact H7|].
        cbn beta. intros r' Hr'. congruence.
    + destruct (pending_wait l b e (now st + 250) gap st Hdb Harm ltac:(lia))
        as (Hdb1 & Hi1 & Hv1 & Hc1 & _ & _ & Hs1).
      assert (Hin1 : input_at (advance gap st) l b = Some e)
        by (rewrite (PageFacts.input_at_inputs _ _ _ _ Hi1); exact Hin).
      destruct (PageFacts.on_input_spec l b v' e (advance gap st) Hin1)
        as (Hi2 & Hd2 & Hc2 & _ & Hv2 & Harm2).
      assert (Hdb2 : is_Some (db (on_input l b v' (advance gap st)))) by (rewrite Hd2; exact Hdb1).
      assert (Hin2 : input_at (on_input l b v' (advance gap st)) l b = Some e)
        by (rewrite (PageFacts.input_at_inputs _ _ _ _ Hi2); exact Hin1).
      destruct (IH _ v' Hdb2 Hin2 Harm2 Hv2) as (news & H1 & H2 & H3 & H4 & H5 & H6 & H7).
      exists news. repeat apply conj; try assumption; try congruence.
      * rewrite H5, (sent_to_db _ _ _ _ Hd2), Hs1. reflexivity.
      * eapply Forall_impl; [exact H7|]. cbn beta. intros r' Hr'. congruence.
Qed.

(** X19. What a field sends, for every pattern of typing: for a first edit
    followed by any run of edits at any gaps, and then 250 ms or more of
    rest, the writes added for the field are, in order, the texts the field
    held each time 250 ms or more passed before the next edit, and last the
    final text; each is signed with this client's id. *)
Theorem debounce_sends_settled_texts (st : page) (calls : list db_call) (l b : nat) (e : elt)
    (v1 : string) (rest : list (nat * string)) (quiet : nat) :
  db st = Some calls ->
  input_at st l b = Some e ->
  250 <= quiet ->
  exists news,
    sent_to l b (advance quiet (type_all l b rest (on_input l b v1 st)))
      = sent_to l b st ++ news
    /\ map value news = settled_values v1 rest
    /\ Forall (fun r => editedBy r = clientId st) news.
Proof.
  intros Hdb Hin Hq.
  destruct (PageFacts.on_input_spec l b v1 e st Hin) as (Hi0 & Hd0 & Hc0 & _ & Hv0 & Harm0).
  assert (Hdb0 : is_Some (db (on_input l b v1 st))) by (rewrite Hd0, Hdb; eauto).
  assert (Hin0 : input_at (on_input l b v1 st) l b = Some e)
    by (rewrite (PageFacts.input_at_inputs _ _ _ _ Hi0); exact Hin).
  destruct (type_all_spec l b e rest _ v1 Hdb0 Hin0 Harm0 Hv0)
    as (news & H1 & H2 & H3 & H4 & H5 & H6 & H7).
  destruct (pending_fire l b e _ quiet _ H1 H4 ltac:(lia))
    as (_ & _ & _ & _ & _ & _ & r & Hs & Hr & Hed).
  exists (news ++ [r]). repeat apply conj.
  - rewrite Hs, H5, (sent_to_db _ _ _ _ Hd0), <- app_assoc. reflexivity.
  - rewrite map_app. cbn [map]. rewrite Hr. exact H6.
  - apply Forall_app. split.
    + eapply Forall_impl; [exact H7|]. cbn beta. intros r' Hr'. congruence.
    + constructor; [congruence | constructor].
Qed.

Lemma debounce_sends_settled_texts_witness :
  exists news,
    sent_to 2 1 (advance 250 (type_all 2 1 [(100, "ow"); (400, "owl"); (30, "owls")]
                                (on_input 2 1 "o" demo_page)))
      = sent_to 2 1 demo_page ++ news
    /\ map value news = ["ow"; "owls"].
Proof.
  destruct (debounce_sends_settled_texts demo_page (default [] (db demo_page)) 2 1 7 "o"
              [(100, "ow"); (400, "owl"); (30, "owls")] 250) as (news & H1 & H2 & _).
  - vm_compute. reflexivity.
  - vm_compute. reflexivity.
  - lia.
  - exists news. split; [exact H1 | exact H2].
Defined.

Lemma owned_by_other (l b l' b' : nat) (t : timer) :
  (l, b) <> (l', b') -> owned_by l' b' t = true -> owned_by l b t = false.
Proof.
  unfold owned_by. intros Hne H. apply andb_true_iff in H as [H1 H2].
  apply Nat.eqb_eq in H1, H2.
  destruct (Nat.eqb_spec (t_line t) l), (Nat.eqb_spec (t_blank t) b); try reflexivity.
  exfalso. apply Hne. congruence.
Qed.

Lemma filter_keep {A} (f g : A -> bool) (l : list A) :
  (forall x, f x = true -> g x = true) ->
  List.filter f (List.filter g l) = List.filter f l.
Proof.
  intros H. induction l as [|x l IH]; [reflexivity|]. cbn [List.filter].
  destruct (g x) eqn:Eg; cbn [List.filter].
  - now rewrite IH.
  - destruct (f x) eqn:Ef; [rewrite (H x Ef) in Eg; discriminate | exact IH].
Qed.

Lemma on_input_other (l b l' b' : nat) (e' : elt) (v' : string) (st : page) :
  (l, b) <> (l', b') -> input_at st l' b' = Some e' ->
  List.filter (owned_by l b) (timers (on_input l' b' v' st))
  = List.filter (owned_by l b) (timers st)
  /\ forall e, e <> e' -> value_of (on_input l' b' v' st) e = value_of st e.
Proof.
  intros Hne Hin. unfold on_input. rewrite Hin.
  cbn [timers with_timers hold with_value_of value_of now].
  split.
  - rewrite List.filter_app. cbn [List.filter].
    assert (Ho : owned_by l b {| t_line := l'; t_blank := b'; t_target := e';
                                 t_due := now st + 250 |} = false).
    { apply (owned_by_other l b l' b'); [exact Hne|].
      unfold owned_by. cbn. now rewrite !Nat.eqb_refl. }
    rewrite Ho, app_nil_r.
    apply filter_keep. intros t Ht.
    destruct (owned_by l' b' t) eqn:E; [|reflexivity].
    assert ((l', b') <> (l, b)) by congruence.
    rewrite (owned_by_other l' b' l b t) in E by assumption. discriminate.
  - intros e He. unfold insert, fn_insert. destruct (decide (e' = e)); congruence.
Qed.

(** X20. Each field has a debounce of its own.  When one field is edited
    and, less than 250 ms later, another field with another input is
    edited, the second edit neither cancels nor delays nor alters the first
    field's write: once both timers have run, the first field has sent
    exactly one write with its own text and the second field exactly one
    with its text. *)
Theorem debounce_is_per_field (st : page) (calls : list db_call) (l b l' b' : nat)
    (e e' : elt) (v v' : string) (gap quiet : nat) :
  db st = Some calls ->
  input_at st l b = Some e -> input_at st l' b' = Some e' ->
  (l, b) <> (l', b') -> e <> e' ->
  List.filter (owned_by l' b') (timers st) = [] ->
  gap < 250 -> 250 <= quiet ->
  let final := advance quiet (on_input l' b' v' (advance gap (on_input l b v st))) in
  (exists r, sent_to l b final = sent_to l b st ++ [r] /\ value r = v)
  /\ (exists r', sent_to l' b' final = sent_to l' b' st ++ [r'] /\ value r' = v').
Proof.
  intros Hdb Hin Hin' Hne Hee Hidle Hgap Hq. cbv zeta.
  destruct (PageFacts.on_input_spec l b v e st Hin) as (Hi1 & Hd1 & _ & Hn1 & Hv1 & Harm1).
  assert (Hne' : (l', b') <> (l, b)) by congruence.
  destruct (on_input_other l' b' l b e v st Hne' Hin) as [Hidle1 _].
  rewrite Hidle in Hidle1.
  set (st1 := on_input l b v st) in *.
  assert (Hdb1 : is_Some (db st1)) by (rewrite Hd1, Hdb; eauto).
  destruct (pending_wait l b e (now st1 + 250) gap st1 Hdb1 Harm1 ltac:(lia))
    as (Hdb2 & Hi2 & Hv2 & _ & Hn2 & Hp2 & Hs2).
  destruct (none_pending_wait l' b' gap st1 Hdb1 Hidle1) as [_ Hs2'].
  set (st2 := advance gap st1) in *.
  assert (Hin2' : input_at st2 l' b' = Some e').
  { rewrite (PageFacts.input_at_inputs _ _ _ _ Hi2), (PageFacts.input_at_inputs _ _ _ _ Hi1).
    exact Hin'. }
  destruct (PageFacts.on_input_spec l' b' v' e' st2 Hin2') as (Hi3 & Hd3 & _ & Hn3 & Hv3 & Harm3).
  destruct (on_input_other l b l' b' e' v' st2 Hne Hin2') as [Hp3 Hval3].
  set (st3 := on_input l' b' v' st2) in *.
  assert (Hdb3 : is_Some (db st3)) by (rewrite Hd3; exact Hdb2).
  assert (Hpend3 : pending l b e (now st1 + 250) st3).
  { unfold pending. rewrite Hp3. exact Hp2. }
  destruct (pending_fire l b e (now st1 + 250) quiet st3 Hdb3 Hpend3 ltac:(lia))
    as (_ & _ & _ & _ & _ & _ & r & Hs & Hr & _).
  destruct (pending_fire l' b' e' (now st3 + 250) quiet st3 Hdb3 Harm3 ltac:(lia))
    as (_ & _ & _ & _ & _ & _ & r' & Hs' & Hr' & _).
  split.
  - exists r. split.
    + rewrite Hs, (sent_to_db _ _ _ _ Hd3), Hs2, (sent_to_db _ _ _ _ Hd1). reflexivity.
    + rewrite Hr, (Hval3 e Hee), Hv2. exact Hv1.
  - exists r'. split.
    + rewrite Hs', (sent_to_db _ _ _ _ Hd3), Hs2', (sent_to_db _ _ _ _ Hd1). reflexivity.
    + rewrite Hr'. exact Hv3.
Qed.

Lemma debounce_is_per_field_witness :
  (exists r, sent_to 2 1 (advance 250 (on_input 4 0 "fox" (advance 100 (on_input 2 1 "owl" demo_page))))
             = sent_to 2 1 demo_page ++ [r] /\ value r = "owl")
  /\ (exists r', sent_to 4 0 (advance 250 (on_input 4 0 "fox" (advance 100 (on_input 2 1 "owl" demo_page))))
             = sent_to 4 0 demo_page ++ [r'] /\ value r' = "fox").
Proof.
  apply (debounce_is_per_field demo_page (default [] (db demo_page)) 2 1 4 0 7 12 "owl" "fox" 100 250).
  - vm_compute. reflexivity.
  - vm_compute. reflexivity.
  - vm_compute. reflexivity.
  - discriminate.
  - discriminate.
  - vm_compute. reflexivity.
  - lia.
  - lia.
Defined.

End TypingFacts.

(** ** Reset: what is sent, and a write still waiting *)

Module ResetFacts.
Import JsString Config Page Debounce.

Lemma clear_blanks_frame (i : nat) (bs : list nat) (st : page) :
  activeElement (foldl (clear_blank i) st bs) = activeElement st
  /\ clientId (foldl (clear_blank i) st bs) = clientId st
  /\ timers (foldl (clear_blank i) st bs) = timers st
  /\ now (foldl (clear_blank i) st bs) = now st
  /\ status (foldl (clear_blank i) st bs) = status st.
Proof.
  revert st; induction bs as [|b bs IH]; intros st; cbn [foldl]; [repeat split|].
  destruct (IH (clear_blank i st b)) as (H1 & H2 & H3 & H4 & H5).
  destruct (PageFacts.clear_blank_frame i st b) as (F1 & _ & F3 & F4 & F5 & F6 & _).
  repeat split; congruence.
Qed.

Lemma clear_lines_frame (ls : list nat) (st : page) :
  activeElement (foldl clear_line st ls) = activeElement st
  /\ clientId (foldl clear_line st ls) = clientId st
  /\ timers (foldl clear_line st ls) = timers st
  /\ now (foldl clear_line st ls) = now st
  /\ status (foldl clear_line st ls) = status st.
Proof.
  revert st; induction ls as [|i ls IH]; intros st; cbn [foldl]; [repeat split|].
  destruct (IH (clear_line st i)) as (H1 & H2 & H3 & H4 & H5).
  destruct (clear_blanks_frame i (seq 0 BLANKS_PER_LINE) st) as (F1 & F2 & F3 & F4 & F5).
  fold (clear_line st i) in F1, F2, F3, F4, F5.
  repeat split; congruence.
Qed.

Lemma clear_all_frame (st : page) :
  activeElement (clear_all st) = activeElement st
  /\ clientId (clear_all st) = clientId st
  /\ timers (clear_all st) = timers st
  /\ now (clear_all st) = now st
  /\ status (clear_all st) = status st.
Proof. apply clear_lines_frame. Qed.

Lemma reset_remote_frame (remote : settled) (c : page) :
  activeElement (reset_remote remote c) = activeElement c
  /\ clientId (reset_remote remote c) = clientId c
  /\ timers (reset_remote remote c) = timers c
  /\ now (reset_remote remote c) = now c
  /\ db (reset_remote remote c)
     = (fun calls => calls ++ [RefUpdate (reset_updates c)]) <$> db c.
Proof.
  unfold reset_remote. destruct (db c) eqn:E, remote; repeat split; try reflexivity; exact E.
Qed.

Lemma reset_updates_env (st st' : page) :
  clientId st' = clientId st -> now st' = now st -> reset_updates st' = reset_updates st.
Proof. unfold reset_updates. now intros -> ->. Qed.

Lemma onReset_frame (remote : settled) (st : page) :
  inputs (onReset true remote st) = inputs st
  /\ activeElement (onReset true remote st) = activeElement st
  /\ clientId (onReset true remote st) = clientId st
  /\ timers (onReset true remote st) = timers st
  /\ now (onReset true remote st) = now st
  /\ db (onReset true remote st)
     = (fun calls => calls ++ [RefUpdate (reset_updates st)]) <$> db st.
Proof.
  rewrite PageFacts.onReset_unfold.
  destruct (clear_all_frame st) as (C1 & C2 & C3 & C4 & _).
  destruct (PageFacts.clear_all_spec st) as (Ci & Cd & _).
  pose proof (reset_updates_env st (clear_all st) C2 C4) as Hu.
  revert C1 C2 C3 C4 Ci Cd Hu. generalize (clear_all st). intros c C1 C2 C3 C4 Ci Cd Hu.
  destruct (reset_remote_frame remote c) as (R1 & R2 & R3 & R4 & R5).
  destruct (PageFacts.reset_remote_local remote c) as [Ri _].
  repeat split; try congruence.
  rewrite R5, Cd, Hu. reflexivity.
Qed.

Lemma reset_updates_elem (st : page) (p : string) (r : blank_record) :
  (p, r) ∈ reset_updates st
  <-> exists i b, i < LINES /\ b < BLANKS_PER_LINE /\ p = pathFor i b
        /\ r = {| value := ""; editedBy := clientId st; updatedAt := now st |}.
Proof.
  unfold reset_updates. rewrite list_elem_of_bind. split.
  - intros (i & Hin & Hi). apply list_elem_of_bind in Hin as (b & Hin & Hb).
    apply list_elem_of_singleton in Hin. injection Hin as -> ->.
    apply elem_of_seq in Hi, Hb. exists i, b. repeat split; lia.
  - intros (i & b & Hi & Hb & -> & ->). exists i. split; [|apply elem_of_seq; lia].
    apply list_elem_of_bind. exists b. split; [constructor | apply elem_of_seq; lia].
Qed.

Lemma bind_length_const {A B} (f : A -> list B) (n : nat) (l : list A) :
  (forall x, length (f x) = n) -> length (l ≫= f) = length l * n.
Proof.
  intros H. induction l as [|x l IH]; [reflexivity|].
  cbn [mbind list_bind]. change (length (f x ++ (l ≫= f)) = length (x :: l) * n).
  rewrite length_app, H, IH. cbn [length]. lia.
Qed.

Lemma reset_updates_shape (st : page) :
  length (reset_updates st) = LINES * BLANKS_PER_LINE
  /\ NoDup (reset_updates st).*1.
Proof.
  split.
  - unfold reset_updates.
    rewrite (bind_length_const _ BLANKS_PER_LINE); [now rewrite length_seq|].
    intros i. rewrite (bind_length_const _ 1); [now rewrite length_seq, Nat.mul_1_r | reflexivity].
  - unfold reset_updates.
    assert (E : forall (l : list nat) (f : nat -> list (string * blank_record)),
                  (l ≫= f).*1 = l ≫= (fun x => (f x).*1)).
    { intros l f. induction l as [|x l IH]; [reflexivity|].
      change ((f x ++ (l ≫= f)).*1 = (f x).*1 ++ (l ≫= (fun x => (f x).*1))).
      now rewrite fmap_app, IH. }
    rewrite E. apply NoDup_bind.
    + intros i i' p _ _ Hp Hp'. rewrite E in Hp, Hp'.
      apply list_elem_of_bind in Hp as (b & Hp & _), Hp' as (b' & Hp' & _).
      cbn in Hp, Hp'. apply list_elem_of_singleton in Hp, Hp'. subst p.
      now apply PageFacts.pathFor_inj in Hp' as [-> _].
    + intros i _. rewrite E. apply NoDup_bind.
      * intros b b' p _ _ Hp Hp'. cbn in Hp, Hp'.
        apply list_elem_of_singleton in Hp, Hp'. subst p.
        now apply PageFacts.pathFor_inj in Hp' as [_ ->].
      * intros b _. cbn. apply NoDup_singleton.
      * apply NoDup_seq.
    + apply NoDup_seq.
Qed.

(** X21. With a database, a confirmed reset makes exactly one call on it:
    one batched [update] whose keys are the paths of the 90 fields, each
    once, every value being the empty text signed with this client's id and
    the time of the click.  Bindings, focus and pending timers are left as
    they were; a reset that is not confirmed changes nothing at all. *)
Theorem onReset_sends_one_update (st : page) (calls : list db_call) (remote : settled) :
  db st = Some calls ->
  db (onReset true remote st) = Some (calls ++ [RefUpdate (reset_updates st)])
  /\ length (reset_updates st) = LINES * BLANKS_PER_LINE
  /\ NoDup (reset_updates st).*1
  /\ (forall p r, (p, r) ∈ reset_updates st
        <-> exists i b, i < LINES /\ b < BLANKS_PER_LINE /\ p = pathFor i b
              /\ r = {| value := ""; editedBy := clientId st; updatedAt := now st |})
  /\ inputs (onReset true remote st) = inputs st
  /\ activeElement (onReset true remote st) = activeElement st
  /\ timers (onReset true remote st) = timers st
  /\ onReset false remote st = st.
Proof.
  intros Hdb.
  destruct (onReset_frame remote st) as (H1 & H2 & H3 & H4 & H5 & H6).
  destruct (reset_updates_shape st) as [Hl Hn].
  repeat apply conj; try assumption.
  - rewrite H6, Hdb. reflexivity.
  - intros p r. apply reset_updates_elem.
  - reflexivity.
Qed.

Lemma onReset_sends_one_update_witness :
  db (onReset true Fulfilled demo_page)
  = Some (default [] (db demo_page) ++ [RefUpdate (reset_updates demo_page)]).
Proof.
  refine (proj1 (onReset_sends_one_update demo_page (default [] (db demo_page)) Fulfilled _)).
  vm_compute. reflexivity.
Defined.

Lemma onReset_clears_bound (remote : settled) (st : page) (l b : nat) (e : elt) :
  input_at st l b = Some e -> l < LINES -> b < BLANKS_PER_LINE ->
  value_of (onReset true remote st) e = "".
Proof.
  intros Hin Hl Hb. rewrite PageFacts.onReset_unfold.
  destruct (PageFacts.clear_all_spec st) as (Ci & _ & Hc).
  specialize (Hc l b Hl Hb).
  revert Ci Hc. generalize (clear_all st). intros c Ci Hc.
  destruct (PageFacts.reset_remote_local remote c) as [_ Rv]. rewrite Rv.
  unfold valueAt in Hc.
  rewrite (PageFacts.input_at_inputs _ _ _ _ Ci), Hin in Hc. exact Hc.
Qed.

Lemma onReset_sent (remote : settled) (st : page) (l b : nat) :
  sent_to l b (onReset true remote st) = sent_to l b st.
Proof.
  destruct (onReset_frame remote st) as (_ & _ & _ & _ & _ & Hd).
  revert Hd. generalize (onReset true remote st). intros st' Hd.
  unfold sent_to. rewrite Hd. destruct (db st) as [cs|]; [|reflexivity].
  change (sets_at (pathFor l b) (cs ++ [RefUpdate (reset_updates st)])
          = sets_at (pathFor l b) cs).
  rewrite PageFacts.sets_at_app. apply app_nil_r.
Qed.

(** A pending write that fires on a page [st3] which has the timers and
    the clock of the page [st2] on which it was pending. *)
Lemma pending_fires_later (st2 st3 : page) (l b : nat) (e : elt) (due : Z) (quiet : nat) :
  is_Some (db st3) -> timers st3 = timers st2 -> now st3 = now st2 ->
  pending l b e due st2 -> (due <= now st2 + Z.of_nat quiet)%Z ->
  inputs (advance quiet st3) = inputs st3
  /\ value_of (advance quiet st3) = value_of st3
  /\ List.filter (owned_by l b) (timers (advance quiet st3)) = []
  /\ exists r, sent_to l b (advance quiet st3) = sent_to l b st3 ++ [r]
       /\ value r = value_of st3 e.
Proof.
  intros Hdb Ht Hn Hp Hdue.
  assert (Hp3 : pending l b e due st3) by (unfold pending; rewrite Ht; exact Hp).
  destruct (TypingFacts.pending_fire l b e due quiet st3 Hdb Hp3 ltac:(lia))
    as (_ & Hi4 & Hv4 & _ & _ & Hnone & r & Hs & Hr & _).
  repeat split; try assumption. exists r. split; assumption.
Qed.

(** X22. A reset is not undone by an edit still waiting in its debounce.
    When a field is edited and the reset is confirmed before the field's
    250 ms have passed, the write that is still pending fires afterwards
    and reads the input at that moment: it sends the empty text the reset
    left, not the text that was typed, and the field stays empty. *)
Theorem reset_outlives_pending_write (st : page) (calls : list db_call) (l b : nat) (e : elt)
    (v : string) (gap quiet : nat) (remote : settled) :
  db st = Some calls ->
  input_at st l b = Some e -> l < LINES -> b < BLANKS_PER_LINE ->
  gap < 250 -> 250 <= gap + quiet ->
  let final := advance quiet (onReset true remote (advance gap (on_input l b v st))) in
  (exists r, sent_to l b final = sent_to l b st ++ [r] /\ value r = "")
  /\ valueAt final l b = ""
  /\ List.filter (owned_by l b) (timers final) = [].
Proof.
  intros Hdb Hin Hl Hb Hgap Hq. cbv zeta.
  destruct (PageFacts.on_input_spec l b v e st Hin) as (Hi1 & Hd1 & _ & Hn1 & Hv1 & Harm1).
  assert (Hdb1 : is_Some (db (on_input l b v st))) by (rewrite Hd1, Hdb; eauto).
  pose proof (TypingFacts.sent_to_db l b _ _ Hd1) as Hs1.
  assert (Hin1 : input_at (on_input l b v st) l b = Some e)
    by (rewrite (PageFacts.input_at_inputs _ _ _ _ Hi1); exact Hin).
  clear Hi1 Hd1 Hv1 Hdb Hin.
  revert Hn1 Harm1 Hdb1 Hs1 Hin1. generalize (on_input l b v st).
  intros st1 Hn1 Harm1 Hdb1 Hs1 Hin1.
  destruct (TypingFacts.pending_wait l b e (now st1 + 250) gap st1 Hdb1 Harm1 ltac:(lia))
    as (Hdb2 & Hi2 & _ & _ & Hn2 & Hp2 & Hs2).
  assert (Hin2 : input_at (advance gap st1) l b = Some e)
    by (rewrite (PageFacts.input_at_inputs _ _ _ _ Hi2); exact Hin1).
  clear Hi2 Harm1 Hdb1 Hin1.
  revert Hdb2 Hn2 Hp2 Hs2 Hin2. generalize (advance gap st1).
  intros st2 Hdb2 Hn2 Hp2 Hs2 Hin2.
  destruct (onReset_frame remote st2) as (Hi3 & _ & _ & Ht3 & Hn3 & Hd3).
  pose proof (onReset_clears_bound remote st2 l b e Hin2 Hl Hb) as Hv3.
  pose proof (onReset_sent remote st2 l b) as Hs3.
  assert (Hdb3 : is_Some (db (onReset true remote st2))).
  { rewrite Hd3. destruct Hdb2 as [cs ->]. cbn. eauto. }
  clear Hd3.
  revert Hi3 Ht3 Hn3 Hv3 Hs3 Hdb3. generalize (onReset true remote st2).
  intros st3 Hi3 Ht3 Hn3 Hv3 Hs3 Hdb3.
  destruct (pending_fires_later st2 st3 l b e (now st1 + 250) quiet Hdb3 Ht3 Hn3 Hp2
              ltac:(lia)) as (Hi4 & Hv4 & Hnone & r & Hs & Hr).
  split; [|split].
  - exists r. split.
    + rewrite Hs, Hs3, Hs2, Hs1. reflexivity.
    + rewrite Hr. exact Hv3.
  - unfold valueAt.
    rewrite (PageFacts.input_at_inputs _ _ _ _ Hi4), (PageFacts.input_at_inputs _ _ _ _ Hi3), Hin2.
    rewrite Hv4. exact Hv3.
  - exact Hnone.
Qed.

Lemma reset_outlives_pending_write_witness :
  exists r,
    sent_to 2 1 (advance 200 (onReset true Fulfilled (advance 100 (on_input 2 1 "owl" demo_page))))
      = sent_to 2 1 demo_page ++ [r]
    /\ value r = "".
Proof.
  refine (proj1 (reset_outlives_pending_write demo_page (default [] (db demo_page)) 2 1 7 "owl"
                   100 200 Fulfilled _ _ _ _ _ _)).
  - vm_compute. reflexivity.
  - vm_compute. reflexivity.
  - unfold LINES. lia.
  - unfold BLANKS_PER_LINE. lia.
  - lia.
  - lia.
Defined.

End ResetFacts.

(** ** Invariants of a session *)

Module SessionFacts.
Import JsString Config Page Layout Session.

Lemma fmap_app_nil (o : option (list db_call)) : o = (fun calls => calls ++ []) <$> o.
Proof. destruct o; cbn; [now rewrite app_nil_r | reflexivity]. Qed.

Lemma fire_calls (id : string) (st : page) (t : timer) :
  clientId st = id -> t_line t < LINES -> t_blank t < BLANKS_PER_LINE ->
  exists c, db (fire st t) = (fun calls => calls ++ [c]) <$> db st /\ own_write id c.
Proof.
  intros Hid Hl Hb. unfold fire, writeBlank. cbn [db with_now clientId now value_of].
  eexists (RefSet (pathFor (t_line t) (t_blank t)) _). split.
  - destruct (db st) eqn:E; cbn [db with_db with_now fmap option_fmap option_map];
      [reflexivity | exact E].
  - cbn [own_write editedBy]. split; [|exact Hid]. exists (t_line t), (t_blank t). auto.
Qed.

Lemma fire_all_calls (id : string) (ts : list timer) (st : page) :
  clientId st = id ->
  Forall (fun t => t_line t < LINES /\ t_blank t < BLANKS_PER_LINE) ts ->
  inputs (foldl fire st ts) = inputs st
  /\ clientId (foldl fire st ts) = clientId st
  /\ timers (foldl fire st ts) = timers st
  /\ exists extra, db (foldl fire st ts) = (fun calls => calls ++ extra) <$> db st
       /\ Forall (own_write id) extra.
Proof.
  revert st; induction ts as [|t ts IH]; intros st Hid Hts; cbn [foldl].
  - repeat split. exists []. split; [apply fmap_app_nil | constructor].
  - inversion Hts as [|? ? [Hl Hb] Hts']; subst.
    destruct (PageFacts.fire_frame st t) as (F1 & _ & F3 & F4).
    destruct (fire_calls (clientId st) st t eq_refl Hl Hb) as (c & Hc & Hown).
    destruct (IH (fire st t) F3 Hts') as (H1 & H2 & H3 & extra & Hd & Hex).
    repeat split; try congruence.
    exists (c :: extra). split; [|constructor; assumption].
    rewrite Hd, Hc. destruct (db st); cbn; [|reflexivity]. now rewrite <- app_assoc.
Qed.

Lemma advance_calls (id : string) (d : nat) (st : page) :
  clientId st = id -> timers_on_grid st ->
  inputs (advance d st) = inputs st
  /\ clientId (advance d st) = clientId st
  /\ timers_on_grid (advance d st)
  /\ exists extra, db (advance d st) = (fun calls => calls ++ extra) <$> db st
       /\ Forall (own_write id) extra.
Proof.
  intros Hid Hgrid. unfold advance, timers_on_grid in *.
  cbn [inputs clientId timers db with_now].
  set (deadline := (now st + Z.of_nat d)%Z).
  set (st0 := with_timers (List.filter (fun t => negb (is_due deadline t)) (timers st)) st).
  assert (Hdue : Forall (fun t => t_line t < LINES /\ t_blank t < BLANKS_PER_LINE)
                   (firing deadline (timers st))).
  { rewrite List.Forall_forall in Hgrid |- *. intros t Ht. apply Hgrid.
    unfold firing in Ht. eapply Permutation_in in Ht; [|apply sort_Permutation].
    now apply filter_In in Ht as [Ht _]. }
  destruct (fire_all_calls id (firing deadline (timers st)) st0 Hid Hdue)
    as (H1 & H2 & H3 & extra & Hd & Hex).
  repeat split; try assumption.
  - rewrite H3. unfold st0. cbn [timers with_timers].
    rewrite List.Forall_forall in Hgrid |- *. intros t Ht. apply Hgrid.
    now apply filter_In in Ht as [Ht _].
  - exists extra. split; assumption.
Qed.

Lemma on_input_calls (l b : nat) (v : string) (st : page) :
  laid_out st -> timers_on_grid st ->
  inputs (on_input l b v st) = inputs st
  /\ clientId (on_input l b v st) = clientId st
  /\ timers_on_grid (on_input l b v st)
  /\ db (on_input l b v st) = db st.
Proof.
  intros Hlay Hgrid. unfold on_input. destruct (input_at st l b) as [e|] eqn:He.
  - cbn [inputs clientId db with_timers hold with_value_of]. repeat split.
    unfold timers_on_grid in *. cbn [timers with_timers hold with_value_of now].
    apply Forall_app. split.
    + rewrite List.Forall_forall in Hgrid |- *. intros t Ht. apply Hgrid.
      now apply filter_In in Ht as [Ht _].
    + constructor; [|constructor]. cbn [t_line t_blank].
      rewrite Hlay in He. unfold grid in He.
      destruct (Nat.ltb_spec l LINES), (Nat.ltb_spec b BLANKS_PER_LINE);
        cbn [andb] in He; try discriminate. split; assumption.
  - repeat split; assumption.
Qed.

Lemma onSave_page (d : Stamp.date) (download : Save.completion) (remote : settled) (st : page) :
  let st' := match Save.onSave d download remote st with
             | Some out => Save.page_after out
             | None => st
             end in
  inputs st' = inputs st /\ clientId st' = clientId st /\ timers st' = timers st
  /\ db st' = db st.
Proof.
  cbv zeta. destruct (SaveFacts.onSave_unfold d download remote st) as (ls & _ & ->).
  cbn [Save.page_after]. unfold Save.await_save, Save.try_download.
  destruct download; cbn [fst db setStatus console_error with_status with_console];
    destruct (db st) eqn:E, remote; repeat split; try reflexivity; try exact E.
Qed.

Lemma laid_out_inputs (st st' : page) :
  inputs st' = inputs st -> laid_out st -> laid_out st'.
Proof. intros H Hl i b. rewrite (PageFacts.input_at_inputs _ _ _ _ H). apply Hl. Qed.

Lemma reset_updates_own (st : page) :
  Forall (fun pr => field_path pr.1 /\ value pr.2 = "" /\ editedBy pr.2 = clientId st)
         (reset_updates st).
Proof.
  rewrite Forall_forall. intros [p r] H. apply ResetFacts.reset_updates_elem in H
    as (i & b & Hi & Hb & -> & ->).
  cbn [fst snd value editedBy]. repeat split. exists i, b. auto.
Qed.

Lemma react_sound (id : string) (st : page) (ev : event) :
  laid_out st -> clientId st = id -> timers_on_grid st ->
  laid_out (react st ev) /\ clientId (react st ev) = id /\ timers_on_grid (react st ev)
  /\ exists extra, db (react st ev) = (fun calls => calls ++ extra) <$> db st
       /\ Forall (own_write id) extra.
Proof.
  intros Hlay Hid Hgrid. destruct ev as [l b v | d | l snap | e | confirmed remote | d dl remote];
    cbn [react].
  - destruct (on_input_calls l b v st Hlay Hgrid) as (H1 & H2 & H3 & H4).
    repeat split; [eapply laid_out_inputs; eauto | congruence | assumption |].
    exists []. split; [rewrite H4; apply fmap_app_nil | constructor].
  - destruct (advance_calls id d st Hid Hgrid) as (H1 & H2 & H3 & H4).
    repeat split; [eapply laid_out_inputs; eauto | congruence | assumption | exact H4].
  - destruct (RemoteFacts.applyRemote_cases st l snap) as [-> | (z & e & v & _ & _ & _ & ->)].
    + repeat split; try assumption. exists []. split; [apply fmap_app_nil | constructor].
    + repeat split; try assumption. exists []. split; [apply fmap_app_nil | constructor].
  - repeat split; try assumption. exists []. split; [apply fmap_app_nil | constructor].
  - destruct confirmed.
    + destruct (ResetFacts.onReset_frame remote st) as (H1 & _ & H3 & H4 & _ & H6).
      repeat split; [eapply laid_out_inputs; eauto | congruence | |].
      * unfold timers_on_grid. rewrite H4. exact Hgrid.
      * exists [RefUpdate (reset_updates st)]. split; [exact H6|].
        constructor; [|constructor]. cbn [own_write]. rewrite <- Hid. apply reset_updates_own.
    + repeat split; try assumption. exists []. split; [apply fmap_app_nil | constructor].
  - destruct (onSave_page d dl remote st) as (H1 & H2 & H3 & H4).
    repeat split; [eapply laid_out_inputs; eauto | congruence | |].
    + unfold timers_on_grid. rewrite H3. exact Hgrid.
    + exists []. split; [rewrite H4; apply fmap_app_nil | constructor].
Qed.

Lemma pushed_by_own (id : string) (st : page) (ev : event) :
  clientId st = id ->
  Forall (own_save id) (pushed_by st ev)
  /\ length (pushed_by st ev) = saves_expected (db st) [ev].
Proof.
  intros Hid. destruct ev as [l b v | d | l snap | e | confirmed remote | d dl remote];
    cbn [pushed_by saves_expected List.filter is_save length];
    try (split; [constructor | destruct (db st); reflexivity]).
  destruct (SaveFacts.onSave_unfold d dl remote st) as (ls & E & ->).
  cbn [Save.pushed]. destruct (db st); [|split; [constructor | reflexivity]].
  split; [|reflexivity]. constructor; [|constructor].
  unfold own_save. cbn [Save.savedBy Save.lines Save.text Save.segments].
  split; [exact Hid|]. split; [|split; reflexivity].
  apply mapM_Some, Forall2_length in E. rewrite length_seq in E. now symmetry.
Qed.

Lemma saves_expected_cons (d : option (list db_call)) (ev : event) (evs : list event) :
  saves_expected d (ev :: evs) = saves_expected d [ev] + saves_expected d evs.
Proof.
  unfold saves_expected. destruct d; [|reflexivity].
  cbn [List.filter]. destruct (is_save ev); reflexivity.
Qed.

Lemma saves_expected_db (d d' : option (list db_call)) (extra : list db_call)
    (evs : list event) :
  d' = (fun calls => calls ++ extra) <$> d -> saves_expected d' evs = saves_expected d evs.
Proof. intros ->. destruct d; reflexivity. Qed.

Lemma run_sound (id : string) (evs : list event) (s : session) :
  laid_out (page_now s) -> clientId (page_now s) = id -> timers_on_grid (page_now s) ->
  Forall (own_save id) (pushes s) ->
  laid_out (page_now (run evs s)) /\ clientId (page_now (run evs s)) = id
  /\ timers_on_grid (page_now (run evs s))
  /\ (exists writes, db (page_now (run evs s)) = (fun calls => calls ++ writes) <$> db (page_now s)
       /\ Forall (own_write id) writes)
  /\ Forall (own_save id) (pushes (run evs s))
  /\ length (pushes (run evs s)) = length (pushes s) + saves_expected (db (page_now s)) evs.
Proof.
  revert s; induction evs as [|ev evs IH]; intros s Hlay Hid Hgrid Hown; cbn [run foldl].
  - repeat split; try assumption.
    + exists []. split; [apply fmap_app_nil | constructor].
    + unfold saves_expected. destruct (db (page_now s)); cbn; lia.
  - destruct (react_sound id (page_now s) ev Hlay Hid Hgrid) as (S1 & S2 & S3 & extra & Sd & Sx).
    destruct (pushed_by_own id (page_now s) ev Hid) as [P1 P2].
    assert (Hown' : Forall (own_save id) (pushes (step s ev))).
    { cbn [step pushes]. apply Forall_app. split; assumption. }
    destruct (IH (step s ev) S1 S2 S3 Hown') as (H1 & H2 & H3 & (writes & Hd & Hw) & H5 & H6).
    fold (run evs (step s ev)).
    repeat split; try assumption.
    + exists (extra ++ writes). split; [|apply Forall_app; split; assumption].
      rewrite Hd. cbn [step page_now]. rewrite Sd.
      destruct (db (page_now s)); cbn; [|reflexivity]. now rewrite <- app_assoc.
    + rewrite H6. cbn [step pushes page_now]. rewrite length_app, P2.
      rewrite (saves_expected_db _ _ extra evs Sd).
      rewrite (saves_expected_cons (db (page_now s)) ev evs). lia.
Qed.

(** X23. Whatever happens after [setup] (typing, time passing,
    notifications, focus changes, resets, saves, in any order): the 30 by 3
    grid of bindings stays as [setup] made it and the client id is kept.
    Without a database the page never makes a call on one and pushes
    nothing.  With one, every [set], [update] or [on] call added after the
    listeners of [setup] is a write of this client to its own fields (a
    [set] at the path of one of the 90 fields, or an [update] that empties
    fields, signed with this client's id), and the only other calls are the
    pushes under [saves]: exactly one for each click on save, each holding
    the 30 lines of an export, their text, the template and this client's
    id.  No listener is added later. *)
Theorem session_writes_only_own_fields (d : option (list db_call)) (id : string)
    (evs : list event) :
  let s := run evs (start d id) in
  laid_out (page_now s)
  /\ clientId (page_now s) = id
  /\ timers_on_grid (page_now s)
  /\ (d = None -> db (page_now s) = None /\ pushes s = [])
  /\ (forall calls0, d = Some calls0 ->
        exists writes,
          db (page_now s) = Some (calls0 ++ flat_map listeners (seq 0 LINES) ++ writes)
          /\ Forall (own_write id) writes)
  /\ Forall (own_save id) (pushes s)
  /\ length (pushes s) = saves_expected d evs.
Proof.
  cbv zeta. unfold start.
  destruct (LayoutFacts.setup_spec d id) as (Hi & _ & Hd & _ & Ht & Hc & _).
  assert (Hlay : laid_out (setup d id)) by exact Hi.
  assert (Hgrid : timers_on_grid (setup d id)) by (unfold timers_on_grid; rewrite Ht; constructor).
  revert Hlay Hgrid Hd Hc. generalize (setup d id). intros st0 Hlay Hgrid Hd Hc.
  destruct (run_sound id evs {| page_now := st0; pushes := [] |} Hlay Hc Hgrid
              (Forall_nil_2 _))
    as (H1 & H2 & H3 & (writes & Hw & Hown) & H5 & H6).
  cbn [page_now pushes length] in Hw, H6.
  assert (Hcount : length (pushes (run evs {| page_now := st0; pushes := [] |}))
                   = saves_expected d evs).
  { rewrite H6. cbn [Nat.add].
    apply (saves_expected_db d (db st0) (flat_map listeners (seq 0 LINES)) evs Hd). }
  repeat apply conj; try assumption.
  - intros ->. split; [rewrite Hw, Hd; reflexivity|].
    apply length_zero_iff_nil. rewrite Hcount. reflexivity.
  - intros calls0 ->. exists writes. split; [|exact Hown].
    rewrite Hw, Hd. cbn. now rewrite <- app_assoc.
Qed.

End SessionFacts.

(** ** Focus and a write still waiting *)

Module FocusFacts.
Import JsString Config Page Debounce.

Lemma fire_all_focus (ts : list timer) (st : page) :
  activeElement (foldl fire st ts) = activeElement st.
Proof.
  revert st; induction ts as [|t ts IH]; intros st; cbn [foldl]; [reflexivity|].
  rewrite IH. unfold fire, writeBlank. cbn [db with_now].
  destruct (db st); reflexivity.
Qed.

Lemma advance_focus (d : nat) (st : page) :
  activeElement (advance d st) = activeElement st.
Proof. unfold advance. cbn [activeElement with_now]. now rewrite fire_all_focus. Qed.

Lemma on_input_focus (l b : nat) (v : string) (st : page) :
  activeElement (on_input l b v st) = activeElement st.
Proof. unfold on_input. destruct (input_at st l b); reflexivity. Qed.

Lemma applyRemote_keeps_focused (st : page) (l : nat) (snap : snapshot) (e : elt) :
  activeElement st = Some e ->
  value_of (applyRemote l snap st) e = value_of st e
  /\ inputs (applyRemote l snap st) = inputs st
  /\ db (applyRemote l snap st) = db st
  /\ timers (applyRemote l snap st) = timers st
  /\ now (applyRemote l snap st) = now st.
Proof.
  intros Hf.
  destruct (RemoteFacts.applyRemote_cases st l snap) as [-> | (z & e' & v & _ & _ & Hne & ->)].
  - repeat split.
  - repeat split. unfold set_value, hold. cbn [value_of with_value_of].
    unfold insert, fn_insert. destruct (decide (e' = e)) as [->|]; [congruence | reflexivity].
Qed.

(** X24. Typing in a focused field is safe from notifications.  When a
    field is edited while its input has the focus, and a notification (for
    any line, with any key and payload) arrives before the field's 250 ms
    have passed, the input keeps the typed text and the write that follows
    sends that text. *)
Theorem focus_protects_pending_write (st : page) (calls : list db_call) (l b : nat) (e : elt)
    (v : string) (l' : nat) (snap : snapshot) (gap quiet : nat) :
  db st = Some calls ->
  input_at st l b = Some e -> activeElement st = Some e ->
  gap < 250 -> 250 <= gap + quiet ->
  let final := advance quiet (applyRemote l' snap (advance gap (on_input l b v st))) in
  (exists r, sent_to l b final = sent_to l b st ++ [r] /\ value r = v)
  /\ valueAt final l b = v.
Proof.
  intros Hdb Hin Hfoc Hgap Hq. cbv zeta.
  destruct (PageFacts.on_input_spec l b v e st Hin) as (Hi1 & Hd1 & _ & Hn1 & Hv1 & Harm1).
  pose proof (on_input_focus l b v st) as Hf1.
  set (st1 := on_input l b v st) in *.
  assert (Hdb1 : is_Some (db st1)) by (rewrite Hd1, Hdb; eauto).
  destruct (TypingFacts.pending_wait l b e (now st1 + 250) gap st1 Hdb1 Harm1 ltac:(lia))
    as (Hdb2 & Hi2 & Hv2 & _ & Hn2 & Hp2 & Hs2).
  pose proof (advance_focus gap st1) as Hf2.
  set (st2 := advance gap st1) in *.
  assert (Hfoc2 : activeElement st2 = Some e) by congruence.
  destruct (applyRemote_keeps_focused st2 l' snap e Hfoc2) as (Hv3 & Hi3 & Hd3 & Ht3 & Hn3).
  set (st3 := applyRemote l' snap st2) in *.
  assert (Hdb3 : is_Some (db st3)) by (rewrite Hd3; exact Hdb2).
  assert (Hp3 : pending l b e (now st1 + 250) st3).
  { unfold pending. rewrite Ht3. exact Hp2. }
  destruct (TypingFacts.pending_fire l b e (now st1 + 250) quiet st3 Hdb3 Hp3 ltac:(lia))
    as (_ & Hi4 & Hv4 & _ & _ & _ & r & Hs & Hr & _).
  assert (Hval : value_of st3 e = v) by (rewrite Hv3, Hv2; exact Hv1).
  split.
  - exists r. split.
    + rewrite Hs, (TypingFacts.sent_to_db _ _ _ _ Hd3), Hs2, (TypingFacts.sent_to_db _ _ _ _ Hd1).
      reflexivity.
    + now rewrite Hr.
  - unfold valueAt.
    rewrite (PageFacts.input_at_inputs _ _ _ _ Hi4), (PageFacts.input_at_inputs _ _ _ _ Hi3),
      (PageFacts.input_at_inputs _ _ _ _ Hi2), (PageFacts.input_at_inputs _ _ _ _ Hi1), Hin.
    now rewrite Hv4.
Qed.

Lemma focus_protects_pending_write_witness :
  exists r,
    sent_to 2 1 (advance 200
                   (applyRemote 2 {| key := "1"; val := Js.Obj [("value", Js.Str "fox")] |}
                      (advance 100 (on_input 2 1 "owl" (Session.with_focus (Some 7) demo_page)))))
      = sent_to 2 1 (Session.with_focus (Some 7) demo_page) ++ [r]
    /\ value r = "owl".
Proof.
  refine (proj1 (focus_protects_pending_write (Session.with_focus (Some 7) demo_page)
                   (default [] (db demo_page)) 2 1 7 "owl" 2
                   {| key := "1"; val := Js.Obj [("value", Js.Str "fox")] |} 100 200
                   _ _ _ _ _)).
  - vm_compute. reflexivity.
  - vm_compute. reflexivity.
  - reflexivity.
  - lia.
  - lia.
Defined.

End FocusFacts.

(** ** File names of different seconds *)

Module NameFacts.
Import JsString Stamp Dates.

Lemma length_append (a b : string) :
  String.length (a +:+ b) = String.length a + String.length b.
Proof.
  induction a as [|c a IH]; [reflexivity|].
  change (S (String.length (a +:+ b)) = S (String.length a + String.length b)).
  now rewrite IH.
Qed.

Lemma append_inj_length (a a' b b' : string) :
  String.length a = String.length a' -> a +:+ b = a' +:+ b' -> a = a' /\ b = b'.
Proof.
  revert a'; induction a as [|c a IH]; intros [|c' a'] Hlen H; try discriminate.
  - split; [reflexivity | exact H].
  - change (String c (a +:+ b) = String c' (a' +:+ b')) in H.
    injection H as -> H. injection Hlen as Hlen.
    destruct (IH a' Hlen H) as [-> ->]. split; reflexivity.
Qed.

Lemma fixed_length (w : nat) (n : Z) : String.length (fixed w n) = w.
Proof.
  revert n; induction w as [|w IH]; intros n; [reflexivity|].
  cbn [fixed]. rewrite length_append, IH. cbn. lia.
Qed.

Lemma fixed_inj (w : nat) :
  forall n m, (0 <= n < 10 ^ Z.of_nat w)%Z -> (0 <= m < 10 ^ Z.of_nat w)%Z ->
    fixed w n = fixed w m -> n = m.
Proof.
  induction w as [|w IH]; intros n m Hn Hm H.
  - cbn in Hn, Hm. lia.
  - rewrite Nat2Z.inj_succ, Z.pow_succ_r in Hn, Hm by lia.
    cbn [fixed] in H.
    apply append_inj_length in H as [H1 H2]; [|now rewrite !fixed_length].
    apply IH in H1;
      [| split; [apply Z.div_pos; lia | apply Z.div_lt_upper_bound; lia] ..].
    injection H2 as H2.
    apply (f_equal nat_of_ascii) in H2.
    pose proof (Z.mod_pos_bound n 10 ltac:(lia)).
    pose proof (Z.mod_pos_bound m 10 ltac:(lia)).
    rewrite !nat_ascii_embedding in H2 by lia.
    rewrite (Z.div_mod n 10), (Z.div_mod m 10) by lia. lia.
Qed.

Lemma download_name_fixed (d : date) :
  calendar d -> four_digit_year d ->
  download_name d
  = "fill-in-blanks-" +:+ fixed 4 (getFullYear d) +:+ fixed 2 (getMonth d + 1)
    +:+ fixed 2 (getDate d) +:+ "-" +:+ fixed 2 (getHours d)
    +:+ fixed 2 (getMinutes d) +:+ fixed 2 (getSeconds d) +:+ ".txt".
Proof.
  intros (Hmo & Hda & Hh & Hmi & Hs) Hy. unfold download_name, stamp.
  rewrite (StampFacts.year_four_digits _ Hy).
  rewrite !StampFacts.pad_two_digits by lia. reflexivity.
Qed.

(** X25. Downloads made in different seconds get different file names:
    for calendar dates with four-digit years, two download names are equal
    only if year, month, day, hour, minute and second all agree. *)
Theorem download_name_tells_seconds_apart (d d' : date) :
  calendar d -> calendar d' -> four_digit_year d -> four_digit_year d' ->
  download_name d = download_name d' <-> d = d'.
Proof.
  intros Hc Hc' Hy Hy'. split; [|now intros ->].
  rewrite (download_name_fixed d Hc Hy), (download_name_fixed d' Hc' Hy').
  destruct Hc as (Hmo & Hda & Hh & Hmi & Hs), Hc' as (Hmo' & Hda' & Hh' & Hmi' & Hs').
  unfold four_digit_year in Hy, Hy'.
  intros H.
  apply (append_inj_length "fill-in-blanks-" "fill-in-blanks-") in H as [_ H]; [|reflexivity].
  apply append_inj_length in H as [E1 H]; [|now rewrite !fixed_length].
  apply append_inj_length in H as [E2 H]; [|now rewrite !fixed_length].
  apply append_inj_length in H as [E3 H]; [|now rewrite !fixed_length].
  apply (append_inj_length "-" "-") in H as [_ H]; [|reflexivity].
  apply append_inj_length in H as [E4 H]; [|now rewrite !fixed_length].
  apply append_inj_length in H as [E5 H]; [|now rewrite !fixed_length].
  apply append_inj_length in H as [E6 _]; [|now rewrite !fixed_length].
  apply (fixed_inj 4) in E1; [| cbn; lia ..].
  apply (fixed_inj 2) in E2; [| cbn; lia ..].
  apply (fixed_inj 2) in E3; [| cbn; lia ..].
  apply (fixed_inj 2) in E4; [| cbn; lia ..].
  apply (fixed_inj 2) in E5; [| cbn; lia ..].
  apply (fixed_inj 2) in E6; [| cbn; lia ..].
  destruct d, d'. cbn in *. f_equal; lia.
Qed.

Lemma download_name_tells_seconds_apart_witness :
  download_name sample_date = download_name next_second <-> sample_date = next_second.
Proof.
  apply (download_name_tells_seconds_apart sample_date next_second).
  - unfold calendar; cbn; lia.
  - unfold calendar; cbn; lia.
  - unfold four_digit_year; cbn; lia.
  - unfold four_digit_year; cbn; lia.
Defined.

End NameFacts.

(** ** The exclusion set of the 30 rows, and the rounds of the build *)

Module DealFacts.
Import OrderedSet Draw.

Lemma add_all_fresh (xs s : list word) :
  NoDup xs -> (forall w, w ∈ xs -> w ∉ s) -> add_all s xs = s ++ xs.
Proof.
  revert s; induction xs as [|x xs IH]; intros s Hnd Hfresh.
  - cbn. now rewrite app_nil_r.
  - apply NoDup_cons in Hnd as [Hx Hnd].
    change (add_all (set_add s x) xs = s ++ x :: xs).
    assert (Hs : set_add s x = s ++ [x]).
    { unfold set_add, has. rewrite bool_decide_eq_false_2; [reflexivity|].
      apply Hfresh. constructor. }
    rewrite Hs, IH; [now rewrite <- app_assoc | exact Hnd |].
    intros w Hw Hin. apply elem_of_app in Hin as [Hin | Hin].
    + apply (Hfresh w); [now constructor | exact Hin].
    + apply list_elem_of_singleton in Hin. subst w. contradiction.
Qed.

Lemma draw_lines_untrimmed (lines : nat) (pool : list string) (perLine : nat)
    (rnd : randomness) (excl : list word) (k : nat) :
  length excl + lines * perLine <= EXCLUDE_CAP ->
  (draw_lines lines pool perLine excl rnd k).1.2
  = excl ++ concat (draw_lines lines pool perLine excl rnd k).1.1.
Proof.
  revert excl k; induction lines as [|lines IH]; intros excl k Hcap; cbn [draw_lines]; cbv zeta.
  - cbn [fst snd concat]. now rewrite app_nil_r.
  - cbn [fst snd concat].
    destruct (PickFacts.pick_full pool perLine excl rnd k) as (Hlen & Hnd & Hex & _).
    cbv zeta in Hlen, Hnd, Hex.
    set (picked := (pickUniqueRandom pool perLine excl rnd k).1) in *.
    assert (Hadd : add_all excl picked = excl ++ picked) by now apply add_all_fresh.
    assert (Htrim : trim_exclude (add_all excl picked) = excl ++ picked).
    { rewrite Hadd. unfold trim_exclude.
      destruct (Nat.ltb_spec EXCLUDE_CAP (length (excl ++ picked))) as [Hbig|]; [|reflexivity].
      rewrite length_app in Hbig. cbn in Hcap. lia. }
    rewrite Htrim, IH.
    + now rewrite <- app_assoc.
    + rewrite length_app. cbn in Hcap. lia.
Qed.

Lemma deal_untrimmed (poolArray : list string) (lines perLine : nat) (rnd : randomness) :
  lines * perLine <= EXCLUDE_CAP ->
  (draw_lines lines poolArray perLine [] rnd 0).1.2
  = concat (drawPerLineSuggestions poolArray lines perLine rnd)
  /\ NoDup (concat (drawPerLineSuggestions poolArray lines perLine rnd))
  /\ length (concat (drawPerLineSuggestions poolArray lines perLine rnd)) <= lines * perLine.
Proof.
  intros Hcap. unfold drawPerLineSuggestions.
  pose proof (draw_lines_untrimmed lines poolArray perLine rnd [] 0 Hcap) as E.
  pose proof (DrawFacts.draw_lines_NoDup lines poolArray perLine rnd [] 0
                (NoDup_nil_2 (A:=word))) as Hnd.
  destruct (PickFacts.draw_lines_rows lines poolArray perLine rnd [] 0) as [HF _].
  pose proof (DrawFacts.draw_lines_length lines poolArray perLine rnd [] 0) as Hl.
  cbv zeta in HF.
  revert E Hnd HF Hl. generalize (draw_lines lines poolArray perLine [] rnd 0).
  intros [[rows excl] k]. cbn [fst snd app]. intros E Hnd HF Hl. subst excl.
  split; [reflexivity|]. split; [exact Hnd|].
  rewrite <- Hl. clear Hl Hnd.
  induction HF as [|row rows (Hr & _) _ IH]; [cbn; lia|].
  cbn [concat length]. rewrite length_app. lia.
Qed.

Lemma thirty_rows_fit : Config.LINES * Config.NOUNS_PER_LINE <= EXCLUDE_CAP.
Proof. unfold Config.LINES, Config.NOUNS_PER_LINE, EXCLUDE_CAP. lia. Qed.

(** X26. With 30 lines of 10 words the exclusion set never grows past 300
    words, so [renderAllNounRows] never releases a word: at the end the set
    holds exactly the words of the 30 rows in the order they were dealt,
    and no word appears twice on the whole page. *)
Theorem renderAllNounRows_never_releases (poolArray : list string) (rnd : randomness) :
  (draw_lines Config.LINES poolArray Config.NOUNS_PER_LINE [] rnd 0).1.2
  = concat (renderAllNounRows poolArray rnd)
  /\ NoDup (concat (renderAllNounRows poolArray rnd))
  /\ length (concat (renderAllNounRows poolArray rnd)) <= EXCLUDE_CAP.
Proof.
  unfold renderAllNounRows. pose proof thirty_rows_fit as Hc. revert Hc.
  generalize Config.NOUNS_PER_LINE, Config.LINES. intros per lines Hc.
  destruct (deal_untrimmed poolArray lines per rnd Hc) as (A & B & C).
  split; [exact A|]. split; [exact B | lia].
Qed.

End DealFacts.

Module RoundFacts.
Import Config Pool.

Lemma rounds_batches (t : Z) (pool : list string) (made : nat) (w : world) :
  (exists n, made = BATCH_SIZE * n) -> made <= MAX_REQUESTS ->
  exists n, (rounds t pool made w).1.2 = BATCH_SIZE * n.
Proof.
  funelim (rounds t pool made w); intros [n Hn] Hle.
  - clear Heqcall.
    pose proof (proj1 (andb_true_iff _ _) Hgo) as [_ Hlt]. apply Nat.ltb_lt in Hlt.
    assert (Hb : batch_of requestsMade = BATCH_SIZE).
    { unfold batch_of, BATCH_SIZE, MAX_REQUESTS in *. lia. }
    apply H.
    + exists (S n). rewrite Hb, Hn. unfold BATCH_SIZE. lia.
    + rewrite Hb. unfold BATCH_SIZE, MAX_REQUESTS in *. lia.
  - simpl. exists n. exact Hn.
Qed.

(** X27. The requests go out in full batches: whatever the network does,
    the number of requests [buildWikipediaNounPool] has made when it
    returns is a multiple of 5, so the build takes at most 12 rounds. *)
Theorem build_pool_in_full_batches (targetSize : Z) (w : world) :
  exists n, n <= 12 /\ (buildWikipediaNounPool targetSize w).1.2 = BATCH_SIZE * n.
Proof.
  unfold buildWikipediaNounPool.
  destruct (rounds_batches targetSize [] 0 w) as [n Hn].
  - exists 0. reflexivity.
  - unfold MAX_REQUESTS. lia.
  - destruct (PoolFacts.rounds_spec targetSize [] 0 w (Nat.le_0_l _)) as ([_ Hmax] & _).
    exists n. split; [|exact Hn].
    rewrite Hn in Hmax. unfold BATCH_SIZE, MAX_REQUESTS in Hmax. lia.
Qed.

End RoundFacts.

(** ** From one client's keyboard to another client's page *)

Module EndToEndFacts.
Import JsString Config Page Debounce Sync.

Lemma settled_values_last (rest : list (nat * string)) :
  forall v, exists pre, settled_values v rest = pre ++ [last_value v rest].
Proof.
  induction rest as [|[gap v'] rest IH]; intros v.
  - exists []. reflexivity.
  - cbn [settled_values]. unfold last_value. cbn [map snd].
    rewrite PageFacts.last_cons_default. fold (last_value v' rest).
    destruct (IH v') as [pre Hpre]. rewrite Hpre.
    destruct (250 <=? gap)%nat; [exists (v :: pre) | exists pre]; reflexivity.
Qed.

(** X28. What is typed on one page arrives on another.  After any run of
    edits of a field and 250 ms of rest, the last write the typing client
    has sent for the field carries the final text; delivered to another
    client whose input of that field is not focused, it is assigned to that
    input, which then holds the final text less its line breaks.  The
    final text, read from a text input, is a single line: then both pages
    show the same text. *)
Theorem typed_text_reaches_other_client (sender receiver : page) (calls : list db_call)
    (l b : nat) (e e' : elt) (v1 : string) (rest : list (nat * string)) (quiet : nat) :
  db sender = Some calls ->
  input_at sender l b = Some e ->
  250 <= quiet ->
  input_at receiver l b = Some e' ->
  activeElement receiver ≠ Some e' ->
  let typed := advance quiet (type_all l b rest (on_input l b v1 sender)) in
  exists earlier r,
    sent_to l b typed = sent_to l b sender ++ earlier ++ [r]
    /\ value r = last_value v1 rest
    /\ valueAt typed l b = last_value v1 rest
    /\ valueAt (applyRemote l (delivered b r) receiver) l b
       = strip_newlines (last_value v1 rest)
    /\ (single_line (last_value v1 rest) = true ->
        valueAt (applyRemote l (delivered b r) receiver) l b = valueAt typed l b).
Proof.
  intros Hdb Hin Hq Hin' Hfoc. cbv zeta.
  destruct (PageFacts.on_input_spec l b v1 e sender Hin) as (Hi0 & Hd0 & Hc0 & _ & Hv0 & Harm0).
  assert (Hdb0 : is_Some (db (on_input l b v1 sender))) by (rewrite Hd0, Hdb; eauto).
  assert (Hin0 : input_at (on_input l b v1 sender) l b = Some e)
    by (rewrite (PageFacts.input_at_inputs _ _ _ _ Hi0); exact Hin).
  destruct (TypingFacts.type_all_spec l b e rest _ v1 Hdb0 Hin0 Harm0 Hv0)
    as (news & H1 & H2 & H3 & H4 & H5 & H6 & H7).
  destruct (TypingFacts.pending_fire l b e _ quiet _ H1 H4 ltac:(lia))
    as (_ & Hi & Hv & _ & _ & _ & r & Hs & Hr & Hed).
  destruct (settled_values_last rest v1) as [pre Hpre].
  rewrite Hpre in H6. apply app_inj_tail in H6 as [_ Hlast].
  assert (Hrv : value r = last_value v1 rest) by congruence.
  assert (Htyped : valueAt (advance quiet (type_all l b rest (on_input l b v1 sender))) l b
                   = last_value v1 rest).
  { unfold valueAt.
    rewrite (PageFacts.input_at_inputs _ _ _ _ Hi), (PageFacts.input_at_inputs _ _ _ _ H2), Hin0.
    now rewrite Hv. }
  assert (Hrecv : valueAt (applyRemote l (delivered b r) receiver) l b
                  = strip_newlines (last_value v1 rest)).
  { rewrite (SyncFacts.applyRemote_unfocused _ _ _ _ _ Hin' Hfoc).
    rewrite (PageFacts.valueAt_set_value _ _ _ (value r) receiver Hin'). now rewrite Hrv. }
  exists news, r. split; [|split; [exact Hrv | split; [exact Htyped | split; [exact Hrecv|]]]].
  - rewrite Hs, H5, (TypingFacts.sent_to_db _ _ _ _ Hd0), <- app_assoc. reflexivity.
  - intros Hline. rewrite Hrecv, Htyped. now apply PageFacts.strip_single_line.
Qed.

Lemma typed_text_reaches_other_client_witness :
  exists earlier r,
    sent_to 2 1 (advance 250 (type_all 2 1 [(100, "ow"); (400, "owl")] (on_input 2 1 "o" demo_page)))
      = sent_to 2 1 demo_page ++ earlier ++ [r]
    /\ valueAt (applyRemote 2 (delivered 1 r) (setup (Some []) "client-b")) 2 1 = "owl".
Proof.
  destruct (typed_text_reaches_other_client demo_page (setup (Some []) "client-b")
              (default [] (db demo_page)) 2 1 7 7 "o" [(100, "ow"); (400, "owl")] 250)
    as (earlier & r & H1 & _ & _ & H3 & _).
  - vm_compute. reflexivity.
  - vm_compute. reflexivity.
  - lia.
  - vm_compute. reflexivity.
  - vm_compute. discriminate.
  - exists earlier, r. split; [exact H1 | exact H3].
Defined.

(** X29. A notification that arrives for a field while an edit of it is
    still waiting in its debounce, the input not having the focus, replaces
    the typed text by the notified text (less its line breaks, which the
    input does not keep), and the write that then fires sends what the
    input holds then: the value is read when the timer runs, not when the
    key was pressed. *)
Theorem unfocused_edit_overtaken_by_notification (st : page) (calls : list db_call)
    (l b : nat) (e : elt) (v : string) (r : blank_record) (gap quiet : nat) :
  db st = Some calls ->
  input_at st l b = Some e -> activeElement st ≠ Some e ->
  gap < 250 -> 250 <= gap + quiet ->
  let final := advance quiet (applyRemote l (delivered b r) (advance gap (on_input l b v st))) in
  (exists r', sent_to l b final = sent_to l b st ++ [r']
              /\ value r' = strip_newlines (value r)
              /\ (single_line (value r) = true -> value r' = value r))
  /\ valueAt final l b = strip_newlines (value r).
Proof.
  intros Hdb Hin Hfoc Hgap Hq. cbv zeta.
  destruct (PageFacts.on_input_spec l b v e st Hin) as (Hi1 & Hd1 & _ & Hn1 & Hv1 & Harm1).
  pose proof (FocusFacts.on_input_focus l b v st) as Hf1.
  set (st1 := on_input l b v st) in *.
  assert (Hdb1 : is_Some (db st1)) by (rewrite Hd1, Hdb; eauto).
  destruct (TypingFacts.pending_wait l b e (now st1 + 250) gap st1 Hdb1 Harm1 ltac:(lia))
    as (Hdb2 & Hi2 & Hv2 & _ & Hn2 & Hp2 & Hs2).
  pose proof (FocusFacts.advance_focus gap st1) as Hf2.
  set (st2 := advance gap st1) in *.
  assert (Hin2 : input_at st2 l b = Some e).
  { rewrite (PageFacts.input_at_inputs _ _ _ _ Hi2), (PageFacts.input_at_inputs _ _ _ _ Hi1).
    exact Hin. }
  assert (Hfoc2 : activeElement st2 ≠ Some e) by congruence.
  rewrite (SyncFacts.applyRemote_unfocused _ _ _ _ r Hin2 Hfoc2).
  assert (Hdb3 : is_Some (db (set_value e (value r) st2))) by exact Hdb2.
  assert (Hp3 : pending l b e (now st1 + 250) (set_value e (value r) st2)) by exact Hp2.
  destruct (TypingFacts.pending_fire l b e (now st1 + 250) quiet _ Hdb3 Hp3
              ltac:(cbn [now set_value hold with_value_of]; lia))
    as (_ & Hi4 & Hv4 & _ & _ & _ & r' & Hs & Hr & _).
  rewrite PageFacts.value_of_set_value in Hr.
  split.
  - exists r'. split; [|split; [exact Hr|]].
    + rewrite Hs. change (sent_to l b (set_value e (value r) st2)) with (sent_to l b st2).
      rewrite Hs2, (TypingFacts.sent_to_db _ _ _ _ Hd1). reflexivity.
    + intros Hline. rewrite Hr. now apply PageFacts.strip_single_line.
  - unfold valueAt. rewrite (PageFacts.input_at_inputs _ _ _ _ Hi4).
    change (input_at (set_value e (value r) st2) l b) with (input_at st2 l b).
    rewrite Hin2, Hv4. apply PageFacts.value_of_set_value.
Qed.

Lemma unfocused_edit_overtaken_by_notification_witness :
  exists r',
    sent_to 2 1 (advance 200
                   (applyRemote 2 (delivered 1 {| value := "fox"; editedBy := "client-b";
                                                  updatedAt := 5 |})
                      (advance 100 (on_input 2 1 "owl" demo_page))))
      = sent_to 2 1 demo_page ++ [r']
    /\ value r' = "fox".
Proof.
  destruct (unfocused_edit_overtaken_by_notification demo_page (default [] (db demo_page))
              2 1 7 "owl" {| value := "fox"; editedBy := "client-b"; updatedAt := 5 |}
              100 200) as [(r' & H1 & H2 & _) _].
  - vm_compute. reflexivity.
  - vm_compute. reflexivity.
  - vm_compute. discriminate.
  - lia.
  - lia.
  - exists r'. split; [exact H1 | exact H2].
Defined.

End EndToEndFacts.
